(** * Translation-table library (xlat_tables_v2): region list, builder,
      unmapper and attribute mutator, embedded as pure functions.

    The C code is modelled for the AArch64 build with
    PLAT_XLAT_TABLES_DYNAMIC and assertions enabled:
    - [uintptr_t], [size_t], [unsigned long long] and [uint64_t] are 64-bit
      unsigned integers, carried as [Z] with the wrap-around written out;
    - [int] is a 32-bit signed integer;
    - a failed [assert], or a load/store through a pointer that is not a
      table of the context, is a fault: the function returns [None]. *)

From Stdlib Require Import ZArith Lia Bool.
From stdpp Require Import base list.

Open Scope Z_scope.

(** ** Machine integers *)

Definition wrap64 (x : Z) : Z := x mod 2 ^ 64.

(** Conversion of an integer value to [int] (two's complement, 32 bits). *)
Definition to_int (x : Z) : Z := (x + 2 ^ 31) mod 2 ^ 32 - 2 ^ 31.

Definition UINT64_MAX : Z := 2 ^ 64 - 1.

(** ** Constants of xlat_tables_defs.h and errno.h *)

(** Modelled from the spec: the header xlat_tables_defs.h is not among the
    sources.  The glossary fixes 4 KiB pages, 512 descriptors per table,
    deepest level 3 and an entry span of [2^(12 + 9 * (3 - level))]; the
    descriptor types are the ARMv8 long-descriptor encodings in the two low
    bits (invalid 0, block 1, table 3, page 3). *)
Definition PAGE_SIZE_SHIFT : Z := 12.
Definition PAGE_SIZE : Z := Z.shiftl 1 PAGE_SIZE_SHIFT.
Definition PAGE_SIZE_MASK : Z := PAGE_SIZE - 1.
Definition IS_PAGE_ALIGNED (addr : Z) : bool := Z.land addr PAGE_SIZE_MASK =? 0.

Definition XLAT_TABLE_ENTRIES_SHIFT : Z := 9.
Definition XLAT_TABLE_ENTRIES : Z := Z.shiftl 1 XLAT_TABLE_ENTRIES_SHIFT.
Definition XLAT_TABLE_IDX_MASK : Z := XLAT_TABLE_ENTRIES - 1.
Definition XLAT_TABLE_LEVEL_MAX : Z := 3.
Definition XLAT_TABLE_SIZE : Z := 4096.

Definition XLAT_ADDR_SHIFT (level : Z) : Z :=
  PAGE_SIZE_SHIFT + (XLAT_TABLE_LEVEL_MAX - level) * XLAT_TABLE_ENTRIES_SHIFT.
Definition XLAT_BLOCK_SIZE (level : Z) : Z := Z.shiftl 1 (XLAT_ADDR_SHIFT level).
Definition XLAT_BLOCK_MASK (level : Z) : Z := XLAT_BLOCK_SIZE level - 1.

Definition INVALID_DESC : Z := 0.
Definition BLOCK_DESC : Z := 1.
Definition TABLE_DESC : Z := 3.
Definition PAGE_DESC : Z := 3.
Definition DESC_MASK : Z := 3.
Definition TABLE_ADDR_MASK : Z := 0x0000FFFFFFFFF000.

(** Modelled from the spec: xlat_tables_arch.h is not among the sources; the
    spec's scenarios use minimum block level 1 (a 1 GiB block at level 1 is
    the coarsest block with 4 KiB pages). *)
Definition MIN_LVL_BLOCK_DESC : Z := 1.

Definition EPERM : Z := 1.
Definition ENOMEM : Z := 12.
Definition EINVAL : Z := 22.
Definition ERANGE : Z := 34.

(** ** Attributes (xlat_tables_v2.h) *)

Definition MT_TYPE_MASK : Z := 7.
Definition MT_TYPE (a : Z) : Z := Z.land a MT_TYPE_MASK.
Definition MT_PERM_SHIFT : Z := 3.
Definition MT_SEC_SHIFT : Z := 4.
Definition MT_EXECUTE_SHIFT : Z := 5.
Definition MT_DEVICE : Z := 0.
Definition MT_NON_CACHEABLE : Z := 1.
Definition MT_MEMORY : Z := 2.
Definition MT_RO : Z := Z.shiftl 0 MT_PERM_SHIFT.
Definition MT_RW : Z := Z.shiftl 1 MT_PERM_SHIFT.
Definition MT_SECURE : Z := Z.shiftl 0 MT_SEC_SHIFT.
Definition MT_NS : Z := Z.shiftl 1 MT_SEC_SHIFT.
Definition MT_EXECUTE : Z := Z.shiftl 0 MT_EXECUTE_SHIFT.
Definition MT_EXECUTE_NEVER : Z := Z.shiftl 1 MT_EXECUTE_SHIFT.

(** Modelled from the spec: the private header that declares the dynamic flag
    is not among the sources; the flag is one attribute bit outside the
    user-settable ones (bit 30). *)
Definition MT_DYN_SHIFT : Z := 30.
Definition MT_DYNAMIC : Z := Z.shiftl 1 MT_DYN_SHIFT.

(** ** Region records *)

Record mmap_region : Type := MkRegion {
  base_pa : Z;
  base_va : Z;
  size : Z;
  attr : Z;
  granularity : Z
}.

Definition region_end_va (mm : mmap_region) : Z :=
  wrap64 (base_va mm + size mm - 1).
Definition region_end_pa (mm : mmap_region) : Z :=
  wrap64 (base_pa mm + size mm - 1).

(** ** Actions of the builder *)

Inductive action_t : Type :=
| ACTION_NONE
| ACTION_WRITE_BLOCK_ENTRY
| ACTION_CREATE_NEW_TABLE
| ACTION_RECURSE_INTO_TABLE.

Definition action_eqb (a b : action_t) : bool :=
  match a, b with
  | ACTION_NONE, ACTION_NONE
  | ACTION_WRITE_BLOCK_ENTRY, ACTION_WRITE_BLOCK_ENTRY
  | ACTION_CREATE_NEW_TABLE, ACTION_CREATE_NEW_TABLE
  | ACTION_RECURSE_INTO_TABLE, ACTION_RECURSE_INTO_TABLE => true
  | _, _ => false
  end.

(** [xlat_tables_map_region_action]: [None] is a failed assertion. *)
Definition xlat_tables_map_region_action (mm : mmap_region)
    (desc_type dest_pa table_entry_base_va level : Z) : option action_t :=
  let mm_end_va := wrap64 (base_va mm + size mm - 1) in
  let table_entry_end_va :=
    wrap64 (table_entry_base_va + XLAT_BLOCK_SIZE level - 1) in
  if (base_va mm <=? table_entry_base_va) && (mm_end_va >=? table_entry_end_va)
  then
    if level =? 3 then
      if desc_type =? PAGE_DESC then Some ACTION_NONE
      else if desc_type =? INVALID_DESC then Some ACTION_WRITE_BLOCK_ENTRY
      else None
    else
      if desc_type =? TABLE_DESC then Some ACTION_RECURSE_INTO_TABLE
      else if desc_type =? INVALID_DESC then
        if negb (Z.land dest_pa (XLAT_BLOCK_MASK level) =? 0)
           || (level <? MIN_LVL_BLOCK_DESC)
           || (granularity mm <? XLAT_BLOCK_SIZE level)
        then Some ACTION_CREATE_NEW_TABLE
        else Some ACTION_WRITE_BLOCK_ENTRY
      else if desc_type =? BLOCK_DESC then Some ACTION_NONE
      else None
  else if (base_va mm <=? table_entry_end_va)
          || (mm_end_va >=? table_entry_base_va)
  then
    if negb (level <? 3) then None
    else if desc_type =? INVALID_DESC then Some ACTION_CREATE_NEW_TABLE
    else if desc_type =? TABLE_DESC then Some ACTION_RECURSE_INTO_TABLE
    else None
  else Some ACTION_NONE.

(** ** Descriptor encoding *)

(** Modelled from the spec: the attribute fields of a descriptor follow the
    ARMv8 long-descriptor format named in the spec (lower attributes start at
    bit 2: attribute index, NS, AP, shareability, access flag; the
    execute-never bits are upper attributes supplied by the context). *)
Definition LOWER_ATTRS (x : Z) : Z := Z.shiftl (Z.land x 0xfff) 2.
Definition ACCESS_FLAG : Z := Z.shiftl 1 8.
Definition OSH : Z := Z.shiftl 2 6.
Definition ISH : Z := Z.shiftl 3 6.
Definition AP2_SHIFT : Z := 7.
Definition AP2_RO : Z := 1.
Definition AP2_RW : Z := 0.
Definition AP_RO : Z := Z.shiftl AP2_RO 5.
Definition AP_RW : Z := Z.shiftl AP2_RW 5.
Definition NS : Z := Z.shiftl 1 3.
Definition ATTR_NON_CACHEABLE_INDEX : Z := 2.
Definition ATTR_DEVICE_INDEX : Z := 1.
Definition ATTR_IWBWA_OWBWA_NTR_INDEX : Z := 0.
Definition XN_SHIFT : Z := 54.

(** [xlat_desc]: [None] when one of its two assertions fails. *)
Definition xlat_desc (attr0 addr_pa level execute_never_mask : Z) : option Z :=
  if negb (Z.land addr_pa (XLAT_BLOCK_MASK level) =? 0) then None
  else
    let desc := addr_pa in
    let desc :=
      Z.lor desc (if level =? XLAT_TABLE_LEVEL_MAX then PAGE_DESC else BLOCK_DESC) in
    let desc :=
      Z.lor desc (if negb (Z.land attr0 MT_NS =? 0) then LOWER_ATTRS NS else 0) in
    let desc :=
      Z.lor desc (if negb (Z.land attr0 MT_RW =? 0)
                  then LOWER_ATTRS AP_RW else LOWER_ATTRS AP_RO) in
    let desc := Z.lor desc (LOWER_ATTRS ACCESS_FLAG) in
    let mem_type := MT_TYPE attr0 in
    if mem_type =? MT_DEVICE then
      let desc := Z.lor desc (LOWER_ATTRS (Z.lor ATTR_DEVICE_INDEX OSH)) in
      Some (Z.lor desc execute_never_mask)
    else
      let desc :=
        if negb (Z.land attr0 MT_RW =? 0)
           || negb (Z.land attr0 MT_EXECUTE_NEVER =? 0)
        then Z.lor desc execute_never_mask else desc in
      if mem_type =? MT_MEMORY then
        Some (Z.lor desc (LOWER_ATTRS (Z.lor ATTR_IWBWA_OWBWA_NTR_INDEX ISH)))
      else if mem_type =? MT_NON_CACHEABLE then
        Some (Z.lor desc (LOWER_ATTRS (Z.lor ATTR_NON_CACHEABLE_INDEX OSH)))
      else None.

(** ** The translation context *)

(** [mmap] is the array of [mmap_num + 1] region records, [base_table] the
    descriptors of the base table, [tables] the descriptors of the pool of
    sub-tables and [tables_mapped_regions] their region counts.  The pool is
    one C array of tables of [XLAT_TABLE_SIZE] bytes: sub-table [i] lives at
    address [tables_addr + i * XLAT_TABLE_SIZE]; the base table lives at
    [base_table_addr]. *)
Record xlat_ctx : Type := MkCtx {
  pa_max_address : Z;
  va_max_address : Z;
  mmap : list mmap_region;
  mmap_num : Z;
  tables : list (list Z);
  tables_addr : Z;
  tables_num : Z;
  tables_mapped_regions : list Z;
  base_table : list Z;
  base_table_addr : Z;
  base_table_entries : Z;
  max_pa : Z;
  max_va : Z;
  base_level : Z;
  initialized : bool;
  execute_never_mask : Z;
  exception_level : Z
}.

Definition set_mmap (ctx : xlat_ctx) (l : list mmap_region) : xlat_ctx :=
  MkCtx (pa_max_address ctx) (va_max_address ctx) l (mmap_num ctx)
    (tables ctx) (tables_addr ctx) (tables_num ctx) (tables_mapped_regions ctx)
    (base_table ctx) (base_table_addr ctx) (base_table_entries ctx)
    (max_pa ctx) (max_va ctx) (base_level ctx) (initialized ctx)
    (execute_never_mask ctx) (exception_level ctx).

Definition set_tables (ctx : xlat_ctx) (t : list (list Z)) : xlat_ctx :=
  MkCtx (pa_max_address ctx) (va_max_address ctx) (mmap ctx) (mmap_num ctx)
    t (tables_addr ctx) (tables_num ctx) (tables_mapped_regions ctx)
    (base_table ctx) (base_table_addr ctx) (base_table_entries ctx)
    (max_pa ctx) (max_va ctx) (base_level ctx) (initialized ctx)
    (execute_never_mask ctx) (exception_level ctx).

Definition set_tables_mapped_regions (ctx : xlat_ctx) (r : list Z) : xlat_ctx :=
  MkCtx (pa_max_address ctx) (va_max_address ctx) (mmap ctx) (mmap_num ctx)
    (tables ctx) (tables_addr ctx) (tables_num ctx) r
    (base_table ctx) (base_table_addr ctx) (base_table_entries ctx)
    (max_pa ctx) (max_va ctx) (base_level ctx) (initialized ctx)
    (execute_never_mask ctx) (exception_level ctx).

Definition set_base_table (ctx : xlat_ctx) (b : list Z) : xlat_ctx :=
  MkCtx (pa_max_address ctx) (va_max_address ctx) (mmap ctx) (mmap_num ctx)
    (tables ctx) (tables_addr ctx) (tables_num ctx) (tables_mapped_regions ctx)
    b (base_table_addr ctx) (base_table_entries ctx)
    (max_pa ctx) (max_va ctx) (base_level ctx) (initialized ctx)
    (execute_never_mask ctx) (exception_level ctx).

Definition set_max (ctx : xlat_ctx) (mpa mva : Z) : xlat_ctx :=
  MkCtx (pa_max_address ctx) (va_max_address ctx) (mmap ctx) (mmap_num ctx)
    (tables ctx) (tables_addr ctx) (tables_num ctx) (tables_mapped_regions ctx)
    (base_table ctx) (base_table_addr ctx) (base_table_entries ctx)
    mpa mva (base_level ctx) (initialized ctx)
    (execute_never_mask ctx) (exception_level ctx).

(** ** Memory of the context: loads and stores through table pointers *)

(** Array access [l[i]] with a C index: out of range is a fault. *)
Definition zlookup {A : Type} (l : list A) (i : Z) : option A :=
  if i <? 0 then None else l !! Z.to_nat i.

Definition zupdate {A : Type} (l : list A) (i : Z) (x : A) : option (list A) :=
  if (0 <=? i) && (i <? Z.of_nat (length l))
  then Some (<[Z.to_nat i := x]> l) else None.

(** [ctx->tables[i]] as a pointer value. *)
Definition table_ptr (ctx : xlat_ctx) (i : Z) : Z :=
  tables_addr ctx + i * XLAT_TABLE_SIZE.

(** The scan of [xlat_table_get_index], from index [i], [n] tables left. *)
Fixpoint get_index_from (ctx : xlat_ctx) (table : Z) (n : nat) (i : Z)
  : option Z :=
  match n with
  | O => None
  | S n' =>
      if table_ptr ctx i =? table then Some i
      else get_index_from ctx table n' (i + 1)
  end.

(** [xlat_table_get_index]: [None] is the [assert(0)] after the scan. *)
Definition xlat_table_get_index (ctx : xlat_ctx) (table : Z) : option Z :=
  get_index_from ctx table (Z.to_nat (tables_num ctx)) 0.

(** [table[idx]] for a table pointer: the base table or a sub-table of the
    pool; any other pointer is a fault. *)
Definition load (ctx : xlat_ctx) (table idx : Z) : option Z :=
  if table =? base_table_addr ctx then zlookup (base_table ctx) idx
  else
    match xlat_table_get_index ctx table with
    | Some i =>
        match zlookup (tables ctx) i with
        | Some t => zlookup t idx
        | None => None
        end
    | None => None
    end.

Definition store (ctx : xlat_ctx) (table idx v : Z) : option xlat_ctx :=
  if table =? base_table_addr ctx then
    match zupdate (base_table ctx) idx v with
    | Some b => Some (set_base_table ctx b)
    | None => None
    end
  else
    match xlat_table_get_index ctx table with
    | Some i =>
        match zlookup (tables ctx) i with
        | Some t =>
            match zupdate t idx v with
            | Some t' =>
                match zupdate (tables ctx) i t' with
                | Some ts => Some (set_tables ctx ts)
                | None => None
                end
            | None => None
            end
        | None => None
        end
    | None => None
    end.

(** ** The pool of sub-tables (dynamic build) *)

Definition NULL : Z := 0.

(** The scan of [xlat_table_get_empty]. *)
Fixpoint get_empty_from (ctx : xlat_ctx) (n : nat) (i : Z) : option Z :=
  match n with
  | O => Some NULL
  | S n' =>
      match zlookup (tables_mapped_regions ctx) i with
      | Some c => if c =? 0 then Some (table_ptr ctx i)
                  else get_empty_from ctx n' (i + 1)
      | None => None
      end
  end.

(** [xlat_table_get_empty]: a pointer to the first sub-table whose region
    count is zero, or [NULL]. *)
Definition xlat_table_get_empty (ctx : xlat_ctx) : option Z :=
  get_empty_from ctx (Z.to_nat (tables_num ctx)) 0.

Definition xlat_table_inc_regions_count (ctx : xlat_ctx) (table : Z)
  : option xlat_ctx :=
  match xlat_table_get_index ctx table with
  | Some i =>
      match zlookup (tables_mapped_regions ctx) i with
      | Some c =>
          match zupdate (tables_mapped_regions ctx) i (to_int (c + 1)) with
          | Some r => Some (set_tables_mapped_regions ctx r)
          | None => None
          end
      | None => None
      end
  | None => None
  end.

Definition xlat_table_dec_regions_count (ctx : xlat_ctx) (table : Z)
  : option xlat_ctx :=
  match xlat_table_get_index ctx table with
  | Some i =>
      match zlookup (tables_mapped_regions ctx) i with
      | Some c =>
          match zupdate (tables_mapped_regions ctx) i (to_int (c - 1)) with
          | Some r => Some (set_tables_mapped_regions ctx r)
          | None => None
          end
      | None => None
      end
  | None => None
  end.

Definition xlat_table_is_empty (ctx : xlat_ctx) (table : Z) : option bool :=
  match xlat_table_get_index ctx table with
  | Some i =>
      match zlookup (tables_mapped_regions ctx) i with
      | Some c => Some (c =? 0)
      | None => None
      end
  | None => None
  end.

(** ** The builder *)

(** The first table index affected by the region, with its VA: the prologue
    shared by the builder and the unmapper.  [None] is the failed
    [assert(table_idx < table_entries)]. *)
Definition first_index (mm : mmap_region) (table_base_va table_entries level : Z)
  : option (Z * Z) :=
  if base_va mm >? table_base_va then
    let table_idx_va := Z.land (base_va mm) (Z.lnot (XLAT_BLOCK_MASK level)) in
    let table_idx :=
      to_int (Z.shiftr (wrap64 (table_idx_va - table_base_va))
                       (XLAT_ADDR_SHIFT level)) in
    if table_idx <? table_entries then Some (table_idx_va, table_idx) else None
  else Some (table_base_va, 0).

Section Builder.

(** The decision function of the builder; the code uses
    [xlat_tables_map_region_action]. *)
Variable action : mmap_region -> Z -> Z -> Z -> Z -> option action_t.

(** The [while] loop of [xlat_tables_map_region] with [n] table entries
    left; [recurse ctx table_idx_va subtable] is the call at [level + 1]. *)
Fixpoint map_region_loop
    (recurse : xlat_ctx -> Z -> Z -> option (xlat_ctx * Z))
    (mm : mmap_region) (table_base level : Z)
    (n : nat) (ctx : xlat_ctx) (table_idx table_idx_va : Z)
  : option (xlat_ctx * Z) :=
  match n with
  | O => Some (ctx, wrap64 (table_idx_va - 1))
  | S n' =>
      let mm_end_va := wrap64 (base_va mm + size mm - 1) in
      let next_va := wrap64 (table_idx_va + XLAT_BLOCK_SIZE level) in
      let continue (c : xlat_ctx) :=
        if mm_end_va <=? next_va then Some (c, wrap64 (next_va - 1))
        else map_region_loop recurse mm table_base level n' c
               (table_idx + 1) next_va in
      let descend (c : xlat_ctx) (subtable : Z) :=
        match recurse c table_idx_va subtable with
        | Some (c', end_va) =>
            if negb (end_va =?
                     wrap64 (table_idx_va + XLAT_BLOCK_SIZE level - 1))
            then Some (c', end_va)
            else continue c'
        | None => None
        end in
      match load ctx table_base table_idx with
      | None => None
      | Some desc =>
          let table_idx_pa :=
            wrap64 (base_pa mm + table_idx_va - base_va mm) in
          match action mm (Z.land desc DESC_MASK) table_idx_pa
                  table_idx_va level with
          | None => None
          | Some ACTION_WRITE_BLOCK_ENTRY =>
              match xlat_desc (attr mm) table_idx_pa level
                      (execute_never_mask ctx) with
              | Some d =>
                  match store ctx table_base table_idx d with
                  | Some c => continue c
                  | None => None
                  end
              | None => None
              end
          | Some ACTION_CREATE_NEW_TABLE =>
              match xlat_table_get_empty ctx with
              | None => None
              | Some subtable =>
                  if subtable =? NULL then Some (ctx, table_idx_va)
                  else
                    match store ctx table_base table_idx
                            (Z.lor TABLE_DESC subtable) with
                    | Some c => descend c subtable
                    | None => None
                    end
              end
          | Some ACTION_RECURSE_INTO_TABLE =>
              descend ctx (Z.land desc TABLE_ADDR_MASK)
          | Some ACTION_NONE => continue ctx
          end
      end
  end.

(** [xlat_tables_map_region] at level [3 - d].  The call at [level + 1]
    from level 3 fails the entry assertion [level <= XLAT_TABLE_LEVEL_MAX]. *)
Fixpoint map_region_at (d : nat) (ctx : xlat_ctx) (mm : mmap_region)
    (table_base_va table_base table_entries : Z) : option (xlat_ctx * Z) :=
  let level := XLAT_TABLE_LEVEL_MAX - Z.of_nat d in
  if negb (level >=? base_level ctx) then None
  else
    match first_index mm table_base_va table_entries level with
    | None => None
    | Some (table_idx_va, table_idx) =>
        match (if level >? base_level ctx
               then xlat_table_inc_regions_count ctx table_base
               else Some ctx) with
        | None => None
        | Some ctx1 =>
            map_region_loop
              (match d with
               | O => fun _ _ _ => None
               | S d' =>
                   fun c va subtable =>
                     map_region_at d' c mm va subtable XLAT_TABLE_ENTRIES
               end)
              mm table_base level
              (Z.to_nat (table_entries - table_idx)) ctx1
              table_idx table_idx_va
        end
    end.

(** The call [xlat_tables_map_region(ctx, mm, va, table, entries, level)]. *)
Definition map_region_gen (ctx : xlat_ctx) (mm : mmap_region)
    (table_base_va table_base table_entries level : Z)
  : option (xlat_ctx * Z) :=
  if (0 <=? level) && (level <=? XLAT_TABLE_LEVEL_MAX)
  then map_region_at (Z.to_nat (XLAT_TABLE_LEVEL_MAX - level)) ctx mm
         table_base_va table_base table_entries
  else None.

End Builder.

Definition xlat_tables_map_region :=
  map_region_gen xlat_tables_map_region_action.

(** ** The unmapper *)

(** The action chosen inside the loop of [xlat_tables_unmap_region]; [None]
    is a failed assertion. *)
Definition unmap_region_action (mm : mmap_region)
    (desc_type table_idx_va level : Z) : option action_t :=
  let region_end_va := wrap64 (base_va mm + size mm - 1) in
  let table_idx_end_va := wrap64 (table_idx_va + XLAT_BLOCK_SIZE level - 1) in
  if (base_va mm <=? table_idx_va) && (region_end_va >=? table_idx_end_va)
  then
    if level =? 3 then
      if desc_type =? PAGE_DESC then Some ACTION_WRITE_BLOCK_ENTRY else None
    else
      if desc_type =? TABLE_DESC then Some ACTION_RECURSE_INTO_TABLE
      else if desc_type =? BLOCK_DESC then Some ACTION_WRITE_BLOCK_ENTRY
      else None
  else if (base_va mm <=? table_idx_end_va) || (region_end_va >=? table_idx_va)
  then
    if negb (level <? 3) then None
    else if desc_type =? TABLE_DESC then Some ACTION_RECURSE_INTO_TABLE
    else None
  else Some ACTION_NONE.

(** The [while] loop of [xlat_tables_unmap_region]; the TLB maintenance
    hooks act outside the context and are left out. *)
Fixpoint unmap_region_loop
    (recurse : xlat_ctx -> Z -> Z -> option xlat_ctx)
    (mm : mmap_region) (table_base level : Z)
    (n : nat) (ctx : xlat_ctx) (table_idx table_idx_va : Z)
  : option xlat_ctx :=
  match n with
  | O => Some ctx
  | S n' =>
      let region_end_va := wrap64 (base_va mm + size mm - 1) in
      let next_va := wrap64 (table_idx_va + XLAT_BLOCK_SIZE level) in
      let continue (c : xlat_ctx) :=
        if region_end_va <=? next_va then Some c
        else unmap_region_loop recurse mm table_base level n' c
               (table_idx + 1) next_va in
      match load ctx table_base table_idx with
      | None => None
      | Some desc =>
          match unmap_region_action mm (Z.land desc DESC_MASK)
                  table_idx_va level with
          | None => None
          | Some ACTION_WRITE_BLOCK_ENTRY =>
              match store ctx table_base table_idx INVALID_DESC with
              | Some c => continue c
              | None => None
              end
          | Some ACTION_RECURSE_INTO_TABLE =>
              let subtable := Z.land desc TABLE_ADDR_MASK in
              match recurse ctx table_idx_va subtable with
              | None => None
              | Some c =>
                  match xlat_table_is_empty c subtable with
                  | None => None
                  | Some true =>
                      match store c table_base table_idx INVALID_DESC with
                      | Some c' => continue c'
                      | None => None
                      end
                  | Some false => continue c
                  end
              end
          | Some _ => continue ctx
          end
      end
  end.

(** [xlat_tables_unmap_region] at level [3 - d]. *)
Fixpoint unmap_region_at (d : nat) (ctx : xlat_ctx) (mm : mmap_region)
    (table_base_va table_base table_entries : Z) : option xlat_ctx :=
  let level := XLAT_TABLE_LEVEL_MAX - Z.of_nat d in
  if negb (level >=? base_level ctx) then None
  else
    match first_index mm table_base_va table_entries level with
    | None => None
    | Some (table_idx_va, table_idx) =>
        match unmap_region_loop
                (match d with
                 | O => fun _ _ _ => None
                 | S d' =>
                     fun c va subtable =>
                       unmap_region_at d' c mm va subtable XLAT_TABLE_ENTRIES
                 end)
                mm table_base level
                (Z.to_nat (table_entries - table_idx)) ctx
                table_idx table_idx_va with
        | None => None
        | Some c =>
            if level >? base_level c
            then xlat_table_dec_regions_count c table_base
            else Some c
        end
    end.

Definition xlat_tables_unmap_region (ctx : xlat_ctx) (mm : mmap_region)
    (table_base_va table_base table_entries level : Z) : option xlat_ctx :=
  if (0 <=? level) && (level <=? XLAT_TABLE_LEVEL_MAX)
  then unmap_region_at (Z.to_nat (XLAT_TABLE_LEVEL_MAX - level)) ctx mm
         table_base_va table_base table_entries
  else None.

(** ** The region list *)

(** The overlap loop of [mmap_add_region_check] over the array from the
    cursor on: it stops at the first record of size zero.  [None]: the cursor
    ran off the array. *)
Fixpoint check_overlaps (l : list mmap_region)
    (base_pa0 base_va0 size0 attr0 : Z) : option Z :=
  match l with
  | [] => None
  | mm :: rest =>
      if size mm =? 0 then Some 0
      else
        let end_pa := wrap64 (base_pa0 + size0 - 1) in
        let end_va := wrap64 (base_va0 + size0 - 1) in
        let mm_end_va := wrap64 (base_va mm + size mm - 1) in
        let fully_overlapped_va :=
          ((base_va0 >=? base_va mm) && (end_va <=? mm_end_va))
          || ((base_va mm >=? base_va0) && (mm_end_va <=? end_va)) in
        if fully_overlapped_va then
          if negb (Z.land attr0 MT_DYNAMIC =? 0)
             || negb (Z.land (attr mm) MT_DYNAMIC =? 0)
          then Some (- EPERM)
          else if negb (wrap64 (base_va mm - base_pa mm)
                        =? wrap64 (base_va0 - base_pa0))
          then Some (- EPERM)
          else if (base_va0 =? base_va mm) && (size0 =? size mm)
          then Some (- EPERM)
          else check_overlaps rest base_pa0 base_va0 size0 attr0
        else
          let mm_end_pa := wrap64 (base_pa mm + size mm - 1) in
          let separated_pa :=
            (end_pa <? base_pa mm) || (base_pa0 >? mm_end_pa) in
          let separated_va :=
            (end_va <? base_va mm) || (base_va0 >? mm_end_va) in
          if negb (separated_va && separated_pa) then Some (- EPERM)
          else check_overlaps rest base_pa0 base_va0 size0 attr0
  end.

Definition mmap_add_region_check (ctx : xlat_ctx)
    (base_pa0 base_va0 size0 attr0 granularity0 : Z) : option Z :=
  let end_pa := wrap64 (base_pa0 + size0 - 1) in
  let end_va := wrap64 (base_va0 + size0 - 1) in
  if negb (IS_PAGE_ALIGNED base_pa0) || negb (IS_PAGE_ALIGNED base_va0)
     || negb (IS_PAGE_ALIGNED size0) || negb (IS_PAGE_ALIGNED granularity0)
  then Some (- EINVAL)
  else if (base_pa0 >? end_pa) || (base_va0 >? end_va) then Some (- ERANGE)
  else if wrap64 (base_va0 + size0 - 1) >? va_max_address ctx
  then Some (- ERANGE)
  else if wrap64 (base_pa0 + size0 - 1) >? pa_max_address ctx
  then Some (- ERANGE)
  else
    match zlookup (mmap ctx) (mmap_num ctx - 1) with
    | None => None
    | Some last =>
        if negb (size last =? 0) then Some (- ENOMEM)
        else check_overlaps (mmap ctx) base_pa0 base_va0 size0 attr0
    end.

(** First cursor loop of the two add functions: skip the records that end
    below [end_va].  The result is the cursor index; [None]: the cursor ran
    off the array. *)
Fixpoint skip_lower_end (l : list mmap_region) (end_va : Z) (i : nat)
  : option nat :=
  match l with
  | [] => None
  | c :: rest =>
      if (wrap64 (base_va c + size c - 1) <? end_va) && negb (size c =? 0)
      then skip_lower_end rest end_va (S i)
      else Some i
  end.

(** Second cursor loop: skip the records with the same end and a smaller
    size. *)
Fixpoint skip_smaller_size (l : list mmap_region) (end_va size0 : Z) (i : nat)
  : option nat :=
  match l with
  | [] => None
  | c :: rest =>
      if (wrap64 (base_va c + size c - 1) =? end_va) && (size c <? size0)
      then skip_smaller_size rest end_va size0 (S i)
      else Some i
  end.

(** The place where a region ending at [end_va] with size [size0] goes. *)
Definition find_cursor (l : list mmap_region) (end_va size0 : Z)
  : option nat :=
  match skip_lower_end l end_va O with
  | None => None
  | Some i => skip_smaller_size (drop i l) end_va size0 i
  end.

(** [memmove(mm_cursor + 1, mm_cursor, mm_last - mm_cursor)] where [mm_last]
    is the record of index [num]: a fault unless the cursor and [mm_last] are
    inside the array. *)
Definition memmove_up (l : list mmap_region) (cursor num : nat)
  : option (list mmap_region) :=
  if (cursor <=? num)%nat && (num <? length l)%nat
  then Some (take (S cursor) l ++ take (num - cursor) (drop cursor l)
             ++ drop (S num) l)
  else None.

(** [memmove(mm_cursor, mm_cursor + 1, mm_last - mm_cursor)]. *)
Definition memmove_down (l : list mmap_region) (cursor num : nat)
  : option (list mmap_region) :=
  if (cursor <=? num)%nat && (num <? length l)%nat
  then Some (take cursor l ++ take (num - cursor) (drop (S cursor) l)
             ++ drop num l)
  else None.

(** Insertion shared by the two add functions: both cursor loops, the
    [memmove], the sentinel assertion and the write of the new record. *)
Definition insert_region (ctx : xlat_ctx) (new : mmap_region)
  : option (nat * list mmap_region) :=
  let end_va := wrap64 (base_va new + size new - 1) in
  if mmap_num ctx <? 0 then None
  else
    match find_cursor (mmap ctx) end_va (size new) with
    | None => None
    | Some cursor =>
        match memmove_up (mmap ctx) cursor (Z.to_nat (mmap_num ctx)) with
        | None => None
        | Some l1 =>
            match l1 !! Z.to_nat (mmap_num ctx) with
            | Some last =>
                if size last =? 0
                then Some (cursor, <[cursor := new]> l1)
                else None
            | None => None
            end
        end
    end.

Definition update_max (ctx : xlat_ctx) (end_pa end_va : Z) : xlat_ctx :=
  set_max ctx
    (if end_pa >? max_pa ctx then end_pa else max_pa ctx)
    (if end_va >? max_va ctx then end_va else max_va ctx).

(** [mmap_add_region_ctx]: [None] is a failed assertion (among them the
    [assert(0)] after a failed check) or a fault. *)
Definition mmap_add_region_ctx (ctx : xlat_ctx) (mm : mmap_region)
  : option xlat_ctx :=
  let end_pa := wrap64 (base_pa mm + size mm - 1) in
  let end_va := wrap64 (base_va mm + size mm - 1) in
  if size mm =? 0 then Some ctx
  else if initialized ctx then None
  else
    match mmap_add_region_check ctx (base_pa mm) (base_va mm) (size mm)
            (attr mm) (granularity mm) with
    | None => None
    | Some ret =>
        if negb (ret =? 0) then None
        else
          match insert_region ctx mm with
          | None => None
          | Some (_, l) => Some (update_max (set_mmap ctx l) end_pa end_va)
          end
    end.

(** [mmap_add_dynamic_region_ctx]: the new context and the returned status;
    [None] is a failed assertion or a fault. *)
Definition mmap_add_dynamic_region_ctx (ctx : xlat_ctx) (mm : mmap_region)
  : option (xlat_ctx * Z) :=
  let end_pa := wrap64 (base_pa mm + size mm - 1) in
  let end_va := wrap64 (base_va mm + size mm - 1) in
  if size mm =? 0 then Some (ctx, 0)
  else
    match mmap_add_region_check ctx (base_pa mm) (base_va mm) (size mm)
            (Z.lor (attr mm) MT_DYNAMIC) (granularity mm) with
    | None => None
    | Some ret =>
        if negb (ret =? 0) then Some (ctx, ret)
        else
          let new := MkRegion (base_pa mm) (base_va mm) (size mm)
                       (Z.lor (attr mm) MT_DYNAMIC) (granularity mm) in
          match insert_region ctx new with
          | None => None
          | Some (cursor, l) =>
              let ctx1 := set_mmap ctx l in
              if initialized ctx1 then
                match xlat_tables_map_region ctx1 new 0 (base_table_addr ctx1)
                        (base_table_entries ctx1) (base_level ctx1) with
                | None => None
                | Some (ctx2, end_va') =>
                    if negb (end_va' =? wrap64 (base_va new + size new - 1))
                    then
                      match memmove_down (mmap ctx2) cursor
                              (Z.to_nat (mmap_num ctx2)) with
                      | None => None
                      | Some l' =>
                          let ctx3 := set_mmap ctx2 l' in
                          match l' !! cursor with
                          | None => None
                          | Some cur =>
                              if base_va cur >=? end_va'
                              then Some (ctx3, - ENOMEM)
                              else
                                let unmap_mm :=
                                  MkRegion 0 (base_va mm)
                                    (wrap64 (end_va' - base_va mm)) 0 0 in
                                match xlat_tables_unmap_region ctx3 unmap_mm 0
                                        (base_table_addr ctx3)
                                        (base_table_entries ctx3)
                                        (base_level ctx3) with
                                | None => None
                                | Some ctx4 => Some (ctx4, - ENOMEM)
                                end
                          end
                      end
                    else Some (update_max ctx2 end_pa end_va, 0)
                end
              else Some (update_max ctx1 end_pa end_va, 0)
          end
    end.

(** The search loop of [mmap_remove_dynamic_region_ctx]: the index of the
    first record that has the given base and size, or of the first record of
    size zero. *)
Fixpoint find_region (l : list mmap_region) (base_va0 size0 : Z) (i : nat)
  : option nat :=
  match l with
  | [] => None
  | mm :: rest =>
      if size mm =? 0 then Some i
      else if (base_va mm =? base_va0) && (size mm =? size0) then Some i
      else find_region rest base_va0 size0 (S i)
  end.

(** The loops that recompute [max_va] and [max_pa] after a removal. *)
Fixpoint scan_max_va (l : list mmap_region) (acc : Z) : option Z :=
  match l with
  | [] => None
  | mm :: rest =>
      if size mm =? 0 then Some acc
      else
        let e := wrap64 (base_va mm + size mm - 1) in
        scan_max_va rest (if e >? acc then e else acc)
  end.

Fixpoint scan_max_pa (l : list mmap_region) (acc : Z) : option Z :=
  match l with
  | [] => None
  | mm :: rest =>
      if size mm =? 0 then Some acc
      else
        let e := wrap64 (base_pa mm + size mm - 1) in
        scan_max_pa rest (if e >? acc then e else acc)
  end.

Definition mmap_remove_dynamic_region_ctx (ctx : xlat_ctx)
    (base_va0 size0 : Z) : option (xlat_ctx * Z) :=
  match zlookup (mmap ctx) (mmap_num ctx) with
  | None => None
  | Some last =>
      if negb (size last =? 0) then None
      else
        match find_region (mmap ctx) base_va0 size0 O with
        | None => None
        | Some i =>
            match mmap ctx !! i with
            | None => None
            | Some mm =>
                if size mm =? 0 then Some (ctx, - EINVAL)
                else if Z.land (attr mm) MT_DYNAMIC =? 0
                then Some (ctx, - EPERM)
                else
                  let update_max_va_needed :=
                    wrap64 (base_va mm + size mm - 1) =? max_va ctx in
                  let update_max_pa_needed :=
                    wrap64 (base_pa mm + size mm - 1) =? max_pa ctx in
                  match (if initialized ctx
                         then xlat_tables_unmap_region ctx mm 0
                                (base_table_addr ctx) (base_table_entries ctx)
                                (base_level ctx)
                         else Some ctx) with
                  | None => None
                  | Some ctx1 =>
                      match memmove_down (mmap ctx1) i
                              (Z.to_nat (mmap_num ctx1)) with
                      | None => None
                      | Some l =>
                          let ctx2 := set_mmap ctx1 l in
                          match (if update_max_va_needed
                                 then scan_max_va l 0
                                 else Some (max_va ctx2)),
                                (if update_max_pa_needed
                                 then scan_max_pa l 0
                                 else Some (max_pa ctx2)) with
                          | Some mva, Some mpa =>
                              Some (set_max ctx2 mpa mva, 0)
                          | _, _ => None
                          end
                      end
                  end
            end
        end
  end.

(** ** Initialisation *)

Definition set_init (ctx : xlat_ctx) (b : list Z) (t : list (list Z))
    (r : list Z) (el xn : Z) : xlat_ctx :=
  MkCtx (pa_max_address ctx) (va_max_address ctx) (mmap ctx) (mmap_num ctx)
    t (tables_addr ctx) (tables_num ctx) r
    b (base_table_addr ctx) (base_table_entries ctx)
    (max_pa ctx) (max_va ctx) (base_level ctx) (initialized ctx) xn el.

Definition set_initialized (ctx : xlat_ctx) : xlat_ctx :=
  MkCtx (pa_max_address ctx) (va_max_address ctx) (mmap ctx) (mmap_num ctx)
    (tables ctx) (tables_addr ctx) (tables_num ctx) (tables_mapped_regions ctx)
    (base_table ctx) (base_table_addr ctx) (base_table_entries ctx)
    (max_pa ctx) (max_va ctx) (base_level ctx) true
    (execute_never_mask ctx) (exception_level ctx).

(** A loop that stores [x] in the first [n] cells of an array; a fault when
    the array is shorter. *)
Definition fill {A : Type} (l : list A) (n : Z) (x : A) : option (list A) :=
  if (0 <=? n) && (n <=? Z.of_nat (length l))
  then Some (replicate (Z.to_nat n) x ++ drop (Z.to_nat n) l)
  else None.

(** The zeroing of every sub-table of the pool. *)
Fixpoint fill_tables (ts : list (list Z)) (n : nat) : option (list (list Z)) :=
  match n, ts with
  | O, _ => Some ts
  | S n', t :: rest =>
      match fill t XLAT_TABLE_ENTRIES INVALID_DESC, fill_tables rest n' with
      | Some t', Some rest' => Some (t' :: rest')
      | _, _ => None
      end
  | S _, [] => None
  end.

(** The loop of [init_xlat_tables_ctx] over the region array; a builder that
    stops early ends in [panic()]. *)
Fixpoint init_map_regions (l : list mmap_region) (ctx : xlat_ctx)
  : option xlat_ctx :=
  match l with
  | [] => None
  | mm :: rest =>
      if size mm =? 0 then Some ctx
      else
        match xlat_tables_map_region ctx mm 0 (base_table_addr ctx)
                (base_table_entries ctx) (base_level ctx) with
        | Some (ctx', end_va) =>
            if negb (end_va =? wrap64 (base_va mm + size mm - 1)) then None
            else init_map_regions rest ctx'
        | None => None
        end
  end.

(** Modelled from the spec: the value that asks for the current exception
    level is declared in a header that is not among the sources. *)
Definition XLAT_CTX_EXCEPTION_LEVEL_CURRENT : Z := 0.

Section Init.

(** The hooks of the architecture layer used by initialisation. *)
Variable xlat_arch_current_el : Z.
Variable xlat_arch_get_xn_desc : Z -> Z.
Variable xlat_arch_get_max_supported_pa : Z.

Definition init_xlat_tables_ctx (ctx : xlat_ctx) : option xlat_ctx :=
  if initialized ctx then None
  else
    let el := if exception_level ctx =? XLAT_CTX_EXCEPTION_LEVEL_CURRENT
              then xlat_arch_current_el else exception_level ctx in
    if negb ((el >=? 1) && (el <=? 3)) then None
    else
      match fill (base_table ctx) (base_table_entries ctx) INVALID_DESC,
            fill (tables_mapped_regions ctx) (tables_num ctx) 0,
            fill_tables (tables ctx) (Z.to_nat (tables_num ctx)) with
      | Some b, Some r, Some t =>
          let ctx1 := set_init ctx b t r el (xlat_arch_get_xn_desc el) in
          match init_map_regions (mmap ctx1) ctx1 with
          | None => None
          | Some ctx2 =>
              if (pa_max_address ctx2 <=? xlat_arch_get_max_supported_pa)
                 && (max_va ctx2 <=? va_max_address ctx2)
                 && (max_pa ctx2 <=? pa_max_address ctx2)
              then Some (set_initialized ctx2)
              else None
          end
      | _, _, _ => None
      end.

End Init.

(** ** Table walk and attribute change *)

(** Modelled from the spec: the macro is declared in an architecture header
    that is not among the sources.  The base level depends on the size of the
    virtual address space: a smaller space starts at a deeper level (a 32-bit
    space starts at level 1). *)
Definition GET_XLAT_TABLE_LEVEL_BASE (virt_addr_space_size : Z) : Z :=
  if virt_addr_space_size >? Z.shiftl 1 (XLAT_ADDR_SHIFT 0) then 0
  else if virt_addr_space_size >? Z.shiftl 1 (XLAT_ADDR_SHIFT 1) then 1
  else 2.

Definition get_xlat_table_idx (virtual_addr level : Z) : Z :=
  to_int (Z.land (Z.shiftr virtual_addr (XLAT_ADDR_SHIFT level))
                 XLAT_TABLE_IDX_MASK).

Definition get_next_table_addr (table_desc : Z) : option Z :=
  if Z.land table_desc DESC_MASK =? TABLE_DESC
  then Some (Z.land table_desc TABLE_ADDR_MASK) else None.

(** The outcome of the walk: [NotFound] is the NULL result, [Found table idx
    level] the pointer [&table[idx]] with the level stored in [out_level]. *)
Inductive walk_result : Type :=
| NotFound
| Found (table idx level : Z).

(** The [for] loop of [find_xlat_table_entry] with [n] levels left. *)
Fixpoint find_entry_loop (ctx : xlat_ctx) (virtual_addr : Z) (n : nat)
    (level table entries : Z) : option walk_result :=
  match n with
  | O => Some NotFound
  | S n' =>
      let idx := get_xlat_table_idx virtual_addr level in
      if idx >=? entries then Some NotFound
      else
        match load ctx table idx with
        | None => None
        | Some desc =>
            let desc_type := Z.land desc DESC_MASK in
            if desc_type =? INVALID_DESC then Some NotFound
            else if desc_type =? BLOCK_DESC then Some (Found table idx level)
            else if negb ((desc_type =? TABLE_DESC) || (desc_type =? PAGE_DESC))
            then None
            else if level =? XLAT_TABLE_LEVEL_MAX
            then Some (Found table idx level)
            else
              match get_next_table_addr desc with
              | Some next =>
                  find_entry_loop ctx virtual_addr n' (level + 1) next
                    XLAT_TABLE_ENTRIES
              | None => None
              end
        end
  end.

Definition find_xlat_table_entry (ctx : xlat_ctx) (virtual_addr : Z)
    (xlat_table_base xlat_table_base_entries virt_addr_space_size : Z)
  : option walk_result :=
  let base := GET_XLAT_TABLE_LEVEL_BASE virt_addr_space_size in
  find_entry_loop ctx virtual_addr
    (Z.to_nat (XLAT_TABLE_LEVEL_MAX - base + 1)) base
    xlat_table_base xlat_table_base_entries.

(** Modelled from the spec: [set_bit] is declared in a header that is not
    among the sources; it rewrites one bit of the descriptor in place. *)
Definition set_bit (desc value shift : Z) : Z :=
  if value =? 0 then Z.land desc (Z.lnot (Z.shiftl 1 shift))
  else Z.lor desc (Z.shiftl 1 shift).

Definition change_desc_attributes (desc new_attr : Z) : Z :=
  let read_write := Z.land new_attr (Z.shiftl 1 MT_PERM_SHIFT) =? MT_RW in
  let ap2_bit := if read_write then AP2_RW else AP2_RO in
  let executable :=
    Z.land new_attr (Z.shiftl 1 MT_EXECUTE_SHIFT) =? MT_EXECUTE in
  let xn_bit := if executable then 0 else 1 in
  set_bit (set_bit desc ap2_bit AP2_SHIFT) xn_bit XN_SHIFT.

(** First loop of [change_mem_attributes]: [Some true] when the [n] pages
    from [va] on are all mapped by a page descriptor at the deepest level,
    [Some false] at the first page that is not. *)
Fixpoint check_pages (ctx : xlat_ctx) (n : nat) (va : Z) : option bool :=
  match n with
  | O => Some true
  | S n' =>
      match find_xlat_table_entry ctx va (base_table_addr ctx)
              (base_table_entries ctx) (wrap64 (va_max_address ctx + 1)) with
      | None => None
      | Some NotFound => Some false
      | Some (Found table idx level) =>
          match load ctx table idx with
          | None => None
          | Some e =>
              if negb (Z.land e DESC_MASK =? PAGE_DESC)
                 || negb (level =? XLAT_TABLE_LEVEL_MAX)
              then Some false
              else check_pages ctx n' (wrap64 (va + PAGE_SIZE))
          end
      end
  end.

(** Second loop: rewrite the descriptor of each page. *)
Fixpoint change_pages (ctx : xlat_ctx) (attributes : Z) (n : nat) (va : Z)
  : option xlat_ctx :=
  match n with
  | O => Some ctx
  | S n' =>
      match find_xlat_table_entry ctx va (base_table_addr ctx)
              (base_table_entries ctx) (wrap64 (va_max_address ctx + 1)) with
      | Some (Found table idx level) =>
          match load ctx table idx with
          | None => None
          | Some e =>
              if (Z.land e DESC_MASK =? PAGE_DESC)
                 && (level =? XLAT_TABLE_LEVEL_MAX)
              then
                match store ctx table idx (change_desc_attributes e attributes)
                with
                | Some c => change_pages c attributes n' (wrap64 (va + PAGE_SIZE))
                | None => None
                end
              else None
          end
      | _ => None
      end
  end.

Definition change_mem_attributes (ctx : xlat_ctx)
    (base_va0 size0 attributes : Z) : option (xlat_ctx * Z) :=
  if negb (initialized ctx) then None
  else if negb (IS_PAGE_ALIGNED base_va0) then Some (ctx, - EINVAL)
  else if size0 =? 0 then Some (ctx, - EINVAL)
  else if negb (size0 mod PAGE_SIZE =? 0) then Some (ctx, - EINVAL)
  else if (Z.land attributes (Z.shiftl 1 MT_EXECUTE_SHIFT) =? MT_EXECUTE)
          && (Z.land attributes (Z.shiftl 1 MT_PERM_SHIFT) =? MT_RW)
  then Some (ctx, - EINVAL)
  else
    let pages_count := to_int (size0 / PAGE_SIZE) in
    match check_pages ctx (Z.to_nat pages_count) base_va0 with
    | None => None
    | Some false => Some (ctx, - EINVAL)
    | Some true =>
        match change_pages ctx attributes (Z.to_nat pages_count) base_va0 with
        | Some c => Some (c, 0)
        | None => None
        end
    end.

(** ** The state the claims speak about *)

(** The translation-table state of a context: every descriptor of the base
    table and of the sub-tables, and every region count. *)
Definition table_state (ctx : xlat_ctx)
  : list Z * list (list Z) * list Z :=
  (base_table ctx, tables ctx, tables_mapped_regions ctx).

(** ** Sample contexts *)

Definition sentinel : mmap_region := MkRegion 0 0 0 0 0.

(** A context for a 32-bit address space as in the scenarios of the
    specification: base level 1 with four entries, room for eight regions,
    [ntab] sub-tables, every table zeroed, no region. *)
Definition sample_ctx (ntab : nat) (init : bool) : xlat_ctx :=
  MkCtx (2 ^ 32 - 1) (2 ^ 32 - 1) (replicate 9 sentinel) 8
    (replicate ntab (replicate 512 0)) 0x20000 (Z.of_nat ntab)
    (replicate ntab 0)
    (replicate 4 0) 0x10000 4 0 0 1 init (Z.shiftl 1 54) 3.

(** A context for a 48-bit address space: base level 0 with 512 entries. *)
Definition sample_ctx48 (ntab : nat) : xlat_ctx :=
  MkCtx (2 ^ 48 - 1) (2 ^ 48 - 1) (replicate 9 sentinel) 8
    (replicate ntab (replicate 512 0)) 0x20000 (Z.of_nat ntab)
    (replicate ntab 0)
    (replicate 512 0) 0x10000 512 0 0 0 true (Z.shiftl 1 54) 3.

Definition MT_RW_DATA : Z := Z.lor MT_MEMORY MT_RW.

(** [sample_ctx 2 true] after the dynamic add of one read-write page at
    address 0: the base table points to a level-2 table, which points to a
    level-3 table whose first entry is the page. *)
Definition sample_mapped_ctx : xlat_ctx :=
  match mmap_add_dynamic_region_ctx (sample_ctx 2 true)
          (MkRegion 0 0 4096 MT_RW_DATA 4096) with
  | Some (c, _) => c
  | None => sample_ctx 2 true
  end.

(** ** Vocabulary of the region-list claims *)

(** The regions of the array: the records before the first record of size
    zero. *)
Fixpoint active_regions (l : list mmap_region) : list mmap_region :=
  match l with
  | [] => []
  | r :: rest => if size r =? 0 then [] else r :: active_regions rest
  end.

(** [a]'s VA interval contains [b]'s. *)
Definition va_contains (a b : mmap_region) : Prop :=
  base_va a <= base_va b /\ region_end_va b <= region_end_va a.

Definition is_dynamic (r : mmap_region) : Prop :=
  Z.land (attr r) MT_DYNAMIC <> 0.

(** Same [VA - PA] offset, in the unsigned 64-bit arithmetic of the code. *)
Definition same_offset (a b : mmap_region) : Prop :=
  wrap64 (base_va a - base_pa a) = wrap64 (base_va b - base_pa b).

Definition separated_va (a b : mmap_region) : Prop :=
  region_end_va a < base_va b \/ base_va a > region_end_va b.

Definition separated_pa (a b : mmap_region) : Prop :=
  region_end_pa a < base_pa b \/ base_pa a > region_end_pa b.

(** The two configurations of a new region [new] and a present region [r]
    that validation accepts. *)
Definition overlap_allowed (new r : mmap_region) : Prop :=
  ((va_contains r new \/ va_contains new r)
   /\ ~ is_dynamic new /\ ~ is_dynamic r
   /\ same_offset new r
   /\ ~ (base_va new = base_va r /\ size new = size r))
  \/ (separated_va new r /\ separated_pa new r).

(** Order of the region list: ascending end VA, then ascending size. *)
Definition region_leb (a b : mmap_region) : bool :=
  (region_end_va a <? region_end_va b)
  || ((region_end_va a =? region_end_va b) && (size a <=? size b)).

Fixpoint sorted_regions (l : list mmap_region) : bool :=
  match l with
  | [] => true
  | a :: rest =>
      match rest with
      | [] => true
      | b :: _ => region_leb a b && sorted_regions rest
      end
  end.

Definition mmap_sorted (ctx : xlat_ctx) : Prop :=
  sorted_regions (active_regions (mmap ctx)) = true.

(** Everything in a context that the builder and the unmapper leave alone:
    all of it but the descriptors and the region counts. *)
Definition frame (ctx : xlat_ctx) :=
  (pa_max_address ctx, va_max_address ctx, mmap ctx, mmap_num ctx,
   tables_addr ctx, tables_num ctx, base_table_addr ctx,
   base_table_entries ctx, max_pa ctx, max_va ctx, base_level ctx,
   initialized ctx, execute_never_mask ctx, exception_level ctx).

(** ** The reference builder of the overlap claim *)

(** The entry at [table_entry_base_va] on [level] and the region share at
    least one address. *)
Definition entry_intersects_region (mm : mmap_region)
    (table_entry_base_va level : Z) : bool :=
  let mm_end_va := wrap64 (base_va mm + size mm - 1) in
  let table_entry_end_va :=
    wrap64 (table_entry_base_va + XLAT_BLOCK_SIZE level - 1) in
  (base_va mm <=? table_entry_end_va) && (mm_end_va >=? table_entry_base_va).

(** The decision function the specification asks for: as
    [xlat_tables_map_region_action], but an entry that is not fully inside
    the region is a partial overlap when its interval intersects the region
    (and is not contained in it), not when the disjunction of the two edge
    tests holds. *)
Definition map_region_action_tight (mm : mmap_region)
    (desc_type dest_pa table_entry_base_va level : Z) : option action_t :=
  let mm_end_va := wrap64 (base_va mm + size mm - 1) in
  let table_entry_end_va :=
    wrap64 (table_entry_base_va + XLAT_BLOCK_SIZE level - 1) in
  if (base_va mm <=? table_entry_base_va) && (mm_end_va >=? table_entry_end_va)
  then
    if level =? 3 then
      if desc_type =? PAGE_DESC then Some ACTION_NONE
      else if desc_type =? INVALID_DESC then Some ACTION_WRITE_BLOCK_ENTRY
      else None
    else
      if desc_type =? TABLE_DESC then Some ACTION_RECURSE_INTO_TABLE
      else if desc_type =? INVALID_DESC then
        if negb (Z.land dest_pa (XLAT_BLOCK_MASK level) =? 0)
           || (level <? MIN_LVL_BLOCK_DESC)
           || (granularity mm <? XLAT_BLOCK_SIZE level)
        then Some ACTION_CREATE_NEW_TABLE
        else Some ACTION_WRITE_BLOCK_ENTRY
      else if desc_type =? BLOCK_DESC then Some ACTION_NONE
      else None
  else if entry_intersects_region mm table_entry_base_va level
  then
    if negb (level <? 3) then None
    else if desc_type =? INVALID_DESC then Some ACTION_CREATE_NEW_TABLE
    else if desc_type =? TABLE_DESC then Some ACTION_RECURSE_INTO_TABLE
    else None
  else Some ACTION_NONE.

(** The reference builder: the builder of the code with the tight decision
    function. *)
Definition xlat_tables_map_region_tight :=
  map_region_gen map_region_action_tight.

(** The entries the loop of the builder reaches: inside the address space,
    aligned to the span of their level, starting at or below the end of the
    region and ending at or above its base. *)
Definition entry_visited (mm : mmap_region) (va level : Z) : Prop :=
  0 <= va <= base_va mm + size mm - 1
  /\ base_va mm < va + XLAT_BLOCK_SIZE level
  /\ (XLAT_BLOCK_SIZE level | va).

(** A table the builder is called on: aligned, inside the address space,
    with an [int] number of entries, and sharing addresses with the region. *)
Definition table_visited (mm : mmap_region) (table_base_va entries level : Z)
  : Prop :=
  0 <= table_base_va
  /\ (XLAT_BLOCK_SIZE level | table_base_va)
  /\ table_base_va + entries * XLAT_BLOCK_SIZE level <= 2 ^ 64
  /\ entries < 2 ^ 31
  /\ table_base_va <= base_va mm + size mm - 1
  /\ base_va mm < table_base_va + entries * XLAT_BLOCK_SIZE level.

(** ** Vocabulary of the region-count claim *)

(** Where a sub-table hangs in the tree: the base VA and the level of the
    table at address [target], found by a walk over the table descriptors
    from the table [tb] at level [3 - d] whose first entry maps [tbv]. *)
Fixpoint locate_table (d : nat) (ctx : xlat_ctx) (target tb tbv entries : Z)
  : option (Z * Z) :=
  match d with
  | O => None
  | S d' =>
      let level := XLAT_TABLE_LEVEL_MAX - Z.of_nat d in
      (fix scan (n : nat) (idx : Z) : option (Z * Z) :=
         match n with
         | O => None
         | S n' =>
             let va := tbv + idx * XLAT_BLOCK_SIZE level in
             match load ctx tb idx with
             | Some desc =>
                 if Z.land desc DESC_MASK =? TABLE_DESC then
                   let sub := Z.land desc TABLE_ADDR_MASK in
                   if sub =? target then Some (va, level + 1)
                   else
                     match locate_table d' ctx target sub va
                             XLAT_TABLE_ENTRIES with
                     | Some r => Some r
                     | None => scan n' (idx + 1)
                     end
                 else scan n' (idx + 1)
             | None => scan n' (idx + 1)
             end
         end) (Z.to_nat entries) 0
  end.

(** The region [mm] contributes a descriptor to sub-table [i]: the table
    hangs in the tree and holds a valid descriptor whose VA interval shares
    an address with the region. *)
Definition region_contributes (ctx : xlat_ctx) (mm : mmap_region) (i : Z)
  : bool :=
  match locate_table (Z.to_nat (XLAT_TABLE_LEVEL_MAX - base_level ctx)) ctx
          (table_ptr ctx i) (base_table_addr ctx) 0
          (base_table_entries ctx) with
  | None => false
  | Some (tva, level) =>
      existsb
        (fun idx =>
           match load ctx (table_ptr ctx i) idx with
           | Some desc =>
               negb (Z.land desc DESC_MASK =? INVALID_DESC)
               && entry_intersects_region mm
                    (tva + idx * XLAT_BLOCK_SIZE level) level
           | None => false
           end)
        (map Z.of_nat (seq 0 (Z.to_nat XLAT_TABLE_ENTRIES)))
  end.

(** The number of regions of the list that contribute to sub-table [i]. *)
Definition contributing_regions (ctx : xlat_ctx) (i : Z) : Z :=
  Z.of_nat
    (length (filter (fun mm => region_contributes ctx mm i = true)
               (active_regions (mmap ctx)))).

(** The invariant of the specification: every stored region count is the
    number of contributing regions. *)
Definition region_counts_exact (ctx : xlat_ctx) : bool :=
  forallb
    (fun i =>
       match zlookup (tables_mapped_regions ctx) i with
       | Some c => c =? contributing_regions ctx i
       | None => false
       end)
    (map Z.of_nat (seq 0 (Z.to_nat (tables_num ctx)))).

(** ** Further functions of the library and vocabulary of their properties *)

(** [mmap_add_ctx]: the loop that adds every record of an array up to its
    first record of size zero; [None] when a static add fails an assertion
    or the array has no such record. *)
Fixpoint mmap_add_ctx (ctx : xlat_ctx) (mm : list mmap_region)
  : option xlat_ctx :=
  match mm with
  | [] => None
  | r :: rest =>
      if size r =? 0 then Some ctx
      else
        match mmap_add_region_ctx ctx r with
        | Some ctx' => mmap_add_ctx ctx' rest
        | None => None
        end
  end.

(** The highest end VA and end PA of a list of regions (0 for none). *)
Definition max_end_va (l : list mmap_region) : Z :=
  fold_right (fun r acc => Z.max (region_end_va r) acc) 0 l.

Definition max_end_pa (l : list mmap_region) : Z :=
  fold_right (fun r acc => Z.max (region_end_pa r) acc) 0 l.

(** The tracked maxima of a context are the maxima over its regions. *)
Definition max_exact (ctx : xlat_ctx) : Prop :=
  max_va ctx = max_end_va (active_regions (mmap ctx))
  /\ max_pa ctx = max_end_pa (active_regions (mmap ctx)).

(** The unused slots of the region array are zeroed records. *)
Definition slots_zeroed (ctx : xlat_ctx) : Prop :=
  Forall (fun r => size r = 0 -> base_va r = 0) (mmap ctx).

(** The record has the base VA and the size that a removal asks for. *)
Definition region_matches (base_va0 size0 : Z) (r : mmap_region) : Prop :=
  base_va r = base_va0 /\ size r = size0.

(** The VA of the [k]-th page of a range, as the loops of
    [change_mem_attributes] compute it. *)
Fixpoint page_va (base_va0 : Z) (k : nat) : Z :=
  match k with
  | O => base_va0
  | S k' => wrap64 (page_va base_va0 k' + PAGE_SIZE)
  end.

(** ** Contexts that hold regions *)

(** An identity-mapped read-write page at [va]. *)
Definition sample_page (va : Z) : mmap_region :=
  MkRegion va va 4096 MT_RW_DATA 4096.

(** [sample_ctx 2 false] after the static adds of the page at 0 and of the
    two pages from 0x3000 to 0x4fff. *)
Definition sample_static_ctx : xlat_ctx :=
  match mmap_add_ctx (sample_ctx 2 false)
          [sample_page 0; MkRegion 0x3000 0x3000 0x2000 MT_RW_DATA 4096;
           sentinel] with
  | Some c => c
  | None => sample_ctx 2 false
  end.

(** [sample_ctx 2 false] after the static adds of the pages at 0 and at
    0x4000 and the initialisation at EL3, which maps both pages. *)
Definition sample_dynamic_ctx : xlat_ctx :=
  match mmap_add_ctx (sample_ctx 2 false)
          [sample_page 0; sample_page 0x4000; sentinel] with
  | Some c =>
      match init_xlat_tables_ctx 3 (fun _ => Z.shiftl 1 54) (2 ^ 48 - 1) c
      with
      | Some c' => c'
      | None => c
      end
  | None => sample_ctx 2 false
  end.

(** * Properties *)

(** ** Machine arithmetic *)

Lemma wrap64_small (x : Z) : 0 <= x < 2 ^ 64 -> wrap64 x = x.
Proof. intros H. unfold wrap64. apply Z.mod_small. exact H. Qed.

Lemma wrap64_range (x : Z) : 0 <= wrap64 x < 2 ^ 64.
Proof. unfold wrap64. apply Z.mod_pos_bound. lia. Qed.

Lemma to_int_small (x : Z) : - 2 ^ 31 <= x < 2 ^ 31 -> to_int x = x.
Proof.
  intros H. unfold to_int. rewrite Z.mod_small by lia. lia.
Qed.

Lemma XLAT_ADDR_SHIFT_nonneg (level : Z) :
  0 <= level <= 3 -> 12 <= XLAT_ADDR_SHIFT level <= 39.
Proof.
  intros H. unfold XLAT_ADDR_SHIFT, PAGE_SIZE_SHIFT, XLAT_TABLE_LEVEL_MAX,
    XLAT_TABLE_ENTRIES_SHIFT. lia.
Qed.

Lemma XLAT_BLOCK_SIZE_pow (level : Z) :
  0 <= level <= 3 -> XLAT_BLOCK_SIZE level = 2 ^ XLAT_ADDR_SHIFT level.
Proof.
  intros H. unfold XLAT_BLOCK_SIZE.
  rewrite Z.shiftl_1_l. reflexivity.
Qed.

Lemma XLAT_BLOCK_SIZE_cases (level : Z) :
  0 <= level <= 3 ->
  (level = 0 /\ XLAT_BLOCK_SIZE level = 2 ^ 39)
  \/ (level = 1 /\ XLAT_BLOCK_SIZE level = 2 ^ 30)
  \/ (level = 2 /\ XLAT_BLOCK_SIZE level = 2 ^ 21)
  \/ (level = 3 /\ XLAT_BLOCK_SIZE level = 2 ^ 12).
Proof.
  intros H.
  assert (level = 0 \/ level = 1 \/ level = 2 \/ level = 3) as Hl by lia.
  destruct Hl as [-> | [-> | [-> | ->]]]; [left | right; left | right; right; left | right; right; right];
    split; reflexivity.
Qed.

Lemma XLAT_BLOCK_SIZE_pos (level : Z) :
  0 <= level <= 3 -> 4096 <= XLAT_BLOCK_SIZE level <= 2 ^ 39.
Proof.
  intros H. destruct (XLAT_BLOCK_SIZE_cases level H)
    as [[_ ->] | [[_ ->] | [[_ ->] | [_ ->]]]]; lia.
Qed.

(** ** The decision table of the builder *)

(** C3: for an entry below the deepest level that lies fully inside the
    region and holds an invalid descriptor, the builder writes a block exactly
    when the level allows block descriptors, the destination PA is aligned to
    the block size and the granularity of the region is at least the block
    size; otherwise it creates a new table. *)
Theorem map_region_action_invalid_inside
    (mm : mmap_region) (level dest_pa va : Z) :
  0 <= level < XLAT_TABLE_LEVEL_MAX ->
  0 <= base_va mm ->
  base_va mm + size mm - 1 < 2 ^ 64 ->
  base_va mm <= va ->
  va + XLAT_BLOCK_SIZE level - 1 <= base_va mm + size mm - 1 ->
  let block_ok :=
    level >= MIN_LVL_BLOCK_DESC
    /\ Z.land dest_pa (XLAT_BLOCK_MASK level) = 0
    /\ granularity mm >= XLAT_BLOCK_SIZE level in
  (xlat_tables_map_region_action mm INVALID_DESC dest_pa va level
     = Some ACTION_WRITE_BLOCK_ENTRY <-> block_ok)
  /\ (~ block_ok ->
      xlat_tables_map_region_action mm INVALID_DESC dest_pa va level
        = Some ACTION_CREATE_NEW_TABLE).
Proof.
  intros Hl Hb Hw Hlo Hhi block_ok. unfold XLAT_TABLE_LEVEL_MAX in Hl.
  assert (4096 <= XLAT_BLOCK_SIZE level <= 2 ^ 39) as Hbs
    by (apply XLAT_BLOCK_SIZE_pos; lia).
  assert (xlat_tables_map_region_action mm INVALID_DESC dest_pa va level =
          if negb (Z.land dest_pa (XLAT_BLOCK_MASK level) =? 0)
             || (level <? MIN_LVL_BLOCK_DESC)
             || (granularity mm <? XLAT_BLOCK_SIZE level)
          then Some ACTION_CREATE_NEW_TABLE
          else Some ACTION_WRITE_BLOCK_ENTRY) as Heq.
  { unfold xlat_tables_map_region_action.
    rewrite !wrap64_small by lia.
    replace (base_va mm <=? va) with true by (symmetry; apply Z.leb_le; lia).
    replace (base_va mm + size mm - 1 >=? va + XLAT_BLOCK_SIZE level - 1)
      with true by (symmetry; rewrite Z.geb_leb; apply Z.leb_le; lia).
    replace (level =? 3) with false by (symmetry; apply Z.eqb_neq; lia).
    reflexivity. }
  rewrite Heq. subst block_ok.
  destruct (Z.eqb_spec (Z.land dest_pa (XLAT_BLOCK_MASK level)) 0) as [Ha | Ha];
    destruct (Z.ltb_spec level MIN_LVL_BLOCK_DESC) as [Hm | Hm];
    destruct (Z.ltb_spec (granularity mm) (XLAT_BLOCK_SIZE level)) as [Hg | Hg];
    simpl; split; try (intros _; reflexivity);
    try (split; [intros; discriminate | intros (? & ? & ?); lia]);
    try (split; [intros _; repeat split; (assumption || lia) | reflexivity]);
    try (intros Hn; exfalso; apply Hn; repeat split; (assumption || lia)).
Qed.

Ltac closed_arith :=
  repeat split; vm_compute; first [reflexivity | discriminate].

Lemma map_region_action_invalid_inside_witness :
  xlat_tables_map_region_action
    (MkRegion 0 0 (2 ^ 30) 0 (2 ^ 30)) INVALID_DESC 0 0 1
    = Some ACTION_WRITE_BLOCK_ENTRY
  /\ xlat_tables_map_region_action
       (MkRegion 0 0 (2 ^ 30) 0 4096) INVALID_DESC 0 0 1
     = Some ACTION_CREATE_NEW_TABLE.
Proof.
  split.
  - refine (proj2 (proj1 (map_region_action_invalid_inside
                            (MkRegion 0 0 (2 ^ 30) 0 (2 ^ 30)) 1 0 0
                            _ _ _ _ _)) _); closed_arith.
  - refine (proj2 (map_region_action_invalid_inside
                     (MkRegion 0 0 (2 ^ 30) 0 4096) 1 0 0
                     _ _ _ _ _) _); try closed_arith.
    intros (_ & _ & H). vm_compute in H. apply H. reflexivity.
Defined.

(** ** Empty regions *)

(** C9: a region record of size zero is ignored by both add functions: the
    static add returns with the context unchanged before any assertion or
    validation, and the dynamic add returns success with the context
    unchanged, whatever the other fields of the record and the state of the
    context. *)
Theorem add_region_size_zero_ignored
    (ctx : xlat_ctx) (pa va attr0 gran : Z) :
  mmap_add_region_ctx ctx (MkRegion pa va 0 attr0 gran) = Some ctx
  /\ mmap_add_dynamic_region_ctx ctx (MkRegion pa va 0 attr0 gran)
     = Some (ctx, 0).
Proof. split; reflexivity. Qed.

(** ** Roll-back of a failed dynamic add *)

(** C2: with a single sub-table in the pool, the dynamic add of one page at
    VA 0 passes validation, the builder takes the sub-table for level 2,
    finds no table left for level 3 and stops at VA 0.  The call returns
    -ENOMEM and the region list is as before, but the base table keeps the
    table descriptor and the sub-table keeps its region count: the
    translation-table state is not the state before the call. *)
Theorem add_dynamic_enomem_keeps_new_table :
  let ctx := sample_ctx 1 true in
  let mm := MkRegion 0 0 4096 MT_RW_DATA 4096 in
  mmap_add_region_check ctx 0 0 4096 (Z.lor MT_RW_DATA MT_DYNAMIC) 4096
    = Some 0
  /\ (exists c, xlat_tables_map_region
                  (set_mmap ctx (<[0%nat := MkRegion 0 0 4096
                                     (Z.lor MT_RW_DATA MT_DYNAMIC) 4096]>
                                   (mmap ctx)))
                  (MkRegion 0 0 4096 (Z.lor MT_RW_DATA MT_DYNAMIC) 4096)
                  0 (base_table_addr ctx) (base_table_entries ctx)
                  (base_level ctx) = Some (c, 0))
  /\ exists ctx',
      mmap_add_dynamic_region_ctx ctx mm = Some (ctx', - ENOMEM)
      /\ mmap ctx' = mmap ctx
      /\ base_table ctx' = [Z.lor TABLE_DESC (table_ptr ctx 0); 0; 0; 0]
      /\ base_table ctx = [0; 0; 0; 0]
      /\ tables_mapped_regions ctx' = [1]
      /\ tables_mapped_regions ctx = [0]
      /\ table_state ctx' <> table_state ctx.
Proof.
  cbv zeta. split; [vm_compute; reflexivity |].
  split; [eexists; vm_compute; reflexivity |].
  eexists. split; [vm_compute; reflexivity |].
  repeat split; try (vm_compute; reflexivity).
  vm_compute. intros H. discriminate H.
Qed.

(** The same defect, second face: when the builder stops at the very first
    entry (no sub-table at all in the pool) of a region that is last in the
    list, the stale cursor test lets the roll-back run the unmapper over an
    entry that was never mapped, and the unmapper's assertion fails: the call
    does not return -ENOMEM. *)
Lemma add_dynamic_enomem_unmaps_unmapped :
  mmap_add_dynamic_region_ctx (sample_ctx 0 true)
    (MkRegion (2 ^ 30) (2 ^ 30) 4096 MT_RW_DATA 4096) = None.
Proof. vm_compute. reflexivity. Qed.

(** ** Attribute change over a range the page counter cannot hold *)

(** C8: the page count is kept in an [int].  For a range of [2^44] bytes the
    count [2^32] becomes 0, neither loop runs, and the call reports success
    although no page of the range is mapped (the walk finds nothing at the
    first page). *)
Theorem change_mem_attributes_unmapped_range_succeeds :
  let ctx := sample_ctx48 1 in
  find_xlat_table_entry ctx 0 (base_table_addr ctx) (base_table_entries ctx)
    (wrap64 (va_max_address ctx + 1)) = Some NotFound
  /\ IS_PAGE_ALIGNED 0 = true
  /\ (2 ^ 44) mod PAGE_SIZE = 0
  /\ 0 + 2 ^ 44 - 1 <= va_max_address ctx
  /\ change_mem_attributes ctx 0 (2 ^ 44) MT_RO = Some (ctx, 0).
Proof.
  cbv zeta. repeat split; try (vm_compute; reflexivity).
  vm_compute. discriminate.
Qed.

(** ** Validation of overlaps *)

Lemma check_overlaps_returns (l : list mmap_region) (pa va sz at0 : Z) :
  (exists r, r ∈ l /\ size r = 0) ->
  exists ret, check_overlaps l pa va sz at0 = Some ret
              /\ (ret = 0 \/ ret = - EPERM).
Proof.
  induction l as [| mm rest IH]; intros (r & Hin & Hr).
  - inversion Hin.
  - cbn [check_overlaps].
    destruct (Z.eqb_spec (size mm) 0) as [Hz | Hz]; [eauto |].
    assert (exists ret, check_overlaps rest pa va sz at0 = Some ret
                        /\ (ret = 0 \/ ret = - EPERM)) as Hrest.
    { apply IH. exists r. split; [| exact Hr].
      apply elem_of_cons in Hin as [-> | Hin]; [contradiction | exact Hin]. }
    repeat match goal with
           | |- context [if ?b then _ else _] => destruct b
           end; eauto.
Qed.

Lemma mmap_add_region_check_returns (ctx : xlat_ctx) (pa va sz at0 gr : Z) :
  zlookup (mmap ctx) (mmap_num ctx - 1) <> None ->
  exists ret, mmap_add_region_check ctx pa va sz at0 gr = Some ret.
Proof.
  intros Hl. unfold mmap_add_region_check.
  repeat match goal with
         | |- context [if ?b then _ else _] => destruct b; [eauto |]
         end.
  destruct (zlookup (mmap ctx) (mmap_num ctx - 1)) as [last |] eqn:E;
    [| contradiction].
  destruct (Z.eqb_spec (size last) 0) as [Hz | Hz]; cbn [negb]; [| eauto].
  destruct (check_overlaps_returns (mmap ctx) pa va sz at0) as (ret & -> & _);
    [| eauto].
  exists last. split; [| exact Hz].
  unfold zlookup in E. destruct (mmap_num ctx - 1 <? 0); [discriminate |].
  eapply list_elem_of_lookup_2. exact E.
Qed.

(** One step of the overlap loop against a present region that does not
    wrap: the loop goes on exactly in the two allowed configurations. *)
Lemma check_overlaps_step (mm : mmap_region) (rest : list mmap_region)
    (pa va sz at0 gr : Z) :
  size mm <> 0 ->
  base_va mm <= region_end_va mm ->
  va <= wrap64 (va + sz - 1) ->
  (overlap_allowed (MkRegion pa va sz at0 gr) mm
   /\ check_overlaps (mm :: rest) pa va sz at0
      = check_overlaps rest pa va sz at0)
  \/ (~ overlap_allowed (MkRegion pa va sz at0 gr) mm
      /\ check_overlaps (mm :: rest) pa va sz at0 = Some (- EPERM)).
Proof.
  intros Hsz Hmm Hnew. cbn [check_overlaps].
  destruct (Z.eqb_spec (size mm) 0) as [| _]; [contradiction |].
  unfold overlap_allowed, va_contains, is_dynamic, same_offset, separated_va,
    separated_pa, region_end_va, region_end_pa in *.
  cbn [base_pa base_va size attr granularity].
  set (e := wrap64 (va + sz - 1)) in *.
  set (me := wrap64 (base_va mm + size mm - 1)) in *.
  set (ep := wrap64 (pa + sz - 1)).
  set (mep := wrap64 (base_pa mm + size mm - 1)).
  set (o1 := wrap64 (base_va mm - base_pa mm)).
  set (o2 := wrap64 (va - pa)).
  set (d1 := Z.land at0 MT_DYNAMIC).
  set (d2 := Z.land (attr mm) MT_DYNAMIC).
  rewrite !Z.geb_leb, !Z.gtb_ltb.
  destruct (((base_va mm <=? va) && (e <=? me)) || ((va <=? base_va mm) && (me <=? e))) eqn:Hf.
  - assert ((base_va mm <= va /\ e <= me) \/ (va <= base_va mm /\ me <= e)) as Hf'.
    { apply orb_true_iff in Hf. rewrite !andb_true_iff, !Z.leb_le in Hf. exact Hf. }
    clear Hf.
    destruct (Z.eqb_spec d1 0) as [D1 | D1]; cbn [negb orb].
    2:{ right. split; [| reflexivity]. intros [H | H]; [tauto | lia]. }
    destruct (Z.eqb_spec d2 0) as [D2 | D2]; cbn [negb orb].
    2:{ right. split; [| reflexivity]. intros [H | H]; [tauto | lia]. }
    destruct (Z.eqb_spec o1 o2) as [O | O]; cbn [negb].
    2:{ right. split; [| reflexivity]. intros [H | H]; [| lia].
        destruct H as (_ & _ & _ & H & _). congruence. }
    destruct (Z.eqb_spec va (base_va mm)) as [V | V];
      destruct (Z.eqb_spec sz (size mm)) as [S | S]; cbn [andb];
      first [ right; split; [| reflexivity]; intros [H | H]; [tauto | lia]
            | left; split; [| reflexivity]; left;
              repeat split; first [tauto | lia | congruence] ].
  - assert (~ ((base_va mm <= va /\ e <= me) \/ (va <= base_va mm /\ me <= e))) as Hf'.
    { intros H. rewrite <- !Z.leb_le, <- !andb_true_iff, <- orb_true_iff in H. congruence. }
    clear Hf.
    destruct (Z.ltb_spec ep (base_pa mm)), (Z.ltb_spec mep pa),
      (Z.ltb_spec e (base_va mm)), (Z.ltb_spec me va);
    cbn [andb orb negb];
    first [ left; split; [| reflexivity]; right; lia
          | right; split; [| reflexivity]; intros [Hx | Hx]; [tauto | lia] ].
Qed.

Lemma check_overlaps_spec (l : list mmap_region) (pa va sz at0 gr ret : Z) :
  Forall (fun r => base_va r <= region_end_va r) (active_regions l) ->
  va <= wrap64 (va + sz - 1) ->
  check_overlaps l pa va sz at0 = Some ret ->
  (ret = 0 \/ ret = - EPERM)
  /\ (ret = 0 <->
      Forall (overlap_allowed (MkRegion pa va sz at0 gr)) (active_regions l)).
Proof.
  intros Hwf Hnew. revert Hwf.
  induction l as [| mm rest IH]; intros Hwf Hret.
  - discriminate Hret.
  - destruct (Z.eq_dec (size mm) 0) as [Hz | Hz].
    + cbn [check_overlaps active_regions] in *.
      apply Z.eqb_eq in Hz. rewrite Hz in *.
      injection Hret as <-. split; [left; reflexivity |].
      split; [constructor | reflexivity].
    + assert (active_regions (mm :: rest) = mm :: active_regions rest) as Ha.
      { cbn [active_regions]. apply Z.eqb_neq in Hz. rewrite Hz. reflexivity. }
      rewrite Ha in *. inversion Hwf as [| ? ? Hmm Hwf']; subst.
      destruct (check_overlaps_step mm rest pa va sz at0 gr Hz Hmm Hnew)
        as [[Hok Heq] | [Hno Heq]]; rewrite Heq in Hret.
      * destruct (IH Hwf' Hret) as [Hr Hiff]. split; [exact Hr |].
        rewrite Hiff. split; [intros H; constructor; assumption |].
        intros H. inversion H; assumption.
      * injection Hret as <-. split; [right; reflexivity |].
        split; [intros H; discriminate H |].
        intros H. inversion H; contradiction.
Qed.

(** C5: once alignment, range and capacity are accepted, validation returns
    success or -EPERM, and it returns success exactly when every region of
    the list stands to the new one in one of the two allowed configurations:
    full VA containment between two static regions of equal offset that are
    not the same (base_va, size) pair, or complete separation in VA and in
    PA. *)
Theorem check_accepts_only_allowed_overlaps
    (ctx : xlat_ctx) (pa va sz at0 gr ret : Z) :
  Forall (fun r => base_va r <= region_end_va r) (active_regions (mmap ctx)) ->
  mmap_add_region_check ctx pa va sz at0 gr = Some ret ->
  ret <> - EINVAL -> ret <> - ERANGE -> ret <> - ENOMEM ->
  (ret = 0 \/ ret = - EPERM)
  /\ (ret = 0 <->
      Forall (overlap_allowed (MkRegion pa va sz at0 gr))
        (active_regions (mmap ctx))).
Proof.
  intros Hwf Hret H1 H2 H3. unfold mmap_add_region_check in Hret.
  destruct (negb (IS_PAGE_ALIGNED pa) || negb (IS_PAGE_ALIGNED va)
            || negb (IS_PAGE_ALIGNED sz) || negb (IS_PAGE_ALIGNED gr));
    [injection Hret as <-; contradiction |].
  destruct ((pa >? wrap64 (pa + sz - 1)) || (va >? wrap64 (va + sz - 1)))
    eqn:Hov; [injection Hret as <-; contradiction |].
  destruct (wrap64 (va + sz - 1) >? va_max_address ctx);
    [injection Hret as <-; contradiction |].
  destruct (wrap64 (pa + sz - 1) >? pa_max_address ctx);
    [injection Hret as <-; contradiction |].
  destruct (zlookup (mmap ctx) (mmap_num ctx - 1)) as [last |];
    [| discriminate Hret].
  destruct (negb (size last =? 0)); [injection Hret as <-; contradiction |].
  apply orb_false_iff in Hov as [_ Hov]. rewrite Z.gtb_ltb in Hov.
  apply Z.ltb_ge in Hov.
  eapply check_overlaps_spec; eassumption.
Qed.

Lemma check_accepts_only_allowed_overlaps_witness :
  Forall (overlap_allowed (MkRegion 0x2000 0x2000 4096 MT_RW_DATA 4096))
    (active_regions
       (mmap (set_mmap (sample_ctx 1 false)
                (<[0%nat := MkRegion 0 0 4096 MT_RW_DATA 4096]>
                   (replicate 9 sentinel))))).
Proof.
  assert (Forall (fun r => base_va r <= region_end_va r)
            (active_regions
               (mmap (set_mmap (sample_ctx 1 false)
                        (<[0%nat := MkRegion 0 0 4096 MT_RW_DATA 4096]>
                           (replicate 9 sentinel)))))) as Hwf.
  { change (Forall (fun r => base_va r <= region_end_va r)
              [MkRegion 0 0 4096 MT_RW_DATA 4096]).
    repeat constructor. vm_compute. discriminate. }
  refine (proj1 (proj2 (check_accepts_only_allowed_overlaps _
                   0x2000 0x2000 4096 MT_RW_DATA 4096 0 Hwf _ _ _ _)) _);
    vm_compute; first [reflexivity | discriminate].
Defined.

(** The dynamic add hands the status of a failed validation to its caller
    and leaves the context as it was. *)
Lemma add_dynamic_returns_check_status
    (ctx : xlat_ctx) (mm : mmap_region) (ret : Z) :
  size mm <> 0 ->
  mmap_add_region_check ctx (base_pa mm) (base_va mm) (size mm)
    (Z.lor (attr mm) MT_DYNAMIC) (granularity mm) = Some ret ->
  ret <> 0 ->
  mmap_add_dynamic_region_ctx ctx mm = Some (ctx, ret).
Proof.
  intros Hsz Hc Hr. unfold mmap_add_dynamic_region_ctx.
  apply Z.eqb_neq in Hsz, Hr. rewrite Hsz, Hc, Hr. reflexivity.
Qed.

(** ** Order of the region list *)

Lemma active_regions_app_nonzero (p s : list mmap_region) :
  Forall (fun x => size x <> 0) p ->
  active_regions (p ++ s) = p ++ active_regions s.
Proof.
  induction 1 as [| x p Hx _ IH]; [reflexivity |].
  cbn [app active_regions]. apply Z.eqb_neq in Hx. rewrite Hx, IH. reflexivity.
Qed.

Lemma active_regions_app_zero (p s : list mmap_region) :
  Exists (fun x => size x = 0) p ->
  active_regions (p ++ s) = active_regions p.
Proof.
  induction p as [| x p IH]; intros H; [inversion H |].
  cbn [app active_regions]. destruct (Z.eqb_spec (size x) 0) as [| Hx];
    [reflexivity |].
  rewrite IH; [reflexivity |]. inversion H; subst; [contradiction | assumption].
Qed.

Lemma Exists_take_lookup (l : list mmap_region) (n j : nat) (x : mmap_region) :
  (j < n)%nat -> l !! j = Some x -> size x = 0 ->
  Exists (fun x => size x = 0) (take n l).
Proof.
  intros Hj Hl Hx. apply Exists_exists. exists x. split; [| exact Hx].
  eapply list_elem_of_lookup_2.
  rewrite lookup_take_lt by exact Hj. exact Hl.
Qed.

Lemma active_regions_take (l s : list mmap_region) (n : nat) :
  Exists (fun x => size x = 0) (take n l) ->
  active_regions (take n l ++ s) = active_regions l.
Proof.
  intros H. rewrite active_regions_app_zero by exact H.
  rewrite <- (take_drop n l) at 2.
  rewrite active_regions_app_zero by exact H. reflexivity.
Qed.

Lemma sorted_regions_cons (a b : mmap_region) (l : list mmap_region) :
  sorted_regions (a :: b :: l) = region_leb a b && sorted_regions (b :: l).
Proof. reflexivity. Qed.

Lemma sorted_regions_app_adjacent (p s : list mmap_region) (z y : mmap_region) :
  sorted_regions (p ++ y :: s) = true -> last p = Some z ->
  region_leb z y = true.
Proof.
  induction p as [| a p IH]; intros Hs Hl; [discriminate Hl |].
  destruct p as [| b p].
  - cbn in Hl. injection Hl as ->. cbn [app] in Hs.
    rewrite sorted_regions_cons in Hs. apply andb_true_iff in Hs. tauto.
  - change ((a :: b :: p) ++ y :: s) with (a :: b :: (p ++ y :: s)) in Hs.
    rewrite sorted_regions_cons in Hs. apply andb_true_iff in Hs as [_ Hs].
    apply IH; [exact Hs |]. exact Hl.
Qed.

Lemma sorted_regions_insert (p s : list mmap_region) (new : mmap_region) :
  sorted_regions (p ++ s) = true ->
  (forall z, last p = Some z -> region_leb z new = true) ->
  (forall y, head s = Some y -> region_leb new y = true) ->
  sorted_regions (p ++ new :: s) = true.
Proof.
  induction p as [| a p IH]; intros Hs Hp Hn.
  - cbn [app] in *. destruct s as [| y s]; [reflexivity |].
    rewrite sorted_regions_cons, Hs, (Hn y eq_refl). reflexivity.
  - destruct p as [| b p].
    + cbn [app] in *. rewrite sorted_regions_cons.
      rewrite (Hp a eq_refl). cbn [andb].
      destruct s as [| y s]; [reflexivity |].
      rewrite sorted_regions_cons in *. apply andb_true_iff in Hs as [_ Hs].
      rewrite (Hn y eq_refl), Hs. reflexivity.
    + change ((a :: b :: p) ++ new :: s) with (a :: b :: (p ++ new :: s)).
      change ((a :: b :: p) ++ s) with (a :: b :: (p ++ s)) in Hs.
      rewrite sorted_regions_cons in *. apply andb_true_iff in Hs as [Hab Hs].
      rewrite Hab. cbn [andb]. apply IH; [exact Hs | | exact Hn].
      intros z Hz. apply Hp. exact Hz.
Qed.

Lemma skip_lower_end_spec (l : list mmap_region) (e : Z) (i0 i : nat) :
  skip_lower_end l e i0 = Some i ->
  exists k c, i = (i0 + k)%nat /\ l !! k = Some c
    /\ Forall (fun x => region_end_va x < e /\ size x <> 0) (take k l)
    /\ ~ (region_end_va c < e /\ size c <> 0).
Proof.
  revert i0. induction l as [| x l IH]; intros i0 H; [discriminate H |].
  cbn [skip_lower_end] in H.
  fold (region_end_va x) in H.
  destruct (Z.ltb_spec (region_end_va x) e) as [Hlt | Hge];
    destruct (Z.eqb_spec (size x) 0) as [Hz | Hnz]; cbn [andb negb] in H.
  2:{ destruct (IH _ H) as (k & c & -> & Hc & Hf & Hn).
      exists (S k), c. (split; [lia |]); (split; [exact Hc |]); (split; [| tauto]).
      cbn [take]. constructor; [split; assumption | exact Hf]. }
  all: injection H as <-; exists O, x;
    (split; [lia |]); (split; [reflexivity |]); (split; [constructor | lia]).
Qed.

Lemma skip_smaller_size_spec (l : list mmap_region) (e sz : Z) (i0 i : nat) :
  skip_smaller_size l e sz i0 = Some i ->
  exists k c, i = (i0 + k)%nat /\ l !! k = Some c
    /\ Forall (fun x => region_end_va x = e /\ size x < sz) (take k l)
    /\ ~ (region_end_va c = e /\ size c < sz).
Proof.
  revert i0. induction l as [| x l IH]; intros i0 H; [discriminate H |].
  cbn [skip_smaller_size] in H.
  fold (region_end_va x) in H.
  destruct (Z.eqb_spec (region_end_va x) e) as [He | Hne];
    destruct (Z.ltb_spec (size x) sz) as [Hlt | Hge]; cbn [andb] in H.
  1:{ destruct (IH _ H) as (k & c & -> & Hc & Hf & Hn).
      exists (S k), c. (split; [lia |]); (split; [exact Hc |]); (split; [| tauto]).
      cbn [take]. constructor; [split; assumption | exact Hf]. }
  all: injection H as <-; exists O, x;
    (split; [lia |]); (split; [reflexivity |]); (split; [constructor | lia]).
Qed.

Lemma region_leb_before (x new : mmap_region) :
  (region_end_va x < region_end_va new /\ size x <> 0)
  \/ (region_end_va x = region_end_va new /\ size x < size new) ->
  region_leb x new = true.
Proof.
  unfold region_leb. intros [[H _] | [H1 H2]].
  - apply orb_true_iff. left. apply Z.ltb_lt. exact H.
  - apply orb_true_iff. right. apply andb_true_iff.
    split; [apply Z.eqb_eq; exact H1 | apply Z.leb_le; lia].
Qed.

Lemma region_leb_after (new y : mmap_region) :
  region_end_va new <= region_end_va y ->
  ~ (region_end_va y = region_end_va new /\ size y < size new) ->
  region_leb new y = true.
Proof.
  unfold region_leb. intros H1 H2.
  destruct (Z.ltb_spec (region_end_va new) (region_end_va y)); [reflexivity |].
  cbn [orb]. apply andb_true_iff.
  split; [apply Z.eqb_eq; lia | apply Z.leb_le; lia].
Qed.

Lemma region_leb_end (a b : mmap_region) :
  region_leb a b = true -> region_end_va a <= region_end_va b.
Proof.
  unfold region_leb. intros H. apply orb_true_iff in H as [H | H].
  - apply Z.ltb_lt in H. lia.
  - apply andb_true_iff in H as [H _]. apply Z.eqb_eq in H. lia.
Qed.

(** The insertion of the add functions keeps the order of the list. *)
Lemma insert_region_sorted (ctx : xlat_ctx) (new lastr : mmap_region)
    (cursor : nat) (l' : list mmap_region) :
  size new <> 0 ->
  zlookup (mmap ctx) (mmap_num ctx - 1) = Some lastr -> size lastr = 0 ->
  insert_region ctx new = Some (cursor, l') ->
  sorted_regions (active_regions (mmap ctx)) = true ->
  sorted_regions (active_regions l') = true.
Proof.
  intros Hnew Hlast Hlast0 Hins Hsorted.
  unfold insert_region in Hins. fold (region_end_va new) in Hins.
  destruct (Z.ltb_spec (mmap_num ctx) 0) as [| Hnum]; [discriminate |].
  set (l := mmap ctx) in *. set (num := Z.to_nat (mmap_num ctx)) in *.
  unfold find_cursor in Hins.
  destruct (skip_lower_end l (region_end_va new) 0) as [k1 |] eqn:E1;
    [| discriminate].
  destruct (skip_smaller_size (drop k1 l) (region_end_va new) (size new) k1)
    as [c |] eqn:E2; [| discriminate].
  destruct (memmove_up l c num) as [l1 |] eqn:E3; [| discriminate].
  destruct (l1 !! num) as [last1 |]; [| discriminate].
  destruct (size last1 =? 0); [| discriminate].
  injection Hins as <- <-.
  apply skip_lower_end_spec in E1 as (k & c1 & Hk & Hc1 & Hf1 & Hn1).
  cbn in Hk. subst k1.
  apply skip_smaller_size_spec in E2 as (k2 & y & -> & Hy & Hf2 & Hn2).
  rewrite lookup_drop in Hy.
  unfold memmove_up in E3.
  destruct ((k + k2 <=? num)%nat && (num <? length l)%nat) eqn:Eb;
    [| discriminate].
  injection E3 as <-.
  apply andb_true_iff in Eb as [Hcn Hnl].
  apply Nat.leb_le in Hcn. apply Nat.ltb_lt in Hnl.
  set (c := (k + k2)%nat) in *.
  set (R := take (num - c) (drop c l) ++ drop (S num) l).
  assert (length (take c l) = c) as Hlen by (apply length_take_le; lia).
  assert (<[c := new]> (take (S c) l ++ R) = take c l ++ new :: R) as ->.
  { rewrite (take_S_r l c y Hy), <- app_assoc.
    rewrite insert_app_r_alt by lia. rewrite Hlen, Nat.sub_diag. reflexivity. }
  assert (take c l = take k l ++ take k2 (drop k l)) as Hsplit.
  { rewrite <- (take_drop k l) at 1. unfold c.
    rewrite take_app_add' by (symmetry; apply length_take_le; lia). reflexivity. }
  assert (Forall (fun x => region_leb x new = true) (take c l)) as Hbefore.
  { rewrite Hsplit. apply Forall_app. split.
    - eapply Forall_impl; [exact Hf1 |]. intros x Hx.
      apply region_leb_before. left. exact Hx.
    - eapply Forall_impl; [exact Hf2 |]. intros x Hx.
      apply region_leb_before. right. exact Hx. }
  destruct (decide (Exists (fun x => size x = 0) (take c l))) as [Hex | Hnex].
  - rewrite active_regions_app_zero by exact Hex.
    rewrite <- (take_drop c l), active_regions_app_zero in Hsorted
      by exact Hex.
    exact Hsorted.
  - apply not_Exists_Forall in Hnex; [| intros x; apply _].
    assert (Forall (fun x => size x <> 0) (take c l)) as Hnz
      by (eapply Forall_impl; [exact Hnex | intros x Hx; exact Hx]).
    rewrite active_regions_app_nonzero by exact Hnz.
    rewrite <- (take_drop c l), active_regions_app_nonzero in Hsorted
      by exact Hnz.
    unfold zlookup in Hlast.
    destruct (Z.ltb_spec (mmap_num ctx - 1) 0) as [| Hn1']; [discriminate |].
    replace (Z.to_nat (mmap_num ctx - 1)) with (num - 1)%nat in Hlast
      by (unfold num; lia).
    assert (1 <= num)%nat as Hnum1 by (unfold num; lia).
    assert (c <= num - 1)%nat as Hc.
    { destruct (Nat.le_gt_cases c (num - 1)) as [| Hgt]; [assumption |].
      exfalso.
      assert (take c l !! (num - 1)%nat = Some lastr) as Hin
        by (rewrite lookup_take_lt by lia; exact Hlast).
      eapply Forall_lookup_1 in Hin; [| exact Hnz]. contradiction. }
    assert (active_regions (new :: R) = new :: active_regions (drop c l))
      as ->.
    { cbn [active_regions]. apply Z.eqb_neq in Hnew. rewrite Hnew. f_equal.
      unfold R. apply active_regions_take.
      apply (Exists_take_lookup _ _ (num - 1 - c) lastr);
        [lia | | exact Hlast0].
      rewrite lookup_drop.
      replace (c + (num - 1 - c))%nat with (num - 1)%nat by lia.
      exact Hlast. }
    apply sorted_regions_insert; [exact Hsorted | |].
    + intros z Hz. apply last_Some_elem_of in Hz.
      eapply Forall_forall in Hbefore; [exact Hbefore | exact Hz].
    + intros y' Hy'. rewrite (drop_S l y c Hy) in Hy', Hsorted.
      cbn [active_regions] in Hy', Hsorted.
      destruct (Z.eqb_spec (size y) 0) as [| Hynz]; [discriminate Hy' |].
      cbn [head] in Hy'. injection Hy' as <-.
      apply region_leb_after; [| exact Hn2].
      destruct k2 as [| k2'].
      * unfold c in Hy. rewrite Nat.add_0_r in Hy.
        rewrite Hc1 in Hy. injection Hy as ->. lia.
      * assert (exists z, last (take c l) = Some z
                          /\ region_end_va z = region_end_va new)
          as (z & Hz & Hze).
        { rewrite Hsplit.
          destruct (last (take (S k2') (drop k l))) as [z |] eqn:El.
          - exists z. split; [rewrite last_app, El; reflexivity |].
            apply last_Some_elem_of in El.
            eapply Forall_forall in Hf2; [| exact El]. tauto.
          - apply last_None in El.
            apply (f_equal length) in El. rewrite length_take_le in El.
            + discriminate El.
            + rewrite length_drop. unfold c in *. lia. }
        pose proof (sorted_regions_app_adjacent _ _ z y Hsorted Hz) as Hzy.
        apply region_leb_end in Hzy. lia.
Qed.

(** ** What the builder and the unmapper leave alone *)

Lemma store_frame (c c' : xlat_ctx) (t i v : Z) :
  store c t i v = Some c' -> frame c' = frame c.
Proof.
  unfold store. intros H.
  repeat match type of H with
         | context [match ?x with _ => _ end] => destruct x; try discriminate H
         end; injection H as <-; reflexivity.
Qed.

Lemma inc_regions_count_frame (c c' : xlat_ctx) (t : Z) :
  xlat_table_inc_regions_count c t = Some c' -> frame c' = frame c.
Proof.
  unfold xlat_table_inc_regions_count. intros H.
  repeat match type of H with
         | context [match ?x with _ => _ end] => destruct x; try discriminate H
         end; injection H as <-; reflexivity.
Qed.

Lemma dec_regions_count_frame (c c' : xlat_ctx) (t : Z) :
  xlat_table_dec_regions_count c t = Some c' -> frame c' = frame c.
Proof.
  unfold xlat_table_dec_regions_count. intros H.
  repeat match type of H with
         | context [match ?x with _ => _ end] => destruct x; try discriminate H
         end; injection H as <-; reflexivity.
Qed.

(** Case analysis on the scrutinee of the outermost [match] or [if] of a
    hypothesis that says a computation returned. *)
Ltac case_step H :=
  match type of H with
  | (match ?x with _ => _ end) = Some _ =>
      let E := fresh "E" in destruct x eqn:E; try discriminate H
  | (if ?x then _ else _) = Some _ =>
      let E := fresh "E" in destruct x eqn:E; try discriminate H
  | (let (_, _) := ?x in _) = Some _ =>
      let E := fresh "E" in destruct x eqn:E
  end.

Lemma map_region_loop_frame
    (action : mmap_region -> Z -> Z -> Z -> Z -> option action_t)
    (recurse : xlat_ctx -> Z -> Z -> option (xlat_ctx * Z))
    (mm : mmap_region) (tb level : Z) (n : nat) :
  (forall c va sub c' r, recurse c va sub = Some (c', r) -> frame c' = frame c) ->
  forall ctx idx va c' r,
    map_region_loop action recurse mm tb level n ctx idx va = Some (c', r) ->
    frame c' = frame ctx.
Proof.
  intros Hrec. induction n as [| n IH]; intros ctx idx va c' r H.
  - cbn in H. injection H as <- _. reflexivity.
  - cbn [map_region_loop] in H. cbv zeta in H.
    repeat case_step H;
      repeat match goal with
        | E : store _ _ _ _ = Some _ |- _ => apply store_frame in E
        | E : recurse _ _ _ = Some _ |- _ => apply Hrec in E
        | E : map_region_loop _ _ _ _ _ _ _ _ _ = Some _ |- _ => apply IH in E
        | E : Some _ = Some _ |- _ => injection E as <- <-
        end;
      try (injection H as <- <-); try (apply IH in H); congruence.
Qed.

Lemma map_region_at_frame
    (action : mmap_region -> Z -> Z -> Z -> Z -> option action_t)
    (d : nat) :
  forall ctx mm tbv tb entries c' r,
    map_region_at action d ctx mm tbv tb entries = Some (c', r) ->
    frame c' = frame ctx.
Proof.
  induction d as [| d IH]; intros ctx mm tbv tb entries c' r H;
    cbn [map_region_at] in H; cbv zeta in H;
    repeat case_step H.
  all: assert (frame x = frame ctx) as Hx
    by (case_step E2;
        [eapply inc_regions_count_frame; exact E2
        | injection E2 as <-; reflexivity]).
  all: apply map_region_loop_frame in H; [congruence |].
  all: intros c va sub c2 r2 Hr; first [discriminate Hr | eapply IH; exact Hr].
Qed.

Lemma map_region_gen_frame
    (action : mmap_region -> Z -> Z -> Z -> Z -> option action_t)
    (ctx : xlat_ctx) (mm : mmap_region) (tbv tb entries level : Z)
    (c' : xlat_ctx) (r : Z) :
  map_region_gen action ctx mm tbv tb entries level = Some (c', r) ->
  frame c' = frame ctx.
Proof.
  unfold map_region_gen. intros H. case_step H.
  eapply map_region_at_frame. exact H.
Qed.

Lemma unmap_region_loop_frame
    (recurse : xlat_ctx -> Z -> Z -> option xlat_ctx)
    (mm : mmap_region) (tb level : Z) (n : nat) :
  (forall c va sub c', recurse c va sub = Some c' -> frame c' = frame c) ->
  forall ctx idx va c',
    unmap_region_loop recurse mm tb level n ctx idx va = Some c' ->
    frame c' = frame ctx.
Proof.
  intros Hrec. induction n as [| n IH]; intros ctx idx va c' H.
  - cbn in H. injection H as <-. reflexivity.
  - cbn [unmap_region_loop] in H. cbv zeta in H.
    repeat case_step H;
      repeat match goal with
        | E : store _ _ _ _ = Some _ |- _ => apply store_frame in E
        | E : recurse _ _ _ = Some _ |- _ => apply Hrec in E
        end;
      try (injection H as <-); try (apply IH in H); congruence.
Qed.

Lemma unmap_region_at_frame (d : nat) :
  forall ctx mm tbv tb entries c',
    unmap_region_at d ctx mm tbv tb entries = Some c' ->
    frame c' = frame ctx.
Proof.
  induction d as [| d IH]; intros ctx mm tbv tb entries c' H;
    cbn [unmap_region_at] in H; cbv zeta in H;
    repeat case_step H.
  all: try (apply dec_regions_count_frame in H).
  all: try (injection H as <-).
  all: match goal with
       | E : unmap_region_loop _ _ _ _ _ _ _ _ = Some _ |- _ =>
           apply unmap_region_loop_frame in E; [congruence |]
       end.
  all: intros c va sub c2 Hr; first [discriminate Hr | eapply IH; exact Hr].
Qed.

Lemma unmap_region_frame (ctx : xlat_ctx) (mm : mmap_region)
    (tbv tb entries level : Z) (c' : xlat_ctx) :
  xlat_tables_unmap_region ctx mm tbv tb entries level = Some c' ->
  frame c' = frame ctx.
Proof.
  unfold xlat_tables_unmap_region. intros H. case_step H.
  eapply unmap_region_at_frame. exact H.
Qed.

Lemma frame_mmap (c c' : xlat_ctx) : frame c' = frame c -> mmap c' = mmap c.
Proof. unfold frame. intros H. congruence. Qed.

Lemma check_success_has_room (ctx : xlat_ctx) (pa va sz at0 gr : Z) :
  mmap_add_region_check ctx pa va sz at0 gr = Some 0 ->
  exists lastr, zlookup (mmap ctx) (mmap_num ctx - 1) = Some lastr
                /\ size lastr = 0.
Proof.
  unfold mmap_add_region_check. intros H.
  repeat (case_step H;
          try (exfalso; cbv [EINVAL ERANGE ENOMEM Z.opp] in H;
               discriminate H)).
  match goal with
  | E : negb (size _ =? 0) = false |- _ =>
      apply negb_false_iff, Z.eqb_eq in E; eauto
  end.
Qed.

(** C6: from a region list that is sorted by ascending end VA and, for
    equal end VA, by ascending size, every successful add, static or
    dynamic, leaves the list sorted in the same way. *)
Theorem add_keeps_region_list_sorted
    (ctx ctx' : xlat_ctx) (mm : mmap_region) :
  mmap_sorted ctx ->
  (mmap_add_region_ctx ctx mm = Some ctx' -> mmap_sorted ctx')
  /\ (mmap_add_dynamic_region_ctx ctx mm = Some (ctx', 0) ->
      mmap_sorted ctx').
Proof.
  unfold mmap_sorted. intros Hs. split; intros H.
  - unfold mmap_add_region_ctx in H.
    destruct (Z.eqb_spec (size mm) 0) as [| Hsz];
      [injection H as <-; exact Hs |].
    repeat case_step H. injection H as <-.
    apply negb_false_iff, Z.eqb_eq in E1. subst z.
    destruct (check_success_has_room _ _ _ _ _ _ E0) as (lastr & Hl & Hl0).
    cbn [update_max set_max set_mmap mmap].
    eapply insert_region_sorted; eassumption.
  - unfold mmap_add_dynamic_region_ctx in H.
    destruct (Z.eqb_spec (size mm) 0) as [| Hsz];
      [injection H as <- ; exact Hs |].
    case_step H. case_step H; [injection H as _ H'; subst z; discriminate E0 |].
    apply negb_false_iff, Z.eqb_eq in E0. subst z.
    destruct (check_success_has_room _ _ _ _ _ _ E) as (lastr & Hl & Hl0).
    case_step H. case_step H.
    assert (sorted_regions (active_regions l) = true) as Hl'
      by (eapply (insert_region_sorted ctx _ lastr n l);
          [| exact Hl | exact Hl0 | exact E0 | exact Hs]; exact Hsz).
    case_step H.
    + repeat case_step H.
      all: try (injection H as _ H'; discriminate H').
      injection H as <-.
      apply map_region_gen_frame, frame_mmap in E3.
      cbn [update_max set_max mmap]. rewrite E3. exact Hl'.
    + injection H as <-. exact Hl'.
Qed.

Lemma add_keeps_region_list_sorted_witness :
  (active_regions (mmap sample_static_ctx)
   = [sample_page 0; MkRegion 0x3000 0x3000 0x2000 MT_RW_DATA 4096]
   /\ exists c,
        mmap_add_region_ctx sample_static_ctx (sample_page 0x4000) = Some c
        /\ active_regions (mmap c)
           = [sample_page 0; sample_page 0x4000;
              MkRegion 0x3000 0x3000 0x2000 MT_RW_DATA 4096]
        /\ mmap_sorted c)
  /\ (initialized sample_dynamic_ctx = true
      /\ active_regions (mmap sample_dynamic_ctx)
         = [sample_page 0; sample_page 0x4000]
      /\ exists c,
           mmap_add_dynamic_region_ctx sample_dynamic_ctx
             (sample_page 0x2000) = Some (c, 0)
           /\ active_regions (mmap c)
              = [sample_page 0;
                 MkRegion 0x2000 0x2000 4096
                   (Z.lor MT_RW_DATA MT_DYNAMIC) 4096;
                 sample_page 0x4000]
           /\ mmap_sorted c).
Proof.
  split; repeat (split; [vm_compute; reflexivity |]).
  - let r := eval vm_compute in
               (mmap_add_region_ctx sample_static_ctx (sample_page 0x4000)) in
    match r with
    | Some ?c =>
        exists c; split; [vm_compute; reflexivity |];
        split; [vm_compute; reflexivity |];
        refine (proj1 (add_keeps_region_list_sorted sample_static_ctx c
                         (sample_page 0x4000) _) _);
        vm_compute; reflexivity
    end.
  - let r := eval vm_compute in
               (mmap_add_dynamic_region_ctx sample_dynamic_ctx
                  (sample_page 0x2000)) in
    match r with
    | Some (?c, _) =>
        exists c; split; [vm_compute; reflexivity |];
        split; [vm_compute; reflexivity |];
        refine (proj2 (add_keeps_region_list_sorted sample_dynamic_ctx c
                         (sample_page 0x2000) _) _);
        vm_compute; reflexivity
    end.
Defined.

(** ** The overlap test of the builder *)

Lemma block_size_divides_2_64 (level : Z) :
  0 <= level <= 3 -> (XLAT_BLOCK_SIZE level | 2 ^ 64).
Proof.
  intros H. destruct (XLAT_BLOCK_SIZE_cases level H)
    as [[_ ->] | [[_ ->] | [[_ ->] | [_ ->]]]].
  - exists (2 ^ 25). reflexivity.
  - exists (2 ^ 34). reflexivity.
  - exists (2 ^ 43). reflexivity.
  - exists (2 ^ 52). reflexivity.
Qed.

Lemma aligned_room (level va : Z) :
  0 <= level <= 3 -> 0 <= va < 2 ^ 64 -> (XLAT_BLOCK_SIZE level | va) ->
  va + XLAT_BLOCK_SIZE level <= 2 ^ 64.
Proof.
  intros Hl Hva Hd.
  pose proof (XLAT_BLOCK_SIZE_pos level Hl) as Hbs.
  assert (XLAT_BLOCK_SIZE level | 2 ^ 64 - va) as Hd'
    by (apply Z.divide_sub_r; [apply block_size_divides_2_64; exact Hl | exact Hd]).
  apply Z.divide_pos_le in Hd'; lia.
Qed.

Lemma block_size_next_level (level : Z) :
  0 <= level < 3 ->
  XLAT_BLOCK_SIZE level = XLAT_TABLE_ENTRIES * XLAT_BLOCK_SIZE (level + 1).
Proof.
  intros H.
  assert (level = 0 \/ level = 1 \/ level = 2) as [-> | [-> | ->]] by lia;
    reflexivity.
Qed.

Lemma land_lnot_block_mask (level x : Z) :
  0 <= level <= 3 ->
  Z.land x (Z.lnot (XLAT_BLOCK_MASK level))
  = XLAT_BLOCK_SIZE level * (x / XLAT_BLOCK_SIZE level).
Proof.
  intros Hl. pose proof (XLAT_ADDR_SHIFT_nonneg level Hl) as Hk.
  unfold XLAT_BLOCK_MASK. rewrite XLAT_BLOCK_SIZE_pow by exact Hl.
  rewrite <- Z.ldiff_land. change (2 ^ XLAT_ADDR_SHIFT level - 1)
    with (Z.pred (2 ^ XLAT_ADDR_SHIFT level)).
  rewrite <- Z.ones_equiv, Z.ldiff_ones_r by lia.
  rewrite Z.shiftr_div_pow2, Z.shiftl_mul_pow2 by lia. lia.
Qed.

Section Agreement.

  Variables a1 a2 : mmap_region -> Z -> Z -> Z -> Z -> option action_t.
  Variable mm : mmap_region.

  Hypothesis Hagree :
    forall dt pa va level,
      entry_intersects_region mm va level = true ->
      a1 mm dt pa va level = a2 mm dt pa va level.
  Hypothesis Hbase : 0 <= base_va mm.
  Hypothesis Hsize : 0 < size mm.
  Hypothesis Hend : base_va mm + size mm <= 2 ^ 64.

Lemma visited_intersects (va level : Z) :
  0 <= level <= 3 -> entry_visited mm va level ->
  entry_intersects_region mm va level = true.
Proof.
  intros Hl (Hva & Hlo & Hd).
  pose proof (XLAT_BLOCK_SIZE_pos level Hl) as Hbs.
  pose proof (aligned_room level va Hl ltac:(lia) Hd) as Hroom.
  unfold entry_intersects_region. rewrite !wrap64_small by lia.
  apply andb_true_iff. split; [apply Z.leb_le | rewrite Z.geb_leb; apply Z.leb_le];
    lia.
Qed.

Lemma map_region_loop_agree
    (recurse1 recurse2 : xlat_ctx -> Z -> Z -> option (xlat_ctx * Z))
    (tb level : Z) :
  0 <= level <= 3 ->
  (forall c va sub, entry_visited mm va level ->
                    recurse1 c va sub = recurse2 c va sub) ->
  forall n ctx idx va,
    n = O \/ (entry_visited mm va level
              /\ va + Z.of_nat n * XLAT_BLOCK_SIZE level <= 2 ^ 64) ->
    map_region_loop a1 recurse1 mm tb level n ctx idx va
    = map_region_loop a2 recurse2 mm tb level n ctx idx va.
Proof.
  intros Hl Hrec.
  pose proof (XLAT_BLOCK_SIZE_pos level Hl) as Hbs.
  induction n as [| n IH]; intros ctx idx va Hinv; [reflexivity |].
  destruct Hinv as [| [Hv HJ]]; [discriminate |].
  assert (forall c,
             (if wrap64 (base_va mm + size mm - 1)
                 <=? wrap64 (va + XLAT_BLOCK_SIZE level)
              then Some (c, wrap64 (wrap64 (va + XLAT_BLOCK_SIZE level) - 1))
              else map_region_loop a1 recurse1 mm tb level n c (idx + 1)
                     (wrap64 (va + XLAT_BLOCK_SIZE level)))
             = (if wrap64 (base_va mm + size mm - 1)
                   <=? wrap64 (va + XLAT_BLOCK_SIZE level)
                then Some (c, wrap64 (wrap64 (va + XLAT_BLOCK_SIZE level) - 1))
                else map_region_loop a2 recurse2 mm tb level n c (idx + 1)
                       (wrap64 (va + XLAT_BLOCK_SIZE level)))) as Hcont.
  { intros c.
    destruct (Z.leb_spec (wrap64 (base_va mm + size mm - 1))
                (wrap64 (va + XLAT_BLOCK_SIZE level))) as [| Hlt];
      [reflexivity |].
    apply IH. destruct n as [| n']; [left; reflexivity | right].
    destruct Hv as (Hva & Hlo & Hd).
    rewrite wrap64_small in Hlt by lia.
    rewrite wrap64_small in * by lia.
    split; [| lia].
    repeat split; try lia.
    apply Z.divide_add_r; [exact Hd | apply Z.divide_refl]. }
  cbn [map_region_loop]. cbv zeta.
  destruct (load ctx tb idx) as [desc |]; [| reflexivity].
  rewrite (Hagree _ _ _ _ (visited_intersects va level Hl Hv)).
  destruct (a2 mm (Z.land desc DESC_MASK)
              (wrap64 (base_pa mm + va - base_va mm)) va level)
    as [[| | |] |]; try reflexivity.
  - apply Hcont.
  - destruct (xlat_desc _ _ _ _); [| reflexivity].
    destruct (store _ _ _ _); [| reflexivity]. apply Hcont.
  - destruct (xlat_table_get_empty ctx) as [sub |]; [| reflexivity].
    destruct (sub =? NULL); [reflexivity |].
    destruct (store _ _ _ _) as [c |]; [| reflexivity].
    rewrite (Hrec c va sub Hv).
    destruct (recurse2 c va sub) as [[c' e] |]; [| reflexivity].
    destruct (negb _); [reflexivity | apply Hcont].
  - rewrite (Hrec ctx va _ Hv).
    destruct (recurse2 ctx va _) as [[c' e] |]; [| reflexivity].
    destruct (negb _); [reflexivity | apply Hcont].
Qed.

Lemma first_index_visited (tbv entries level va0 idx0 : Z) :
  0 <= level <= 3 ->
  table_visited mm tbv entries level ->
  first_index mm tbv entries level = Some (va0, idx0) ->
  entry_visited mm va0 level
  /\ va0 + Z.of_nat (Z.to_nat (entries - idx0)) * XLAT_BLOCK_SIZE level
     <= 2 ^ 64.
Proof.
  intros Hl (Ht0 & Htd & Htend & Hint & Htlo & Hthi) H.
  pose proof (XLAT_BLOCK_SIZE_pos level Hl) as Hbs.
  pose proof (XLAT_ADDR_SHIFT_nonneg level Hl) as Hk.
  unfold first_index in H.
  destruct (Z.gtb_spec (base_va mm) tbv) as [Hgt | Hle].
  - rewrite land_lnot_block_mask in H by exact Hl.
    destruct Htd as (t & Ht).
    set (bs := XLAT_BLOCK_SIZE level) in *.
    set (q := base_va mm / bs) in *.
    assert (bs * q <= base_va mm < bs * q + bs) as Hq.
    { unfold q. pose proof (Z.mul_div_le (base_va mm) bs ltac:(lia)).
      pose proof (Z.mul_succ_div_gt (base_va mm) bs ltac:(lia)). lia. }
    assert (t <= q) as Htq by nia.
    assert (q < t + entries) as Hqe by nia.
    assert (Z.shiftr (wrap64 (bs * q - tbv)) (XLAT_ADDR_SHIFT level) = q - t)
      as Hidx.
    { rewrite wrap64_small by nia.
      rewrite Z.shiftr_div_pow2 by lia.
      rewrite <- XLAT_BLOCK_SIZE_pow by exact Hl. fold bs.
      replace (bs * q - tbv) with ((q - t) * bs) by lia.
      apply Z.div_mul. lia. }
    rewrite Hidx in H. rewrite to_int_small in H by lia.
    destruct (q - t <? entries); [| discriminate H].
    injection H as <- <-.
    split.
    + repeat split; try nia. exists q. lia.
    + rewrite Z2Nat.id by lia. nia.
  - injection H as <- <-.
    split.
    + repeat split; try lia. exact Htd.
    + destruct (Z.le_gt_cases 0 entries).
      * rewrite Z2Nat.id by lia. lia.
      * replace (Z.to_nat (entries - 0)) with O by lia. 
        pose proof (wrap64_range 0). lia.
Qed.

Lemma map_region_at_agree (d : nat) :
  (d <= 3)%nat ->
  forall ctx tbv tb entries,
    table_visited mm tbv entries (XLAT_TABLE_LEVEL_MAX - Z.of_nat d) ->
    map_region_at a1 d ctx mm tbv tb entries
    = map_region_at a2 d ctx mm tbv tb entries.
Proof.
  induction d as [| d IH]; intros Hd ctx tbv tb entries Ht.
  - cbn [map_region_at]. cbv zeta.
    destruct (negb _); [reflexivity |].
    destruct (first_index _ _ _ _) as [[va0 idx0] |] eqn:E; [| reflexivity].
    apply first_index_visited in E;
      [| unfold XLAT_TABLE_LEVEL_MAX; lia | exact Ht].
    destruct (if _ >? _ then _ else _) as [c1 |]; [| reflexivity].
    apply map_region_loop_agree;
      [unfold XLAT_TABLE_LEVEL_MAX; lia | reflexivity | right; exact E].
  - cbn [map_region_at]. cbv zeta.
    set (level := XLAT_TABLE_LEVEL_MAX - Z.of_nat (S d)) in *.
    assert (0 <= level < 3) as Hl
      by (unfold level, XLAT_TABLE_LEVEL_MAX; lia).
    destruct (negb _); [reflexivity |].
    destruct (first_index _ _ _ _) as [[va0 idx0] |] eqn:E; [| reflexivity].
    apply first_index_visited in E; [| lia | exact Ht].
    destruct (if _ >? _ then _ else _) as [c1 |]; [| reflexivity].
    apply map_region_loop_agree; [lia | | right; exact E].
    intros c va sub (Hva & Hlo & Hdiv).
    apply IH; [lia |].
    replace (XLAT_TABLE_LEVEL_MAX - Z.of_nat d) with (level + 1)
      by (unfold level; lia).
    pose proof (block_size_next_level level Hl) as Hnext.
    pose proof (aligned_room level va ltac:(lia) ltac:(lia) Hdiv) as Hroom.
    unfold table_visited. rewrite <- Hnext.
    repeat split; try lia.
    eapply Z.divide_trans; [| exact Hdiv].
    exists XLAT_TABLE_ENTRIES. rewrite Hnext. reflexivity.
Qed.

End Agreement.

Lemma action_agrees_on_intersecting (mm : mmap_region)
    (dt pa va level : Z) :
  entry_intersects_region mm va level = true ->
  xlat_tables_map_region_action mm dt pa va level
  = map_region_action_tight mm dt pa va level.
Proof.
  intros H. unfold xlat_tables_map_region_action, map_region_action_tight.
  rewrite H. unfold entry_intersects_region in H.
  apply andb_true_iff in H as [H _]. rewrite H. reflexivity.
Qed.

(** C4: for a validated region (inside the address space the base table
    spans), the disjunctive overlap test and the tight test (the entry
    intersects the region and is not contained in it) give the same action
    on every entry the loop of the builder reaches, so the builder produces
    the same tables, region counts and result as the reference builder. *)
Theorem builder_equals_tight_builder (ctx : xlat_ctx) (mm : mmap_region) :
  0 <= base_va mm -> 0 < size mm ->
  base_va mm + size mm
    <= base_table_entries ctx * XLAT_BLOCK_SIZE (base_level ctx) ->
  base_table_entries ctx * XLAT_BLOCK_SIZE (base_level ctx) <= 2 ^ 64 ->
  base_table_entries ctx < 2 ^ 31 ->
  (forall dt pa va level,
      0 <= level <= 3 -> entry_visited mm va level ->
      xlat_tables_map_region_action mm dt pa va level
      = map_region_action_tight mm dt pa va level)
  /\ xlat_tables_map_region ctx mm 0 (base_table_addr ctx)
       (base_table_entries ctx) (base_level ctx)
     = xlat_tables_map_region_tight ctx mm 0 (base_table_addr ctx)
         (base_table_entries ctx) (base_level ctx).
Proof.
  intros Hbase Hsize Hfit Hspace Hint.
  assert (base_va mm + size mm <= 2 ^ 64) as Hend by lia.
  split.
  - intros dt pa va level Hl Hv. apply action_agrees_on_intersecting.
    apply visited_intersects; assumption.
  - unfold xlat_tables_map_region, xlat_tables_map_region_tight,
      map_region_gen.
    destruct ((0 <=? base_level ctx) && (base_level ctx <=? XLAT_TABLE_LEVEL_MAX))
      eqn:Hlv; [| reflexivity].
    apply andb_true_iff in Hlv as [Hl0 Hl3].
    apply Z.leb_le in Hl0, Hl3. unfold XLAT_TABLE_LEVEL_MAX in *.
    apply map_region_at_agree; try assumption; try lia.
    + intros dt pa va level. apply action_agrees_on_intersecting.
    + rewrite Z2Nat.id by lia.
      replace (XLAT_TABLE_LEVEL_MAX - (3 - base_level ctx))
        with (base_level ctx) by (unfold XLAT_TABLE_LEVEL_MAX; lia).
      unfold table_visited. repeat split; try lia.
      apply Z.divide_0_r.
Qed.

Lemma builder_equals_tight_builder_witness :
  xlat_tables_map_region (sample_ctx 2 true)
    (MkRegion 0 0 4096 MT_RW_DATA 4096) 0 0x10000 4 1
  = xlat_tables_map_region_tight (sample_ctx 2 true)
      (MkRegion 0 0 4096 MT_RW_DATA 4096) 0 0x10000 4 1.
Proof.
  refine (proj2 (builder_equals_tight_builder (sample_ctx 2 true)
                   (MkRegion 0 0 4096 MT_RW_DATA 4096) _ _ _ _ _));
    vm_compute; first [reflexivity | discriminate].
Defined.

(** Away from the entries the loop reaches the two tests differ: the
    disjunction holds for every entry, also for one that shares no address
    with the region. *)
Lemma disjunctive_test_not_tight :
  let mm := MkRegion (2 ^ 30) (2 ^ 30) 4096 MT_RW_DATA 4096 in
  entry_intersects_region mm 0 1 = false
  /\ xlat_tables_map_region_action mm INVALID_DESC 0 0 1
     = Some ACTION_CREATE_NEW_TABLE
  /\ map_region_action_tight mm INVALID_DESC 0 0 1 = Some ACTION_NONE.
Proof. cbv zeta. repeat split; vm_compute; reflexivity. Qed.

(** ** Region counts after a failed dynamic add *)

(** C7: initialisation with an empty region list leaves every count exact.
    The dynamic add of one page at VA 0 then fails for lack of a second
    sub-table and leaves the first one linked with count 1 (the defect of
    the roll-back), and the next dynamic add, a 1 GiB block at VA 1 GiB,
    succeeds.  After this successful operation sub-table 0 has region count 1
    although no region of the list contributes a descriptor to it. *)
Theorem region_count_not_exact_after_add :
  exists c1 c2 c3,
    init_xlat_tables_ctx 3 (fun _ => Z.shiftl 1 54) (2 ^ 48 - 1)
      (sample_ctx 1 false) = Some c1
    /\ region_counts_exact c1 = true
    /\ mmap_add_dynamic_region_ctx c1 (MkRegion 0 0 4096 MT_RW_DATA 4096)
       = Some (c2, - ENOMEM)
    /\ mmap_add_dynamic_region_ctx c2
         (MkRegion (2 ^ 30) (2 ^ 30) (2 ^ 30) MT_RW_DATA (2 ^ 30))
       = Some (c3, 0)
    /\ zlookup (tables_mapped_regions c3) 0 = Some 1
    /\ contributing_regions c3 0 = 0
    /\ region_counts_exact c3 = false.
Proof.
  do 3 eexists.
  split; [vm_compute; reflexivity |].
  split; [vm_compute; reflexivity |].
  split; [vm_compute; reflexivity |].
  split; [vm_compute; reflexivity |].
  repeat split; vm_compute; reflexivity.
Qed.

(** Without a failed add in between the counts stay exact: two dynamic
    pages in one deepest-level table give it count 2, and removing one of
    them gives count 1 (scenarios 3 and 6 of the specification). *)
Lemma region_counts_exact_two_pages :
  exists c1 c2 c3,
    mmap_add_dynamic_region_ctx (sample_ctx 3 true)
      (MkRegion 0 0 4096 MT_RW_DATA 4096) = Some (c1, 0)
    /\ mmap_add_dynamic_region_ctx c1
         (MkRegion 4096 4096 4096 MT_RW_DATA 4096) = Some (c2, 0)
    /\ tables_mapped_regions c2 = [2; 2; 0]
    /\ region_counts_exact c2 = true
    /\ mmap_remove_dynamic_region_ctx c2 0 4096 = Some (c3, 0)
    /\ tables_mapped_regions c3 = [1; 1; 0]
    /\ region_counts_exact c3 = true.
Proof.
  do 3 eexists.
  split; [vm_compute; reflexivity |].
  split; [vm_compute; reflexivity |].
  split; [vm_compute; reflexivity |].
  split; [vm_compute; reflexivity |].
  split; [vm_compute; reflexivity |].
  split; vm_compute; reflexivity.
Qed.

(** ** Walks outside the base table *)

Lemma GET_XLAT_TABLE_LEVEL_BASE_range (s : Z) :
  0 <= GET_XLAT_TABLE_LEVEL_BASE s <= 2.
Proof.
  unfold GET_XLAT_TABLE_LEVEL_BASE.
  destruct (_ >? _); [lia |]. destruct (_ >? _); lia.
Qed.

(** The walk answers not-found, without reading any table, for an address
    whose index at the base level is not below the entry count. *)
Lemma find_xlat_table_entry_out_of_range
    (ctx : xlat_ctx) (va tb entries vsz : Z) :
  get_xlat_table_idx va (GET_XLAT_TABLE_LEVEL_BASE vsz) >= entries ->
  find_xlat_table_entry ctx va tb entries vsz = Some NotFound.
Proof.
  intros H. unfold find_xlat_table_entry.
  pose proof (GET_XLAT_TABLE_LEVEL_BASE_range vsz) as Hb.
  destruct (Z.to_nat (XLAT_TABLE_LEVEL_MAX - GET_XLAT_TABLE_LEVEL_BASE vsz + 1))
    as [| n] eqn:En; [unfold XLAT_TABLE_LEVEL_MAX in En; lia |].
  cbn [find_entry_loop]. cbv zeta.
  rewrite Z.geb_leb. apply Z.ge_le, Z.leb_le in H. rewrite H. reflexivity.
Qed.

(** When the page counter reaches such an address first, the attribute
    change fails with -EINVAL and changes nothing. *)
Lemma change_mem_attributes_out_of_range
    (ctx : xlat_ctx) (base_va0 size0 attributes : Z) :
  initialized ctx = true ->
  0 < to_int (size0 / PAGE_SIZE) ->
  get_xlat_table_idx base_va0
    (GET_XLAT_TABLE_LEVEL_BASE (wrap64 (va_max_address ctx + 1)))
    >= base_table_entries ctx ->
  change_mem_attributes ctx base_va0 size0 attributes = Some (ctx, - EINVAL).
Proof.
  intros Hi Hn Hidx. unfold change_mem_attributes. rewrite Hi. cbn [negb].
  repeat match goal with
         | |- (if ?b then _ else _) = _ => destruct b; [reflexivity |]
         end.
  destruct (Z.to_nat (to_int (size0 / PAGE_SIZE))) as [| n] eqn:En; [lia |].
  cbn [check_pages].
  rewrite find_xlat_table_entry_out_of_range by exact Hidx. reflexivity.
Qed.

(** C10: in a 32-bit address space (four base entries at level 1) the walk
    answers not-found for VA [2^32], whose base-level index is 4.  The range
    of [2^44] bytes from VA 0 contains that address, but its page count does
    not fit the [int] counter: no page is walked and the call returns 0
    instead of -EINVAL. *)
Theorem change_mem_attributes_misses_out_of_range_page :
  let ctx := sample_ctx 1 true in
  get_xlat_table_idx (2 ^ 32)
    (GET_XLAT_TABLE_LEVEL_BASE (wrap64 (va_max_address ctx + 1)))
    >= base_table_entries ctx
  /\ find_xlat_table_entry ctx (2 ^ 32) (base_table_addr ctx)
       (base_table_entries ctx) (wrap64 (va_max_address ctx + 1))
     = Some NotFound
  /\ 0 <= 2 ^ 32 < 0 + 2 ^ 44
  /\ change_mem_attributes ctx (2 ^ 32) 4096 MT_RO = Some (ctx, - EINVAL)
  /\ change_mem_attributes ctx 0 (2 ^ 44) MT_RO = Some (ctx, 0).
Proof.
  cbv zeta. split; [vm_compute; discriminate |].
  split; [vm_compute; reflexivity |].
  split; [split; vm_compute; first [reflexivity | discriminate] |].
  split; vm_compute; reflexivity.
Qed.

(** ** Add followed by remove *)

(** The third face of the roll-back defect: the builder writes the block
    for the first gigabyte of the region, then needs a sub-table for the
    partial second entry and finds the pool empty.  The record after the
    removed one is the region at 3 GiB, whose base is above the VA where the
    builder stopped, so the call returns -ENOMEM without running the
    unmapper: the block stays in the base table. *)
Lemma add_dynamic_enomem_skips_rollback :
  exists c1 c2,
    mmap_add_dynamic_region_ctx (sample_ctx 0 true)
      (MkRegion (3 * 2 ^ 30) (3 * 2 ^ 30) (2 ^ 30) MT_RW_DATA (2 ^ 30))
    = Some (c1, 0)
    /\ mmap_add_dynamic_region_ctx c1
         (MkRegion (2 ^ 30) (2 ^ 30) (2 ^ 30 + 4096) MT_RW_DATA (2 ^ 30))
       = Some (c2, - ENOMEM)
    /\ mmap c2 = mmap c1
    /\ zlookup (base_table c1) 1 = Some INVALID_DESC
    /\ (exists d, zlookup (base_table c2) 1 = Some d
                  /\ Z.land d DESC_MASK = BLOCK_DESC).
Proof.
  do 2 eexists.
  split; [vm_compute; reflexivity |].
  split; [vm_compute; reflexivity |].
  split; [vm_compute; reflexivity |].
  split; [vm_compute; reflexivity |].
  eexists. split; vm_compute; reflexivity.
Qed.

(** C1: in the state the failed add above leaves behind, the dynamic add of
    the region [1 GiB, 2 GiB) succeeds without writing anything (the builder
    finds the left-over block and does not overwrite it), and the successful
    remove of that region erases the block: the base table after the remove
    is not the base table before the add. *)
Theorem add_remove_erases_leftover_block :
  exists c1 c2 c3 c4,
    mmap_add_dynamic_region_ctx (sample_ctx 0 true)
      (MkRegion (3 * 2 ^ 30) (3 * 2 ^ 30) (2 ^ 30) MT_RW_DATA (2 ^ 30))
    = Some (c1, 0)
    /\ mmap_add_dynamic_region_ctx c1
         (MkRegion (2 ^ 30) (2 ^ 30) (2 ^ 30 + 4096) MT_RW_DATA (2 ^ 30))
       = Some (c2, - ENOMEM)
    /\ initialized c2 = true
    /\ mmap_add_dynamic_region_ctx c2
         (MkRegion (2 ^ 30) (2 ^ 30) (2 ^ 30) MT_RW_DATA (2 ^ 30))
       = Some (c3, 0)
    /\ mmap_remove_dynamic_region_ctx c3 (2 ^ 30) (2 ^ 30) = Some (c4, 0)
    /\ table_state c3 = table_state c2
    /\ (exists d, zlookup (base_table c2) 1 = Some d
                  /\ Z.land d DESC_MASK = BLOCK_DESC)
    /\ zlookup (base_table c4) 1 = Some INVALID_DESC
    /\ table_state c4 <> table_state c2.
Proof.
  do 4 eexists.
  split; [vm_compute; reflexivity |].
  split; [vm_compute; reflexivity |].
  split; [vm_compute; reflexivity |].
  split; [vm_compute; reflexivity |].
  split; [vm_compute; reflexivity |].
  split; [vm_compute; reflexivity |].
  split; [eexists; split; vm_compute; reflexivity |].
  split; [vm_compute; reflexivity |].
  vm_compute. intros H. discriminate H.
Qed.

(** In a context without left-overs the round trip restores the tables: one
    page at VA 0 takes two fresh sub-tables on the add, and the remove hands
    both back and clears the base entry. *)
Lemma add_remove_restores_fresh_context :
  exists c1 c2,
    mmap_add_dynamic_region_ctx (sample_ctx 2 true)
      (MkRegion 0 0 4096 MT_RW_DATA 4096) = Some (c1, 0)
    /\ tables_mapped_regions c1 = [1; 1]
    /\ mmap_remove_dynamic_region_ctx c1 0 4096 = Some (c2, 0)
    /\ table_state c2 = table_state (sample_ctx 2 true).
Proof.
  do 2 eexists.
  split; [vm_compute; reflexivity |].
  split; [vm_compute; reflexivity |].
  split; vm_compute; reflexivity.
Qed.

(** * Further properties of the code *)

(** ** Validation accepts only well-formed regions *)

Lemma IS_PAGE_ALIGNED_mod (x : Z) :
  IS_PAGE_ALIGNED x = true <-> x mod 4096 = 0.
Proof.
  unfold IS_PAGE_ALIGNED, PAGE_SIZE_MASK, PAGE_SIZE, PAGE_SIZE_SHIFT.
  change (Z.shiftl 1 12 - 1) with (Z.ones 12).
  rewrite Z.land_ones by lia. change (2 ^ 12) with 4096.
  apply Z.eqb_eq.
Qed.

Lemma no_wrap_of_le (a sz : Z) :
  0 <= a < 2 ^ 64 -> 0 < sz < 2 ^ 64 -> a <= wrap64 (a + sz - 1) ->
  a + sz - 1 < 2 ^ 64.
Proof.
  intros Ha Hs H. destruct (Z.lt_ge_cases (a + sz - 1) (2 ^ 64)) as [| Hge];
    [assumption |].
  exfalso. unfold wrap64 in H.
  replace (a + sz - 1) with (a + sz - 1 - 2 ^ 64 + 1 * 2 ^ 64) in H by lia.
  rewrite Z.mod_add, Z.mod_small in H by lia. lia.
Qed.

(** X1: when validation returns success for machine-word arguments with a
    non-zero size, the four arguments are multiples of the page size, the
    region does not wrap around and ends inside the configured virtual and
    physical address spaces, and the last usable slot of the region array is
    free. *)
Theorem check_success_region_well_formed
    (ctx : xlat_ctx) (pa va sz at0 gr : Z) :
  0 <= pa < 2 ^ 64 -> 0 <= va < 2 ^ 64 -> 0 < sz < 2 ^ 64 ->
  mmap_add_region_check ctx pa va sz at0 gr = Some 0 ->
  pa mod 4096 = 0 /\ va mod 4096 = 0 /\ sz mod 4096 = 0 /\ gr mod 4096 = 0
  /\ va + sz - 1 <= va_max_address ctx
  /\ pa + sz - 1 <= pa_max_address ctx
  /\ va + sz - 1 < 2 ^ 64 /\ pa + sz - 1 < 2 ^ 64
  /\ exists lastr, zlookup (mmap ctx) (mmap_num ctx - 1) = Some lastr
                   /\ size lastr = 0.
Proof.
  intros Hpa Hva Hsz H.
  pose proof (check_success_has_room _ _ _ _ _ _ H) as Hroom.
  unfold mmap_add_region_check in H.
  destruct (negb (IS_PAGE_ALIGNED pa) || negb (IS_PAGE_ALIGNED va)
            || negb (IS_PAGE_ALIGNED sz) || negb (IS_PAGE_ALIGNED gr)) eqn:Ea;
    [discriminate H |].
  destruct ((pa >? wrap64 (pa + sz - 1)) || (va >? wrap64 (va + sz - 1)))
    eqn:Eo; [discriminate H |].
  destruct (wrap64 (va + sz - 1) >? va_max_address ctx) eqn:Ev;
    [discriminate H |].
  destruct (wrap64 (pa + sz - 1) >? pa_max_address ctx) eqn:Ep;
    [discriminate H |].
  clear H.
  repeat (apply orb_false_iff in Ea as [Ea ?]).
  repeat match goal with
         | E : negb _ = false |- _ => apply negb_false_iff in E
         end.
  apply orb_false_iff in Eo as [Eo1 Eo2].
  rewrite Z.gtb_ltb in Eo1, Eo2, Ev, Ep.
  apply Z.ltb_ge in Eo1, Eo2, Ev, Ep.
  pose proof (no_wrap_of_le pa sz Hpa Hsz Eo1) as Hwp.
  pose proof (no_wrap_of_le va sz Hva Hsz Eo2) as Hwv.
  rewrite wrap64_small in Ev, Ep by lia.
  repeat split; try (apply IS_PAGE_ALIGNED_mod; assumption);
    try lia; exact Hroom.
Qed.

Lemma check_success_region_well_formed_witness :
  0x2000 + 4096 - 1 <= va_max_address (sample_ctx 1 false).
Proof.
  refine (proj1 (proj2 (proj2 (proj2 (proj2
            (check_success_region_well_formed (sample_ctx 1 false)
               0x2000 0x2000 4096 MT_RW_DATA 4096 _ _ _ _))))));
    vm_compute; first [reflexivity | split; first [reflexivity | discriminate]].
Defined.

(** ** The decision function at the deepest level and away from the region *)

(** At the deepest level the decision is never to create or to enter a
    table. *)
Lemma map_region_action_level3_no_descent
    (mm : mmap_region) (dt pa va : Z) :
  xlat_tables_map_region_action mm dt pa va 3
    <> Some ACTION_CREATE_NEW_TABLE
  /\ xlat_tables_map_region_action mm dt pa va 3
     <> Some ACTION_RECURSE_INTO_TABLE.
Proof.
  unfold xlat_tables_map_region_action.
  change (3 =? 3) with true. change (negb (3 <? 3)) with true. cbv iota.
  split;
    repeat match goal with
           | |- context [if ?b then _ else _] => destruct b
           end; discriminate.
Qed.

(** X2: for arguments that do not wrap around, the disjunctive test holds for
    every entry: an invalid entry above the deepest level that is not fully
    inside the region is given a new table, also when it shares no address
    with the region. *)
Theorem map_region_action_not_inside_creates_table
    (mm : mmap_region) (pa va level : Z) :
  0 <= level < 3 ->
  0 <= base_va mm -> 0 < size mm -> base_va mm + size mm <= 2 ^ 64 ->
  0 <= va -> va + XLAT_BLOCK_SIZE level <= 2 ^ 64 ->
  ~ (base_va mm <= va
     /\ va + XLAT_BLOCK_SIZE level - 1 <= base_va mm + size mm - 1) ->
  xlat_tables_map_region_action mm INVALID_DESC pa va level
  = Some ACTION_CREATE_NEW_TABLE.
Proof.
  intros Hl Hb Hs He Hva Hve Hnot.
  pose proof (XLAT_BLOCK_SIZE_pos level ltac:(lia)) as Hbs.
  unfold xlat_tables_map_region_action. rewrite !wrap64_small by lia.
  rewrite !Z.geb_leb.
  destruct (Z.leb_spec (base_va mm) va) as [H1 | H1];
    destruct (Z.leb_spec (va + XLAT_BLOCK_SIZE level - 1)
                (base_va mm + size mm - 1)) as [H2 | H2];
    cbn [andb]; try (exfalso; apply Hnot; lia).
  all: replace (negb (level <? 3)) with false
         by (symmetry; apply negb_false_iff, Z.ltb_lt; lia).
  all: destruct (Z.leb_spec (base_va mm) (va + XLAT_BLOCK_SIZE level - 1));
    destruct (Z.leb_spec va (base_va mm + size mm - 1));
    cbn [orb]; try reflexivity; lia.
Qed.

Lemma map_region_action_not_inside_creates_table_witness :
  xlat_tables_map_region_action
    (MkRegion (2 ^ 30) (2 ^ 30) 4096 MT_RW_DATA 4096) INVALID_DESC 0 0 1
  = Some ACTION_CREATE_NEW_TABLE.
Proof.
  refine (map_region_action_not_inside_creates_table
            (MkRegion (2 ^ 30) (2 ^ 30) 4096 MT_RW_DATA 4096) 0 0 1
            _ _ _ _ _ _ _); try closed_arith.
  vm_compute. intros [H _]. apply H. reflexivity.
Defined.

(** ** Descriptors *)

(** Equality of two integers bit by bit, after rewriting the bits of the
    bitwise operations. *)
Ltac bitwise n :=
  apply Z.bits_inj'; intros n ?;
  rewrite ?Z.land_spec, ?Z.lor_spec.

Lemma land_lor_absorb_r (a b : Z) : Z.land (Z.lor a b) b = b.
Proof. bitwise n. destruct (Z.testbit a n), (Z.testbit b n); reflexivity. Qed.

Lemma land_lor_keep (a b m : Z) :
  Z.land a m = m -> Z.land (Z.lor a b) m = m.
Proof.
  intros H. rewrite <- H at 2. bitwise n.
  apply (f_equal (fun x => Z.testbit x n)) in H.
  rewrite Z.land_spec in H.
  destruct (Z.testbit a n), (Z.testbit b n), (Z.testbit m n);
    try reflexivity; discriminate H.
Qed.

Lemma land_lor_zero (a b m : Z) :
  Z.land a m = 0 -> Z.land b m = 0 -> Z.land (Z.lor a b) m = 0.
Proof.
  intros Ha Hb. rewrite Z.land_lor_distr_l, Ha, Hb. reflexivity.
Qed.

Lemma land_sub_mask (a m m' : Z) :
  Z.land m m' = m' -> Z.land a m = 0 -> Z.land a m' = 0.
Proof.
  intros Hm Ha. rewrite <- Hm, Z.land_assoc, Ha. reflexivity.
Qed.

Lemma land_const_disjoint (c m k : Z) :
  Z.land c k = c -> Z.land m k = 0 -> Z.land c m = 0.
Proof.
  intros Hc Hm. rewrite <- Hc, <- Z.land_assoc, (Z.land_comm k m), Hm.
  apply Z.land_0_r.
Qed.

Lemma block_mask_covers_type (level : Z) :
  0 <= level <= 3 -> Z.land (XLAT_BLOCK_MASK level) DESC_MASK = DESC_MASK.
Proof.
  intros H.
  assert (level = 0 \/ level = 1 \/ level = 2 \/ level = 3)
    as [-> | [-> | [-> | ->]]] by lia; reflexivity.
Qed.

(** X3: the descriptor the encoder returns has the type of its level in the two
    low bits: a page descriptor at level 3, a block descriptor above,
    whatever the attributes, when the execute-never mask of the context
    leaves the type bits alone. *)
Theorem xlat_desc_type (attr0 pa level xn d : Z) :
  0 <= level <= 3 ->
  Z.land xn DESC_MASK = 0 ->
  xlat_desc attr0 pa level xn = Some d ->
  Z.land d DESC_MASK = if level =? 3 then PAGE_DESC else BLOCK_DESC.
Proof.
  intros Hl Hxn H. unfold xlat_desc in H.
  destruct (Z.eqb_spec (Z.land pa (XLAT_BLOCK_MASK level)) 0) as [Hpa | _];
    [| discriminate H]. cbn [negb] in H.
  assert (Z.land pa DESC_MASK = 0) as Hpa'
    by (eapply land_sub_mask; [apply block_mask_covers_type; exact Hl
                              | exact Hpa]).
  assert (forall t, t = PAGE_DESC \/ t = BLOCK_DESC ->
            forall x, Z.land x DESC_MASK = 0 ->
                      Z.land (Z.lor x t) DESC_MASK = t) as Hty.
  { intros t Ht x Hx. rewrite Z.land_lor_distr_l, Hx.
    destruct Ht as [-> | ->]; reflexivity. }
  assert (forall x c, Z.land c DESC_MASK = 0 ->
            Z.land (Z.lor x c) DESC_MASK = Z.land x DESC_MASK) as Hc.
  { intros x c Hc0. rewrite Z.land_lor_distr_l, Hc0. apply Z.lor_0_r. }
  change XLAT_TABLE_LEVEL_MAX with 3 in H.
  set (t := if level =? 3 then PAGE_DESC else BLOCK_DESC) in *.
  assert (t = PAGE_DESC \/ t = BLOCK_DESC) as Ht
    by (unfold t; destruct (level =? 3); auto).
  repeat match type of H with
         | (if ?b then _ else _) = Some _ => destruct b; try discriminate H
         end;
    injection H as <-;
    repeat match goal with
           | |- context [if ?b then _ else _] => destruct b
           end;
    repeat (rewrite Hc by first [exact Hxn | reflexivity]);
    apply Hty; assumption.
Qed.

Lemma xlat_desc_type_witness :
  Z.land 0x40000000000701 DESC_MASK = BLOCK_DESC.
Proof.
  refine (xlat_desc_type MT_RW_DATA 0 1 (Z.shiftl 1 54) _ _ _ _);
    closed_arith.
Defined.

(** X4: device memory, read-write memory and memory flagged execute-never are
    always encoded with every bit of the execute-never mask set; read-only
    normal memory without the flag is encoded with none of them, when the
    mask lies above the attribute bits and outside the output address. *)
Theorem xlat_desc_execute_never (attr0 pa level xn d : Z) :
  xlat_desc attr0 pa level xn = Some d ->
  (MT_TYPE attr0 = MT_DEVICE \/ Z.land attr0 MT_RW <> 0
   \/ Z.land attr0 MT_EXECUTE_NEVER <> 0 ->
   Z.land d xn = xn)
  /\ (MT_TYPE attr0 <> MT_DEVICE -> Z.land attr0 MT_RW = 0 ->
      Z.land attr0 MT_EXECUTE_NEVER = 0 ->
      Z.land pa xn = 0 -> Z.land xn 0x3fff = 0 ->
      Z.land d xn = 0).
Proof.
  intros H. unfold xlat_desc in H.
  destruct (negb (Z.land pa (XLAT_BLOCK_MASK level) =? 0));
    [discriminate H |]. cbv zeta in H.
  destruct (Z.eqb_spec (MT_TYPE attr0) MT_DEVICE) as [Hdev | Hdev].
  - injection H as <-. split; [intros _; apply land_lor_absorb_r |].
    intros Hn. contradiction.
  - destruct (Z.eqb_spec (Z.land attr0 MT_RW) 0) as [Hrw | Hrw];
      destruct (Z.eqb_spec (Z.land attr0 MT_EXECUTE_NEVER) 0) as [Hx | Hx];
      cbn [negb orb] in H.
    2-4: repeat match type of H with
           | (if ?b then _ else _) = Some _ => destruct b; try discriminate H
           end;
         injection H as <-;
         (split; [intros _; apply land_lor_keep, land_lor_absorb_r
                 | intros; contradiction]).
    split; [intros [? | [? | ?]]; contradiction |].
    intros _ _ _ Hpx Hxm.
    assert (forall c, Z.land c 0x3fff = c -> Z.land c xn = 0) as Hc
      by (intros c Hc0; eapply land_const_disjoint; eassumption).
    repeat match type of H with
           | (if ?b then _ else _) = Some _ => destruct b; try discriminate H
           end;
      injection H as <-;
      repeat match goal with
             | |- context [if ?b then _ else _] => destruct b
             end;
      repeat (apply land_lor_zero); try exact Hpx; apply Hc; reflexivity.
Qed.

Lemma xlat_desc_execute_never_witness :
  Z.land 0x40000000000701 (Z.shiftl 1 54) = Z.shiftl 1 54.
Proof.
  refine (proj1 (xlat_desc_execute_never MT_RW_DATA 0 1 (Z.shiftl 1 54) _ _)
            _).
  - vm_compute. reflexivity.
  - right. left. vm_compute. discriminate.
Defined.

(** ** The pool of sub-tables *)

Lemma get_index_from_spec (ctx : xlat_ctx) (t : Z) (n : nat) (i0 i : Z) :
  get_index_from ctx t n i0 = Some i <->
  (i0 <= i < i0 + Z.of_nat n /\ t = table_ptr ctx i).
Proof.
  revert i0. induction n as [| n IH]; intros i0; cbn [get_index_from].
  - split; [discriminate | lia].
  - destruct (Z.eqb_spec (table_ptr ctx i0) t) as [He | Hne].
    + split.
      * intros [= <-]. split; [lia | congruence].
      * intros [Hr Ht]. f_equal. rewrite Ht in He.
        unfold table_ptr, XLAT_TABLE_SIZE in He. lia.
    + rewrite IH. split.
      * intros [Hr Ht]. split; [lia | exact Ht].
      * intros [Hr Ht]. split; [| exact Ht].
        destruct (Z.eq_dec i i0) as [-> |]; [congruence | lia].
Qed.

(** X5: the index of a table and its pointer determine each other: the scan
    finds index [i] exactly for the pointer of the [i]-th sub-table of the
    pool, and fails (the assertion after the scan) for any other pointer,
    the base table among them. *)
Theorem get_index_inverts_table_ptr (ctx : xlat_ctx) (t i : Z) :
  xlat_table_get_index ctx t = Some i <->
  (0 <= i < tables_num ctx /\ t = table_ptr ctx i).
Proof.
  unfold xlat_table_get_index. rewrite get_index_from_spec.
  destruct (Z.le_gt_cases 0 (tables_num ctx)).
  - rewrite Z2Nat.id by lia. reflexivity.
  - replace (Z.to_nat (tables_num ctx)) with O by lia. cbn. lia.
Qed.

Lemma get_empty_from_spec (ctx : xlat_ctx) (n : nat) (i0 : Z) (p : Z) :
  0 <= i0 ->
  get_empty_from ctx n i0 = Some p ->
  (p = NULL
   /\ forall j, i0 <= j < i0 + Z.of_nat n ->
                exists c, zlookup (tables_mapped_regions ctx) j = Some c
                          /\ c <> 0)
  \/ (exists i, i0 <= i < i0 + Z.of_nat n /\ p = table_ptr ctx i
                /\ zlookup (tables_mapped_regions ctx) i = Some 0
                /\ forall j, i0 <= j < i ->
                     exists c, zlookup (tables_mapped_regions ctx) j = Some c
                               /\ c <> 0).
Proof.
  revert i0. induction n as [| n IH]; intros i0 Hi0 H; cbn [get_empty_from] in H.
  - injection H as <-. left. split; [reflexivity | intros j Hj; lia].
  - destruct (zlookup (tables_mapped_regions ctx) i0) as [c |] eqn:Ec;
      [| discriminate H].
    destruct (Z.eqb_spec c 0) as [-> | Hc].
    + injection H as <-. right. exists i0.
      repeat split; try lia; try assumption.
    + destruct (IH (i0 + 1) ltac:(lia) H) as [[-> Hall] | (i & Hr & -> & Hz & Hall)].
      * left. split; [reflexivity |]. intros j Hj.
        destruct (Z.eq_dec j i0) as [-> |]; [eauto | apply Hall; lia].
      * right. exists i. repeat split; try lia; try assumption.
        intros j Hj.
        destruct (Z.eq_dec j i0) as [-> |]; [eauto | apply Hall; lia].
Qed.

(** X6: allocation hands out the first sub-table whose region count is zero and
    answers NULL only when every sub-table of the pool is in use. *)
Theorem get_empty_first_unused (ctx : xlat_ctx) (p : Z) :
  xlat_table_get_empty ctx = Some p ->
  (p = NULL
   /\ forall j, 0 <= j < tables_num ctx ->
                exists c, zlookup (tables_mapped_regions ctx) j = Some c
                          /\ c <> 0)
  \/ (exists i, 0 <= i < tables_num ctx /\ p = table_ptr ctx i
                /\ zlookup (tables_mapped_regions ctx) i = Some 0
                /\ forall j, 0 <= j < i ->
                     exists c, zlookup (tables_mapped_regions ctx) j = Some c
                               /\ c <> 0).
Proof.
  unfold xlat_table_get_empty. intros H.
  apply get_empty_from_spec in H; [| lia].
  destruct (Z.le_gt_cases 0 (tables_num ctx)).
  - rewrite Z2Nat.id in H by lia. exact H.
  - replace (Z.to_nat (tables_num ctx)) with O in H by lia.
    destruct H as [[-> _] | (i & Hr & _)]; [| cbn in Hr; lia].
    left. split; [reflexivity | intros j Hj; lia].
Qed.

Lemma get_empty_first_unused_witness :
  (0x20000 + 4096 = NULL
   /\ forall j, 0 <= j < 2 ->
        exists c, zlookup [3; 0] j = Some c /\ c <> 0)
  \/ (exists i, 0 <= i < 2 /\ 0x20000 + 4096 = 0x20000 + i * XLAT_TABLE_SIZE
                /\ zlookup [3; 0] i = Some 0
                /\ forall j, 0 <= j < i ->
                     exists c, zlookup [3; 0] j = Some c /\ c <> 0).
Proof.
  exact (get_empty_first_unused
           (set_tables_mapped_regions (sample_ctx 2 true) [3; 0])
           (0x20000 + 4096) eq_refl).
Defined.

(** ** Table descriptors *)

Lemma testbit_table_addr_mask (n : Z) :
  0 <= n -> Z.testbit TABLE_ADDR_MASK n = (12 <=? n) && (n <? 48).
Proof.
  intros Hn. change TABLE_ADDR_MASK with (Z.shiftl (Z.ones 36) 12).
  destruct (Z.leb_spec 12 n) as [H12 | H12]; cbn [andb].
  - rewrite Z.shiftl_spec by lia.
    destruct (Z.ltb_spec n 48).
    + apply Z.ones_spec_low. lia.
    + apply Z.ones_spec_high. lia.
  - apply Z.shiftl_spec_low. lia.
Qed.

Lemma testbit_desc_mask (n : Z) :
  0 <= n -> Z.testbit DESC_MASK n = (n <? 2).
Proof.
  intros Hn. change DESC_MASK with (Z.ones 2).
  destruct (Z.ltb_spec n 2).
  - apply Z.ones_spec_low. lia.
  - apply Z.ones_spec_high. lia.
Qed.

Lemma testbit_table_pointer (p n : Z) :
  0 <= p < 2 ^ 48 -> p mod 4096 = 0 -> 0 <= n ->
  n < 12 \/ 48 <= n -> Z.testbit p n = false.
Proof.
  intros Hp Ha Hn [Hlo | Hhi].
  - change 4096 with (2 ^ 12) in Ha.
    rewrite <- (Z.mod_pow2_bits_low p 12 n) by lia. rewrite Ha.
    apply Z.bits_0.
  - rewrite <- (Z.mod_small p (2 ^ 48)) by lia.
    apply Z.mod_pow2_bits_high. lia.
Qed.

(** X7: the table descriptor the builder writes for a sub-table gives the
    pointer back to the walker and to the unmapper, and has the table type,
    for every pointer aligned to the table size below [2^48]. *)
Theorem table_desc_pointer_round_trip (p : Z) :
  0 <= p < 2 ^ 48 -> p mod 4096 = 0 ->
  get_next_table_addr (Z.lor TABLE_DESC p) = Some p
  /\ Z.land (Z.lor TABLE_DESC p) TABLE_ADDR_MASK = p
  /\ Z.land (Z.lor TABLE_DESC p) DESC_MASK = TABLE_DESC.
Proof.
  intros Hp Ha.
  assert (Z.land (Z.lor TABLE_DESC p) TABLE_ADDR_MASK = p) as H1.
  { apply Z.bits_inj'. intros n Hn.
    rewrite Z.land_spec, Z.lor_spec, testbit_table_addr_mask by lia.
    change TABLE_DESC with DESC_MASK. rewrite testbit_desc_mask by lia.
    destruct (Z.leb_spec 12 n), (Z.ltb_spec n 48), (Z.ltb_spec n 2);
      cbn [andb orb]; try lia;
      rewrite ?andb_true_r, ?andb_false_r; try reflexivity;
      symmetry; apply testbit_table_pointer; auto; lia. }
  assert (Z.land (Z.lor TABLE_DESC p) DESC_MASK = TABLE_DESC) as H2.
  { apply Z.bits_inj'. intros n Hn.
    rewrite Z.land_spec, Z.lor_spec. change TABLE_DESC with DESC_MASK.
    rewrite testbit_desc_mask by lia.
    destruct (Z.ltb_spec n 2); cbn [andb orb];
      rewrite ?andb_true_r, ?andb_false_r; reflexivity. }
  unfold get_next_table_addr. rewrite H2, H1, Z.eqb_refl. auto.
Qed.

Lemma table_desc_pointer_round_trip_witness :
  get_next_table_addr (Z.lor TABLE_DESC 0x20000) = Some 0x20000.
Proof.
  refine (proj1 (table_desc_pointer_round_trip 0x20000 _ _)); closed_arith.
Defined.

(** ** What an add does to the region list *)

Lemma insert_region_list (ctx : xlat_ctx) (new lastr : mmap_region)
    (cursor : nat) (l' : list mmap_region) :
  size new <> 0 ->
  zlookup (mmap ctx) (mmap_num ctx - 1) = Some lastr -> size lastr = 0 ->
  (forall x, x ∈ mmap ctx -> size x = 0 ->
             region_end_va x <> region_end_va new) ->
  insert_region ctx new = Some (cursor, l') ->
  let l := mmap ctx in
  let num := Z.to_nat (mmap_num ctx) in
  l' = take cursor l ++ new :: take (num - cursor) (drop cursor l)
         ++ drop (S num) l
  /\ (cursor <= num - 1)%nat /\ (1 <= num)%nat /\ (num < length l)%nat
  /\ l !! (num - 1)%nat = Some lastr
  /\ Forall (fun x => size x <> 0) (take cursor l).
Proof.
  cbv zeta.
  intros Hnew Hlast Hlast0 Hsent Hins.
  unfold insert_region in Hins. fold (region_end_va new) in Hins.
  destruct (Z.ltb_spec (mmap_num ctx) 0) as [| Hnum]; [discriminate |].
  set (l := mmap ctx) in *. set (num := Z.to_nat (mmap_num ctx)) in *.
  unfold find_cursor in Hins.
  destruct (skip_lower_end l (region_end_va new) 0) as [k1 |] eqn:E1;
    [| discriminate].
  destruct (skip_smaller_size (drop k1 l) (region_end_va new) (size new) k1)
    as [c |] eqn:E2; [| discriminate].
  destruct (memmove_up l c num) as [l1 |] eqn:E3; [| discriminate].
  destruct (l1 !! num) as [last1 |]; [| discriminate].
  destruct (size last1 =? 0); [| discriminate].
  injection Hins as <- <-.
  apply skip_lower_end_spec in E1 as (k & c1 & Hk & Hc1 & Hf1 & Hn1).
  cbn in Hk. subst k1.
  apply skip_smaller_size_spec in E2 as (k2 & y & -> & Hy & Hf2 & Hn2).
  rewrite lookup_drop in Hy.
  unfold memmove_up in E3.
  destruct ((k + k2 <=? num)%nat && (num <? length l)%nat) eqn:Eb;
    [| discriminate].
  injection E3 as <-.
  apply andb_true_iff in Eb as [Hcn Hnl].
  apply Nat.leb_le in Hcn. apply Nat.ltb_lt in Hnl.
  set (c := (k + k2)%nat) in *.
  set (R := take (num - c) (drop c l) ++ drop (S num) l).
  assert (length (take c l) = c) as Hlen by (apply length_take_le; lia).
  assert (<[c := new]> (take (S c) l ++ R) = take c l ++ new :: R) as ->.
  { rewrite (take_S_r l c y Hy), <- app_assoc.
    rewrite insert_app_r_alt by lia. rewrite Hlen, Nat.sub_diag. reflexivity. }
  assert (take c l = take k l ++ take k2 (drop k l)) as Hsplit.
  { rewrite <- (take_drop k l) at 1. unfold c.
    rewrite take_app_add' by (symmetry; apply length_take_le; lia).
    reflexivity. }
  assert (Forall (fun x => size x <> 0) (take c l)) as Hnz.
  { rewrite Hsplit. apply Forall_app. split.
    - eapply Forall_impl; [exact Hf1 |]. intros x Hx. exact (proj2 Hx).
    - apply Forall_forall. intros x Hx Hx0.
      assert (x ∈ l) as Hxl
        by (apply (subseteq_drop k l), (subseteq_take k2 (drop k l)); exact Hx).
      eapply Forall_forall in Hf2; [| exact Hx].
      apply (Hsent x Hxl Hx0). exact (proj1 Hf2). }
  unfold zlookup in Hlast.
  destruct (Z.ltb_spec (mmap_num ctx - 1) 0) as [| Hn1']; [discriminate |].
  replace (Z.to_nat (mmap_num ctx - 1)) with (num - 1)%nat in Hlast
    by (unfold num; lia).
  assert (1 <= num)%nat as Hnum1 by (unfold num; lia).
  assert (c <= num - 1)%nat as Hc.
  { destruct (Nat.le_gt_cases c (num - 1)) as [| Hgt]; [assumption |].
    exfalso.
    assert (take c l !! (num - 1)%nat = Some lastr) as Hin
      by (rewrite lookup_take_lt by lia; exact Hlast).
    eapply Forall_lookup_1 in Hin; [| exact Hnz]. contradiction. }
  repeat split; try assumption; reflexivity.
Qed.

Lemma active_regions_insert_tail (l : list mmap_region) (lastr : mmap_region)
    (c num : nat) (tl : list mmap_region) :
  (c <= num - 1)%nat -> (1 <= num)%nat ->
  l !! (num - 1)%nat = Some lastr -> size lastr = 0 ->
  active_regions (take (num - c) (drop c l) ++ tl)
  = active_regions (drop c l).
Proof.
  intros Hc Hn Hl Hl0. apply active_regions_take.
  apply (Exists_take_lookup _ _ (num - 1 - c) lastr); [lia | | exact Hl0].
  rewrite lookup_drop.
  replace (c + (num - 1 - c))%nat with (num - 1)%nat by lia. exact Hl.
Qed.

Lemma insert_region_shape (ctx : xlat_ctx) (new lastr : mmap_region)
    (cursor : nat) (l' : list mmap_region) :
  size new <> 0 ->
  zlookup (mmap ctx) (mmap_num ctx - 1) = Some lastr -> size lastr = 0 ->
  (forall x, x ∈ mmap ctx -> size x = 0 ->
             region_end_va x <> region_end_va new) ->
  insert_region ctx new = Some (cursor, l') ->
  active_regions (mmap ctx)
  = take cursor (mmap ctx) ++ active_regions (drop cursor (mmap ctx))
  /\ active_regions l'
     = take cursor (mmap ctx) ++ new :: active_regions (drop cursor (mmap ctx)).
Proof.
  intros Hnew Hlast Hlast0 Hsent Hins.
  destruct (insert_region_list ctx new lastr cursor l' Hnew Hlast Hlast0 Hsent
              Hins) as (-> & Hc & Hn & Hlen & Hl & Hnz).
  split.
  - rewrite <- (take_drop cursor (mmap ctx)) at 1.
    apply active_regions_app_nonzero. exact Hnz.
  - rewrite active_regions_app_nonzero by exact Hnz. f_equal.
    cbn [active_regions]. apply Z.eqb_neq in Hnew. rewrite Hnew. f_equal.
    eapply active_regions_insert_tail; eassumption.
Qed.


Lemma zeroed_slot_end (x : mmap_region) :
  size x = 0 -> base_va x = 0 -> region_end_va x = 2 ^ 64 - 1.
Proof. unfold region_end_va. intros -> ->. reflexivity. Qed.

Lemma check_success_end_va (ctx : xlat_ctx) (pa va sz at0 gr : Z) :
  mmap_add_region_check ctx pa va sz at0 gr = Some 0 ->
  wrap64 (va + sz - 1) <= va_max_address ctx.
Proof.
  unfold mmap_add_region_check. intros H.
  repeat (case_step H;
          try (exfalso; cbv [EINVAL ERANGE ENOMEM Z.opp] in H;
               discriminate H)).
  match goal with
  | E : (_ >? va_max_address ctx) = false |- _ =>
      rewrite Z.gtb_ltb in E; apply Z.ltb_ge in E; exact E
  end.
Qed.

(** X8: a successful static add puts the new record into the list and keeps
    every other region, in the order they had, when the unused slots of the
    array are zeroed and the virtual address space ends below the last
    address of a machine word. *)
Theorem add_region_inserts (ctx ctx' : xlat_ctx) (mm : mmap_region) :
  slots_zeroed ctx ->
  va_max_address ctx < 2 ^ 64 - 1 ->
  size mm <> 0 ->
  mmap_add_region_ctx ctx mm = Some ctx' ->
  exists p s,
    active_regions (mmap ctx) = p ++ s
    /\ active_regions (mmap ctx') = p ++ mm :: s.
Proof.
  intros Hz Hmax Hsz H. unfold mmap_add_region_ctx in H.
  apply Z.eqb_neq in Hsz. rewrite Hsz in H. apply Z.eqb_neq in Hsz.
  repeat case_step H. injection H as <-.
  apply negb_false_iff, Z.eqb_eq in E1. subst z.
  destruct (check_success_has_room _ _ _ _ _ _ E0) as (lastr & Hl & Hl0).
  pose proof (check_success_end_va _ _ _ _ _ _ E0) as Hend.
  destruct (insert_region_shape ctx mm lastr n l Hsz Hl Hl0) as (H1 & H2);
    [| exact E2 | eexists _, _; split; [exact H1 | exact H2]].
  intros x Hx Hx0. unfold slots_zeroed in Hz.
  eapply Forall_forall in Hz; [| exact Hx].
  rewrite (zeroed_slot_end x Hx0 (Hz Hx0)). unfold region_end_va. lia.
Qed.

Lemma sample_slots_zeroed (n : nat) (b : bool) : slots_zeroed (sample_ctx n b).
Proof.
  unfold slots_zeroed. cbn [sample_ctx mmap].
  apply Forall_forall. intros x Hx _.
  apply elem_of_replicate in Hx as [-> _]. reflexivity.
Qed.

Lemma add_region_inserts_witness :
  exists p s,
    active_regions (mmap (sample_ctx 1 false)) = p ++ s
    /\ active_regions
         (mmap (update_max
                  (set_mmap (sample_ctx 1 false)
                     (<[0%nat := MkRegion 0 0 4096 MT_RW_DATA 4096]>
                        (replicate 9 sentinel)))
                  4095 4095))
       = p ++ MkRegion 0 0 4096 MT_RW_DATA 4096 :: s.
Proof.
  refine (add_region_inserts (sample_ctx 1 false) _
            (MkRegion 0 0 4096 MT_RW_DATA 4096)
            (sample_slots_zeroed 1 false) _ _ _);
    vm_compute; first [reflexivity | discriminate].
Defined.

(** ** Adds and the tracked maxima *)

Lemma memmove_down_after_insert (l : list mmap_region)
    (new lastr : mmap_region) (c num : nat) (l2 : list mmap_region) :
  (c <= num - 1)%nat -> (1 <= num)%nat -> (num < length l)%nat ->
  l !! (num - 1)%nat = Some lastr -> size lastr = 0 ->
  Forall (fun x => size x <> 0) (take c l) ->
  memmove_down
    (take c l ++ new :: take (num - c) (drop c l) ++ drop (S num) l) c num
  = Some l2 ->
  active_regions l2 = active_regions l.
Proof.
  intros Hc Hn Hlen Hl Hl0 Hnz H. unfold memmove_down in H.
  destruct ((c <=? num)%nat && _); [| discriminate H]. injection H as <-.
  assert (length (take c l) = c) as Hlc by (apply length_take_le; lia).
  set (T := take (num - c) (drop c l)) in *.
  set (D := drop (S num) l) in *.
  assert (length T = (num - c)%nat) as Hlt
    by (apply length_take_le; rewrite length_drop; lia).
  rewrite take_app_length' by (symmetry; exact Hlc).
  assert (drop (S c) (take c l ++ new :: T ++ D) = T ++ D) as ->.
  { rewrite (cons_middle new), app_assoc.
    apply drop_app_length'. rewrite length_app, Hlc. simpl. lia. }
  rewrite take_app_length' by (symmetry; exact Hlt).
  assert (active_regions l = take c l ++ active_regions (drop c l)) as ->
    by (rewrite <- (take_drop c l) at 1;
        apply active_regions_app_nonzero; exact Hnz).
  rewrite active_regions_app_nonzero by exact Hnz. f_equal.
  eapply active_regions_insert_tail; eassumption.
Qed.

Lemma max_end_va_insert (p s : list mmap_region) (x : mmap_region) :
  max_end_va (p ++ x :: s) = Z.max (region_end_va x) (max_end_va (p ++ s)).
Proof.
  induction p as [| a p IH]; cbn [app max_end_va fold_right]; [reflexivity |].
  fold (max_end_va (p ++ x :: s)). fold (max_end_va (p ++ s)).
  rewrite IH. lia.
Qed.

Lemma max_end_pa_insert (p s : list mmap_region) (x : mmap_region) :
  max_end_pa (p ++ x :: s) = Z.max (region_end_pa x) (max_end_pa (p ++ s)).
Proof.
  induction p as [| a p IH]; cbn [app max_end_pa fold_right]; [reflexivity |].
  fold (max_end_pa (p ++ x :: s)). fold (max_end_pa (p ++ s)).
  rewrite IH. lia.
Qed.

Lemma frame_max (c c' : xlat_ctx) :
  frame c' = frame c -> max_va c' = max_va c /\ max_pa c' = max_pa c.
Proof. unfold frame. intros H. split; congruence. Qed.

Lemma frame_mmap_num (c c' : xlat_ctx) :
  frame c' = frame c -> mmap_num c' = mmap_num c.
Proof. unfold frame. intros H. congruence. Qed.

(** The dynamic flag is set in the attributes the dynamic add records. *)
Lemma dynamic_flag_set (a : Z) : Z.land (Z.lor a MT_DYNAMIC) MT_DYNAMIC <> 0.
Proof.
  replace (Z.land (Z.lor a MT_DYNAMIC) MT_DYNAMIC) with MT_DYNAMIC.
  - vm_compute. discriminate.
  - symmetry. apply Z.bits_inj'. intros n _.
    rewrite Z.land_spec, Z.lor_spec.
    destruct (Z.testbit a n), (Z.testbit MT_DYNAMIC n); reflexivity.
Qed.

(** Every return of the dynamic add, seen on the region list and the
    tracked maxima. *)
Lemma add_dynamic_effect (ctx ctx' : xlat_ctx) (mm : mmap_region) (ret : Z) :
  slots_zeroed ctx ->
  va_max_address ctx < 2 ^ 64 - 1 ->
  size mm <> 0 ->
  mmap_add_dynamic_region_ctx ctx mm = Some (ctx', ret) ->
  let new := MkRegion (base_pa mm) (base_va mm) (size mm)
               (Z.lor (attr mm) MT_DYNAMIC) (granularity mm) in
  (ret = 0
   /\ (exists p s,
         active_regions (mmap ctx) = p ++ s
         /\ active_regions (mmap ctx') = p ++ new :: s)
   /\ max_va ctx' = Z.max (region_end_va new) (max_va ctx)
   /\ max_pa ctx' = Z.max (region_end_pa new) (max_pa ctx))
  \/ (ret <> 0
      /\ active_regions (mmap ctx') = active_regions (mmap ctx)
      /\ max_va ctx' = max_va ctx /\ max_pa ctx' = max_pa ctx).
Proof.
  intros Hz Hmax Hsz H new. unfold mmap_add_dynamic_region_ctx in H.
  apply Z.eqb_neq in Hsz. rewrite Hsz in H. apply Z.eqb_neq in Hsz.
  fold new in H.
  case_step H.
  destruct (Z.eqb_spec z 0) as [-> | Hret]; cbn [negb] in H.
  2:{ injection H as <- <-. right. auto. }
  destruct (check_success_has_room _ _ _ _ _ _ E) as (lastr & Hl & Hl0).
  pose proof (check_success_end_va _ _ _ _ _ _ E) as Hend.
  case_step H. case_step H.
  assert (forall x, x ∈ mmap ctx -> size x = 0 ->
                    region_end_va x <> region_end_va new) as Hsent.
  { intros x Hx Hx0. unfold slots_zeroed in Hz.
    eapply Forall_forall in Hz; [| exact Hx].
    rewrite (zeroed_slot_end x Hx0 (Hz Hx0)).
    unfold region_end_va, new. cbn [base_va size]. lia. }
  destruct (insert_region_shape ctx new lastr n l Hsz Hl Hl0 Hsent E0)
    as (Ha & Ha').
  destruct (insert_region_list ctx new lastr n l Hsz Hl Hl0 Hsent E0)
    as (Hlist & Hc & Hn & Hlen & Hlm & Hnz).
  assert (forall c, frame c = frame (set_mmap ctx l) ->
            update_max c (wrap64 (base_pa mm + size mm - 1))
              (wrap64 (base_va mm + size mm - 1)) = ctx' ->
            (exists p s,
                active_regions (mmap ctx) = p ++ s
                /\ active_regions (mmap ctx') = p ++ new :: s)
            /\ max_va ctx' = Z.max (region_end_va new) (max_va ctx)
            /\ max_pa ctx' = Z.max (region_end_pa new) (max_pa ctx)) as Hok.
  { intros c Hf <-. pose proof (frame_mmap _ _ Hf) as Hm.
    destruct (frame_max _ _ Hf) as [Hv Hp].
    cbn [set_mmap mmap max_va max_pa] in Hm, Hv, Hp.
    split; [eexists _, _; split; [exact Ha |] |].
    - cbn [update_max set_max mmap]. rewrite Hm. exact Ha'.
    - cbn [update_max set_max max_va max_pa]. rewrite Hv, Hp, !Z.gtb_ltb.
      unfold region_end_va, region_end_pa, new. cbn [base_va base_pa size].
      destruct (Z.ltb_spec (max_va ctx) (wrap64 (base_va mm + size mm - 1))),
        (Z.ltb_spec (max_pa ctx) (wrap64 (base_pa mm + size mm - 1))); lia. }
  case_step H.
  - case_step H. case_step H. pose proof (map_region_gen_frame _ _ _ _ _ _ _ _ _ E3) as Hf.
    case_step H.
    + right.
      case_step H.
      assert (mmap x = l) as Hmx
        by (apply frame_mmap in Hf; exact Hf).
      assert (mmap_num x = mmap_num ctx) as Hnx
        by (apply frame_mmap_num in Hf; exact Hf).
      rewrite Hmx, Hnx, Hlist in E6.
      apply memmove_down_after_insert with (lastr := lastr) in E6;
        try assumption.
      destruct (frame_max _ _ Hf) as [Hv Hp].
      cbn [set_mmap max_va max_pa] in Hv, Hp.
      case_step H. case_step H.
      * injection H as <- <-. cbn [set_mmap mmap max_va max_pa].
        repeat split; try assumption. vm_compute. discriminate.
      * case_step H. injection H as <- <-.
        apply unmap_region_frame in E9.
        pose proof (frame_mmap _ _ E9) as Hm9.
        destruct (frame_max _ _ E9) as [Hv9 Hp9].
        cbn [set_mmap mmap max_va max_pa] in Hm9, Hv9, Hp9.
        rewrite Hm9, Hv9, Hp9.
        repeat split; try assumption. vm_compute. discriminate.
    + left. injection H as H <-. split; [reflexivity |].
      apply (Hok x Hf H).
  - left. injection H as H <-. split; [reflexivity |].
    apply (Hok (set_mmap ctx l) eq_refl H).
Qed.

(** X9: a dynamic add that returns 0 has put the record, flagged dynamic, into
    the list and kept every other region in place; a dynamic add that
    returns an error, the roll-back after a builder failure included, leaves
    the list of regions as it was. *)
Theorem add_dynamic_region_list
    (ctx ctx' : xlat_ctx) (mm : mmap_region) (ret : Z) :
  slots_zeroed ctx ->
  va_max_address ctx < 2 ^ 64 - 1 ->
  size mm <> 0 ->
  mmap_add_dynamic_region_ctx ctx mm = Some (ctx', ret) ->
  (ret = 0 ->
   exists p s,
     active_regions (mmap ctx) = p ++ s
     /\ active_regions (mmap ctx')
        = p ++ MkRegion (base_pa mm) (base_va mm) (size mm)
                 (Z.lor (attr mm) MT_DYNAMIC) (granularity mm) :: s)
  /\ (ret <> 0 ->
      active_regions (mmap ctx') = active_regions (mmap ctx)).
Proof.
  intros Hz Hmax Hsz H.
  destruct (add_dynamic_effect ctx ctx' mm ret Hz Hmax Hsz H)
    as [(-> & Hex & _) | (Hne & Heq & _)].
  - split; [intros _; exact Hex | intros Hc; contradiction].
  - split; [intros Hc; contradiction | intros _; exact Heq].
Qed.

Lemma add_dynamic_region_list_witness :
  active_regions
    (mmap (set_mmap (set_tables_mapped_regions
                       (set_base_table (sample_ctx 1 true)
                          [Z.lor TABLE_DESC 0x20000; 0; 0; 0]) [1])
             (replicate 9 sentinel)))
  = active_regions (mmap (sample_ctx 1 true)).
Proof.
  refine (proj2 (add_dynamic_region_list (sample_ctx 1 true) _
                   (MkRegion 0 0 4096 MT_RW_DATA 4096) (- ENOMEM)
                   (sample_slots_zeroed 1 true) _ _ _) _);
    vm_compute; first [reflexivity | discriminate].
Defined.

(** X10: the tracked maxima stay the maxima over the regions of the list through
    every return of the static add and of the dynamic add. *)
Theorem adds_keep_max_exact
    (ctx ctx' : xlat_ctx) (mm : mmap_region) (ret : Z) :
  slots_zeroed ctx ->
  va_max_address ctx < 2 ^ 64 - 1 ->
  max_exact ctx ->
  (mmap_add_region_ctx ctx mm = Some ctx' -> max_exact ctx')
  /\ (mmap_add_dynamic_region_ctx ctx mm = Some (ctx', ret) ->
      max_exact ctx').
Proof.
  intros Hz Hmax [Hv Hp]. split; intros H.
  - unfold mmap_add_region_ctx in H.
    destruct (Z.eqb_spec (size mm) 0) as [| Hsz];
      [injection H as <-; split; assumption |].
    repeat case_step H. injection H as <-.
    apply negb_false_iff, Z.eqb_eq in E1. subst z.
    destruct (check_success_has_room _ _ _ _ _ _ E0) as (lastr & Hl & Hl0).
    pose proof (check_success_end_va _ _ _ _ _ _ E0) as Hend.
    destruct (insert_region_shape ctx mm lastr n l Hsz Hl Hl0) as (H1 & H2);
      [| exact E2 |].
    { intros x Hx Hx0. unfold slots_zeroed in Hz.
      eapply Forall_forall in Hz; [| exact Hx].
      rewrite (zeroed_slot_end x Hx0 (Hz Hx0)). unfold region_end_va. lia. }
    unfold max_exact. cbn [update_max set_max set_mmap mmap max_va max_pa].
    rewrite H2, max_end_va_insert, max_end_pa_insert, <- H1, <- Hv, <- Hp.
    rewrite !Z.gtb_ltb. unfold region_end_va, region_end_pa.
    destruct (Z.ltb_spec (max_va ctx) (wrap64 (base_va mm + size mm - 1))),
      (Z.ltb_spec (max_pa ctx) (wrap64 (base_pa mm + size mm - 1))); lia.
  - destruct (Z.eq_dec (size mm) 0) as [Hsz0 | Hsz].
    { unfold mmap_add_dynamic_region_ctx in H.
      apply Z.eqb_eq in Hsz0. rewrite Hsz0 in H.
      injection H as <- _. split; assumption. }
    destruct (add_dynamic_effect ctx ctx' mm ret Hz Hmax Hsz H)
      as [(_ & (p & s & H1 & H2) & Hv' & Hp') | (_ & Heq & Hv' & Hp')];
      unfold max_exact.
    + rewrite H2, max_end_va_insert, max_end_pa_insert, Hv', Hp',
        <- H1, <- Hv, <- Hp. split; reflexivity.
    + rewrite Heq, Hv', Hp'. split; assumption.
Qed.

Lemma adds_keep_max_exact_witness :
  max_exact
    (update_max
       (set_mmap (sample_ctx 1 false)
          (<[0%nat := MkRegion 0 0 4096 MT_RW_DATA 4096]>
             (replicate 9 sentinel)))
       4095 4095).
Proof.
  refine (proj1 (adds_keep_max_exact (sample_ctx 1 false) _
                   (MkRegion 0 0 4096 MT_RW_DATA 4096) 0
                   (sample_slots_zeroed 1 false) _ _) _).
  - vm_compute. reflexivity.
  - split; vm_compute; reflexivity.
  - vm_compute. reflexivity.
Defined.

(** ** Removal of a region *)

Lemma find_region_spec (l : list mmap_region) (va sz : Z) (i0 i : nat) :
  find_region l va sz i0 = Some i ->
  exists k r, i = (i0 + k)%nat /\ l !! k = Some r
    /\ Forall (fun x => size x <> 0 /\ ~ region_matches va sz x) (take k l)
    /\ (size r = 0 \/ (size r <> 0 /\ region_matches va sz r)).
Proof.
  revert i0. induction l as [| x l IH]; intros i0 H; [discriminate H |].
  cbn [find_region] in H.
  destruct (Z.eqb_spec (size x) 0) as [Hz | Hnz].
  { injection H as <-. exists O, x.
    (split; [lia |]); (split; [reflexivity |]); (split; [constructor | auto]). }
  destruct (Z.eqb_spec (base_va x) va) as [Hv | Hv];
    destruct (Z.eqb_spec (size x) sz) as [Hs | Hs]; cbn [andb] in H.
  { injection H as <-. exists O, x.
    (split; [lia |]); (split; [reflexivity |]); (split; [constructor |]).
    right. split; [exact Hnz | split; assumption]. }
  all: destruct (IH _ H) as (k & r & -> & Hr & Hf & Hd);
    exists (S k), r;
    (split; [lia |]); (split; [exact Hr |]); (split; [| exact Hd]);
    cbn [take]; constructor; [| exact Hf];
    split; [exact Hnz | intros [? ?]; contradiction].
Qed.

Lemma max_end_va_nonneg (l : list mmap_region) : 0 <= max_end_va l.
Proof. unfold max_end_va. induction l; cbn [fold_right]; lia. Qed.

Lemma max_end_pa_nonneg (l : list mmap_region) : 0 <= max_end_pa l.
Proof. unfold max_end_pa. induction l; cbn [fold_right]; lia. Qed.

Lemma scan_max_va_spec (l : list mmap_region) (acc m : Z) :
  0 <= acc ->
  scan_max_va l acc = Some m ->
  m = Z.max acc (max_end_va (active_regions l)).
Proof.
  revert acc. induction l as [| x l IH]; intros acc Hacc H;
    [discriminate H |].
  cbn [scan_max_va active_regions] in *.
  destruct (size x =? 0).
  - injection H as <-. cbn. lia.
  - apply IH in H;
      [| destruct (_ >? _); [apply wrap64_range | exact Hacc]].
    subst m. cbn [max_end_va fold_right].
    fold (max_end_va (active_regions l)). unfold region_end_va.
    rewrite Z.gtb_ltb.
    destruct (Z.ltb_spec acc (wrap64 (base_va x + size x - 1))); lia.
Qed.

Lemma scan_max_pa_spec (l : list mmap_region) (acc m : Z) :
  0 <= acc ->
  scan_max_pa l acc = Some m ->
  m = Z.max acc (max_end_pa (active_regions l)).
Proof.
  revert acc. induction l as [| x l IH]; intros acc Hacc H;
    [discriminate H |].
  cbn [scan_max_pa active_regions] in *.
  destruct (size x =? 0).
  - injection H as <-. cbn. lia.
  - apply IH in H;
      [| destruct (_ >? _); [apply wrap64_range | exact Hacc]].
    subst m. cbn [max_end_pa fold_right].
    fold (max_end_pa (active_regions l)). unfold region_end_pa.
    rewrite Z.gtb_ltb.
    destruct (Z.ltb_spec acc (wrap64 (base_pa x + size x - 1))); lia.
Qed.

Lemma memmove_down_deletes (l : list mmap_region) (r lastr : mmap_region)
    (i num : nat) (l2 : list mmap_region) :
  l !! i = Some r -> size r <> 0 ->
  l !! num = Some lastr -> size lastr = 0 ->
  Forall (fun x => size x <> 0) (take i l) ->
  memmove_down l i num = Some l2 ->
  active_regions l = take i l ++ r :: active_regions (drop (S i) l)
  /\ active_regions l2 = take i l ++ active_regions (drop (S i) l).
Proof.
  intros Hr Hrnz Hl Hl0 Hnz H. unfold memmove_down in H.
  destruct ((i <=? num)%nat && (num <? length l)%nat) eqn:Eb;
    [| discriminate H].
  injection H as <-. apply andb_true_iff in Eb as [Hin Hlen].
  apply Nat.leb_le in Hin. apply Nat.ltb_lt in Hlen.
  assert (i <> num) as Hne by (intros ->; congruence).
  split.
  - rewrite <- (take_drop i l) at 1.
    rewrite active_regions_app_nonzero by exact Hnz.
    rewrite (drop_S l r i Hr). cbn [active_regions].
    apply Z.eqb_neq in Hrnz. rewrite Hrnz. reflexivity.
  - rewrite active_regions_app_nonzero by exact Hnz. f_equal.
    apply active_regions_take.
    apply (Exists_take_lookup _ _ (num - i - 1) lastr); [lia | | exact Hl0].
    rewrite lookup_drop.
    replace (S i + (num - i - 1))%nat with num by lia. exact Hl.
Qed.

(** Every return of the removal, seen on the region list and the tracked
    maxima. *)
Lemma remove_effect (ctx ctx' : xlat_ctx) (va sz ret : Z) :
  mmap_remove_dynamic_region_ctx ctx va sz = Some (ctx', ret) ->
  (ret = - EINVAL /\ ctx' = ctx
   /\ Forall (fun x => ~ region_matches va sz x) (active_regions (mmap ctx)))
  \/ (exists p r s,
        active_regions (mmap ctx) = p ++ r :: s
        /\ region_matches va sz r
        /\ Forall (fun x => ~ region_matches va sz x) p
        /\ ((ret = - EPERM /\ ctx' = ctx /\ ~ is_dynamic r)
            \/ (ret = 0 /\ is_dynamic r
                /\ active_regions (mmap ctx') = p ++ s
                /\ max_va ctx'
                   = (if region_end_va r =? max_va ctx
                      then max_end_va (p ++ s) else max_va ctx)
                /\ max_pa ctx'
                   = (if region_end_pa r =? max_pa ctx
                      then max_end_pa (p ++ s) else max_pa ctx)))).
Proof.
  intros H. unfold mmap_remove_dynamic_region_ctx in H.
  case_step H. case_step H. apply negb_false_iff, Z.eqb_eq in E0.
  case_step H. case_step H.
  apply find_region_spec in E1 as (k & r & Hk & Hr & Hf & Hd).
  cbn in Hk. subst n. rewrite Hr in E2. injection E2 as <-.
  assert (Forall (fun x => size x <> 0) (take k (mmap ctx))) as Hnz
    by (eapply Forall_impl; [exact Hf | intros x Hx; exact (proj1 Hx)]).
  assert (Forall (fun x => ~ region_matches va sz x) (take k (mmap ctx)))
    as Hnm
    by (eapply Forall_impl; [exact Hf | intros x Hx; exact (proj2 Hx)]).
  destruct Hd as [Hz | [Hrnz Hmatch]].
  - apply Z.eqb_eq in Hz. rewrite Hz in H. injection H as <- <-.
    left. repeat split.
    rewrite <- (take_drop k (mmap ctx)).
    rewrite active_regions_app_nonzero by exact Hnz.
    rewrite (drop_S _ r k Hr). cbn [active_regions]. rewrite Hz.
    rewrite app_nil_r. exact Hnm.
  - right. apply Z.eqb_neq in Hrnz. rewrite Hrnz in H. apply Z.eqb_neq in Hrnz.
    unfold zlookup in E. destruct (mmap_num ctx <? 0); [discriminate E |].
    destruct (Z.eqb_spec (Z.land (attr r) MT_DYNAMIC) 0) as [Hst | Hdyn].
    + injection H as <- <-.
      exists (take k (mmap ctx)), r, (active_regions (drop (S k) (mmap ctx))).
      split; [| split; [exact Hmatch | split; [exact Hnm |]]].
      * rewrite <- (take_drop k (mmap ctx)) at 1.
        rewrite active_regions_app_nonzero by exact Hnz.
        rewrite (drop_S _ r k Hr). cbn [active_regions].
        apply Z.eqb_neq in Hrnz. rewrite Hrnz. reflexivity.
      * left. repeat split. unfold is_dynamic. intros Hc. contradiction.
    + case_step H.
      assert (frame x = frame ctx) as Hfr.
      { destruct (initialized ctx).
        - eapply unmap_region_frame. exact E1.
        - injection E1 as <-. reflexivity. }
      pose proof (frame_mmap _ _ Hfr) as Hm.
      pose proof (frame_mmap_num _ _ Hfr) as Hn.
      destruct (frame_max _ _ Hfr) as [Hv Hp].
      case_step H. rewrite Hm, Hn in E2.
      destruct (memmove_down_deletes _ r m k _ l Hr Hrnz E E0 Hnz E2)
        as [Ha Ha'].
      exists (take k (mmap ctx)), r, (active_regions (drop (S k) (mmap ctx))).
      split; [exact Ha | split; [exact Hmatch | split; [exact Hnm |]]].
      right.
      fold (region_end_va r) in H. fold (region_end_pa r) in H.
      cbn [set_mmap max_va max_pa] in H.
      case_step H. case_step H. injection H as <- <-.
      cbn [set_max set_mmap mmap max_va max_pa].
      split; [reflexivity | split; [exact Hdyn | split; [exact Ha' |]]].
      rewrite <- Ha'.
      split.
      * destruct (region_end_va r =? max_va ctx).
        -- apply scan_max_va_spec in E3; [| lia]. subst z.
           pose proof (max_end_va_nonneg (active_regions l)). lia.
        -- injection E3 as <-. exact Hv.
      * destruct (region_end_pa r =? max_pa ctx).
        -- apply scan_max_pa_spec in E4; [| lia]. subst z0.
           pose proof (max_end_pa_nonneg (active_regions l)). lia.
        -- injection E4 as <-. exact Hp.
Qed.

(** X11: the removal answers -EINVAL, changing nothing, exactly when no region of
    the list has the given base VA and size; otherwise it looks at the first
    region that has them: a static one gives -EPERM and no change, a dynamic
    one gives 0 and a list without that region, the others in place. *)
Theorem remove_region_list (ctx ctx' : xlat_ctx) (va sz ret : Z) :
  mmap_remove_dynamic_region_ctx ctx va sz = Some (ctx', ret) ->
  (ret = - EINVAL /\ ctx' = ctx
   /\ Forall (fun x => ~ region_matches va sz x) (active_regions (mmap ctx)))
  \/ (exists p r s,
        active_regions (mmap ctx) = p ++ r :: s
        /\ region_matches va sz r
        /\ Forall (fun x => ~ region_matches va sz x) p
        /\ ((ret = - EPERM /\ ctx' = ctx /\ ~ is_dynamic r)
            \/ (ret = 0 /\ is_dynamic r
                /\ active_regions (mmap ctx') = p ++ s))).
Proof.
  intros H. destruct (remove_effect ctx ctx' va sz ret H)
    as [Hl | (p & r & s & Ha & Hm & Hp & Hd)]; [left; exact Hl | right].
  exists p, r, s. split; [exact Ha | split; [exact Hm | split; [exact Hp |]]].
  destruct Hd as [Hd | (H0 & Hdy & Ha' & _)]; [left; exact Hd | right; auto].
Qed.

Lemma remove_region_list_witness :
  (- EINVAL = - EINVAL /\ sample_ctx 1 true = sample_ctx 1 true
   /\ Forall (fun x => ~ region_matches 0 4096 x)
        (active_regions (mmap (sample_ctx 1 true))))
  \/ (exists p r s,
        active_regions (mmap (sample_ctx 1 true)) = p ++ r :: s
        /\ region_matches 0 4096 r
        /\ Forall (fun x => ~ region_matches 0 4096 x) p
        /\ ((- EINVAL = - EPERM /\ sample_ctx 1 true = sample_ctx 1 true
             /\ ~ is_dynamic r)
            \/ (- EINVAL = 0 /\ is_dynamic r
                /\ active_regions (mmap (sample_ctx 1 true)) = p ++ s))).
Proof.
  exact (remove_region_list (sample_ctx 1 true) (sample_ctx 1 true)
           0 4096 (- EINVAL) eq_refl).
Defined.

Lemma region_leb_trans (a b c : mmap_region) :
  region_leb a b = true -> region_leb b c = true -> region_leb a c = true.
Proof.
  unfold region_leb. intros H1 H2.
  apply orb_true_iff in H1, H2. apply orb_true_iff.
  rewrite !andb_true_iff, !Z.ltb_lt, !Z.eqb_eq, !Z.leb_le in *. lia.
Qed.

Lemma sorted_regions_delete (p s : list mmap_region) (r : mmap_region) :
  sorted_regions (p ++ r :: s) = true -> sorted_regions (p ++ s) = true.
Proof.
  induction p as [| a p IH]; intros H.
  - cbn [app] in *. destruct s as [| b s]; [reflexivity |].
    rewrite sorted_regions_cons in H. apply andb_true_iff in H. tauto.
  - destruct p as [| a' p].
    + cbn [app] in *. destruct s as [| b s]; [reflexivity |].
      rewrite !sorted_regions_cons in *.
      apply andb_true_iff in H as [H1 H]. apply andb_true_iff in H as [H2 H].
      rewrite (region_leb_trans _ _ _ H1 H2), H. reflexivity.
    + change ((a :: a' :: p) ++ r :: s) with (a :: a' :: (p ++ r :: s)) in H.
      change ((a :: a' :: p) ++ s) with (a :: a' :: (p ++ s)).
      rewrite sorted_regions_cons in *. apply andb_true_iff in H as [H1 H].
      rewrite H1. cbn [andb]. apply IH. exact H.
Qed.

(** X12: through every return of the removal the tracked maxima stay the maxima
    over the regions of the list and the list stays sorted. *)
Theorem remove_keeps_max_and_order (ctx ctx' : xlat_ctx) (va sz ret : Z) :
  max_exact ctx -> mmap_sorted ctx ->
  mmap_remove_dynamic_region_ctx ctx va sz = Some (ctx', ret) ->
  max_exact ctx' /\ mmap_sorted ctx'.
Proof.
  intros [Hv Hp] Hs H. destruct (remove_effect ctx ctx' va sz ret H)
    as [(_ & -> & _) | (p & r & s & Ha & Hm & _ & Hd)];
    [split; [split |]; assumption |].
  destruct Hd as [(_ & -> & _) | (_ & _ & Ha' & Hv' & Hp')];
    [split; [split |]; assumption |].
  unfold max_exact, mmap_sorted in *. rewrite Ha', Hv', Hp'.
  rewrite Ha in Hv, Hp, Hs.
  rewrite max_end_va_insert in Hv. rewrite max_end_pa_insert in Hp.
  repeat split.
  - destruct (Z.eqb_spec (region_end_va r) (max_va ctx)); [reflexivity | lia].
  - destruct (Z.eqb_spec (region_end_pa r) (max_pa ctx)); [reflexivity | lia].
  - eapply sorted_regions_delete. exact Hs.
Qed.

Lemma remove_keeps_max_and_order_witness :
  max_exact (set_max (sample_ctx 0 false) 0 0)
  /\ mmap_sorted (set_max (sample_ctx 0 false) 0 0).
Proof.
  refine (remove_keeps_max_and_order
            (set_max
               (set_mmap (sample_ctx 0 false)
                  (<[0%nat := MkRegion 0 0 4096
                                (Z.lor MT_RW_DATA MT_DYNAMIC) 4096]>
                     (replicate 9 sentinel)))
               4095 4095)
            _ 0 4096 0 _ _ _).
  - split; vm_compute; reflexivity.
  - vm_compute. reflexivity.
  - vm_compute. reflexivity.
Defined.

(** ** Dynamic add followed by removal, on the region list *)

Lemma check_overlaps_dynamic_no_identical (l : list mmap_region)
    (pa va sz at0 : Z) :
  Z.land at0 MT_DYNAMIC <> 0 ->
  check_overlaps l pa va sz at0 = Some 0 ->
  Forall (fun r => ~ region_matches va sz r) (active_regions l).
Proof.
  intros Hdyn. induction l as [| mm rest IH]; intros H; [discriminate H |].
  cbn [check_overlaps active_regions] in *.
  destruct (size mm =? 0); [constructor |].
  apply Z.eqb_neq in Hdyn. rewrite Hdyn in H. cbn [negb orb] in H.
  destruct (((va >=? base_va mm)
             && (wrap64 (va + sz - 1) <=? wrap64 (base_va mm + size mm - 1)))
            || ((base_va mm >=? va)
                && (wrap64 (base_va mm + size mm - 1)
                    <=? wrap64 (va + sz - 1)))) eqn:Ef;
    [discriminate H |].
  case_step H. constructor; [| apply IH; exact H].
  intros [Hv Hs]. rewrite Hv, Hs in Ef.
  rewrite Z.geb_leb, !Z.leb_refl in Ef. discriminate Ef.
Qed.

Lemma check_dynamic_no_identical (ctx : xlat_ctx) (pa va sz at0 gr : Z) :
  Z.land at0 MT_DYNAMIC <> 0 ->
  mmap_add_region_check ctx pa va sz at0 gr = Some 0 ->
  Forall (fun r => ~ region_matches va sz r) (active_regions (mmap ctx)).
Proof.
  intros Hdyn H. unfold mmap_add_region_check in H.
  repeat (case_step H;
          try (exfalso; cbv [EINVAL ERANGE ENOMEM Z.opp] in H;
               discriminate H)).
  eapply check_overlaps_dynamic_no_identical; eassumption.
Qed.

Lemma first_match_unique {A : Type} (P : A -> Prop)
    (p p' s s' : list A) (r r' : A) :
  p ++ r :: s = p' ++ r' :: s' ->
  Forall (fun x => ~ P x) p -> P r ->
  Forall (fun x => ~ P x) p' -> P r' ->
  p = p' /\ r = r' /\ s = s'.
Proof.
  revert p'. induction p as [| a p IH]; intros p' He Hp Hr Hp' Hr'.
  - destruct p' as [| a' p'].
    + cbn in He. injection He as -> ->. auto.
    + cbn in He. injection He as -> _. inversion Hp'; subst. contradiction.
  - destruct p' as [| a' p'].
    + cbn in He. injection He as -> _. inversion Hp; subst. contradiction.
    + cbn in He. injection He as -> He.
      inversion Hp; subst. inversion Hp'; subst.
      destruct (IH p' He) as (-> & -> & ->); auto.
Qed.

(** X13: a dynamic add that succeeds and the removal of the same base VA and
    size undo each other on the region list: the removal cannot answer
    -EINVAL or -EPERM, the list of regions is the one before the add, and so
    are the tracked maxima. *)
Theorem add_dynamic_then_remove_restores_list
    (ctx c1 c2 : xlat_ctx) (mm : mmap_region) (ret : Z) :
  slots_zeroed ctx ->
  va_max_address ctx < 2 ^ 64 - 1 ->
  max_exact ctx ->
  size mm <> 0 ->
  mmap_add_dynamic_region_ctx ctx mm = Some (c1, 0) ->
  mmap_remove_dynamic_region_ctx c1 (base_va mm) (size mm) = Some (c2, ret) ->
  ret = 0
  /\ active_regions (mmap c2) = active_regions (mmap ctx)
  /\ max_va c2 = max_va ctx /\ max_pa c2 = max_pa ctx.
Proof.
  intros Hz Hmax [Hv Hp] Hsz Hadd Hrem.
  set (new := MkRegion (base_pa mm) (base_va mm) (size mm)
                (Z.lor (attr mm) MT_DYNAMIC) (granularity mm)).
  assert (Forall (fun r => ~ region_matches (base_va mm) (size mm) r)
            (active_regions (mmap ctx))) as Hnone.
  { unfold mmap_add_dynamic_region_ctx in Hadd.
    apply Z.eqb_neq in Hsz. rewrite Hsz in Hadd.
    case_step Hadd. destruct (Z.eqb_spec z 0) as [-> | Hne];
      cbn [negb] in Hadd.
    - eapply check_dynamic_no_identical; [| exact E]. apply dynamic_flag_set.
    - injection Hadd as _ Hc. contradiction. }
  destruct (add_dynamic_effect ctx c1 mm 0 Hz Hmax Hsz Hadd)
    as [(_ & (p & s & Ha & Ha1) & Hv1 & Hp1) | (Hc & _)];
    [| contradiction].
  fold new in Ha1, Hv1, Hp1.
  assert (region_matches (base_va mm) (size mm) new) as Hnew
    by (split; reflexivity).
  rewrite Ha in Hnone, Hv, Hp. apply Forall_app in Hnone as [Hnp Hns].
  destruct (remove_effect c1 c2 _ _ ret Hrem)
    as [(_ & _ & Hall) | (p' & r & s' & Hd & Hm & Hp' & Hcase)].
  { exfalso. rewrite Ha1 in Hall. apply Forall_app in Hall as [_ Hall].
    inversion Hall; subst. contradiction. }
  rewrite Ha1 in Hd.
  destruct (first_match_unique _ _ _ _ _ _ _ Hd Hnp Hnew Hp' Hm)
    as (<- & <- & <-).
  destruct Hcase as [(_ & _ & Hst) | (-> & _ & Ha2 & Hv2 & Hp2)].
  { exfalso. apply Hst. unfold is_dynamic, new. cbn [attr].
    apply dynamic_flag_set. }
  split; [reflexivity |]. rewrite Ha. split; [exact Ha2 |].
  rewrite Hv2, Hp2, Hv1, Hp1, Hv, Hp. split.
  - destruct (Z.eqb_spec (region_end_va new)
                (Z.max (region_end_va new) (max_end_va (p ++ s))));
      [reflexivity | lia].
  - destruct (Z.eqb_spec (region_end_pa new)
                (Z.max (region_end_pa new) (max_end_pa (p ++ s))));
      [reflexivity | lia].
Qed.

Lemma add_dynamic_then_remove_restores_list_witness :
  0 = 0
  /\ active_regions (mmap (sample_ctx 0 false))
     = active_regions (mmap (sample_ctx 0 false))
  /\ max_va (set_max (sample_ctx 0 false) 0 0) = max_va (sample_ctx 0 false)
  /\ max_pa (set_max (sample_ctx 0 false) 0 0) = max_pa (sample_ctx 0 false).
Proof.
  refine (add_dynamic_then_remove_restores_list (sample_ctx 0 false)
            (set_max
               (set_mmap (sample_ctx 0 false)
                  (<[0%nat := MkRegion 0 0 4096
                                (Z.lor MT_RW_DATA MT_DYNAMIC) 4096]>
                     (replicate 9 sentinel)))
               4095 4095)
            (set_max (sample_ctx 0 false) 0 0)
            (MkRegion 0 0 4096 MT_RW_DATA 4096) 0
            (sample_slots_zeroed 0 false) _ _ _ _ _).
  - vm_compute. reflexivity.
  - split; vm_compute; reflexivity.
  - vm_compute. discriminate.
  - vm_compute. reflexivity.
  - vm_compute. reflexivity.
Defined.

(** ** The table walk *)

Lemma find_entry_loop_found (ctx : xlat_ctx) (va : Z) (n : nat) :
  forall level table entries t i lvl,
    find_entry_loop ctx va n level table entries = Some (Found t i lvl) ->
    level <= lvl < level + Z.of_nat n
    /\ i = get_xlat_table_idx va lvl
    /\ exists desc,
         load ctx t i = Some desc
         /\ (Z.land desc DESC_MASK = BLOCK_DESC
             \/ (lvl = XLAT_TABLE_LEVEL_MAX
                 /\ Z.land desc DESC_MASK = PAGE_DESC)).
Proof.
  induction n as [| n IH]; intros level table entries t i lvl H;
    [discriminate H |].
  cbn [find_entry_loop] in H. cbv zeta in H.
  destruct (get_xlat_table_idx va level >=? entries); [discriminate H |].
  destruct (load ctx table (get_xlat_table_idx va level)) as [desc |] eqn:El;
    [| discriminate H].
  destruct (Z.eqb_spec (Z.land desc DESC_MASK) INVALID_DESC);
    [discriminate H |].
  destruct (Z.eqb_spec (Z.land desc DESC_MASK) BLOCK_DESC) as [Hb | Hb].
  { injection H as <- <- <-. split; [lia |]. split; [reflexivity |].
    exists desc. auto. }
  destruct ((Z.land desc DESC_MASK =? TABLE_DESC)
            || (Z.land desc DESC_MASK =? PAGE_DESC)) eqn:Et;
    cbn [negb] in H; [| discriminate H].
  destruct (Z.eqb_spec level XLAT_TABLE_LEVEL_MAX) as [Hl | Hl].
  { injection H as <- <- <-. split; [lia |]. split; [reflexivity |].
    exists desc. split; [exact El |]. right. split; [exact Hl |].
    apply orb_true_iff in Et as [Et | Et]; apply Z.eqb_eq in Et; exact Et. }
  destruct (get_next_table_addr desc) as [next |]; [| discriminate H].
  apply IH in H as (Hr & Hi & Hd). split; [lia |]. split; assumption.
Qed.

(** X14: what the walk finds is a leaf of the tree on the path of the address: a
    descriptor stored at the index of the address in a table of some level
    from the base level to 3, of block type, or of page type at level 3. *)
Theorem find_xlat_table_entry_found
    (ctx : xlat_ctx) (va tb entries vsz t i lvl : Z) :
  find_xlat_table_entry ctx va tb entries vsz = Some (Found t i lvl) ->
  GET_XLAT_TABLE_LEVEL_BASE vsz <= lvl <= XLAT_TABLE_LEVEL_MAX
  /\ i = get_xlat_table_idx va lvl
  /\ exists desc,
       load ctx t i = Some desc
       /\ (Z.land desc DESC_MASK = BLOCK_DESC
           \/ (lvl = XLAT_TABLE_LEVEL_MAX
               /\ Z.land desc DESC_MASK = PAGE_DESC)).
Proof.
  unfold find_xlat_table_entry. intros H.
  pose proof (GET_XLAT_TABLE_LEVEL_BASE_range vsz) as Hb.
  apply find_entry_loop_found in H as (Hr & Hi & Hd).
  unfold XLAT_TABLE_LEVEL_MAX in *. rewrite Z2Nat.id in Hr by lia.
  split; [lia |]. split; assumption.
Qed.

Lemma find_xlat_table_entry_found_witness :
  GET_XLAT_TABLE_LEVEL_BASE (2 ^ 32) <= 1 <= XLAT_TABLE_LEVEL_MAX
  /\ 1 = get_xlat_table_idx (2 ^ 30) 1
  /\ exists desc,
       load (set_base_table (sample_ctx 0 true) [0; 0x40000701; 0; 0])
         0x10000 1 = Some desc
       /\ (Z.land desc DESC_MASK = BLOCK_DESC
           \/ (1 = XLAT_TABLE_LEVEL_MAX
               /\ Z.land desc DESC_MASK = PAGE_DESC)).
Proof.
  exact (find_xlat_table_entry_found
           (set_base_table (sample_ctx 0 true) [0; 0x40000701; 0; 0])
           (2 ^ 30) 0x10000 4 (2 ^ 32) 0x10000 1 1 eq_refl).
Defined.

(** ** Addresses the walk cannot tell apart *)

Lemma level_span_multiple (base lvl : Z) :
  0 <= base -> base <= lvl <= 3 ->
  exists m, XLAT_TABLE_ENTRIES * XLAT_BLOCK_SIZE base
            = m * 512 * 2 ^ XLAT_ADDR_SHIFT lvl.
Proof.
  intros Hb Hl.
  assert (base = 0 \/ base = 1 \/ base = 2 \/ base = 3)
    as [-> | [-> | [-> | ->]]] by lia;
    assert (lvl = 0 \/ lvl = 1 \/ lvl = 2 \/ lvl = 3)
      as [-> | [-> | [-> | ->]]] by lia; try lia.
  - exists 1. reflexivity.
  - exists (2 ^ 9). reflexivity.
  - exists (2 ^ 18). reflexivity.
  - exists (2 ^ 27). reflexivity.
  - exists 1. reflexivity.
  - exists (2 ^ 9). reflexivity.
  - exists (2 ^ 18). reflexivity.
  - exists 1. reflexivity.
  - exists (2 ^ 9). reflexivity.
  - exists 1. reflexivity.
Qed.

Lemma get_xlat_table_idx_alias (base lvl va k : Z) :
  0 <= base -> base <= lvl <= 3 ->
  get_xlat_table_idx (va + k * (XLAT_TABLE_ENTRIES * XLAT_BLOCK_SIZE base)) lvl
  = get_xlat_table_idx va lvl.
Proof.
  intros Hb Hl. destruct (level_span_multiple base lvl Hb Hl) as (m & ->).
  pose proof (XLAT_ADDR_SHIFT_nonneg lvl ltac:(lia)) as Hs.
  unfold get_xlat_table_idx. f_equal.
  change XLAT_TABLE_IDX_MASK with (Z.ones 9).
  rewrite !Z.land_ones, !Z.shiftr_div_pow2 by lia.
  replace (va + k * (m * 512 * 2 ^ XLAT_ADDR_SHIFT lvl))
    with (va + (k * m * 512) * 2 ^ XLAT_ADDR_SHIFT lvl) by lia.
  rewrite Z.div_add by lia.
  replace (va / 2 ^ XLAT_ADDR_SHIFT lvl + k * m * 512)
    with (va / 2 ^ XLAT_ADDR_SHIFT lvl + (k * m) * 2 ^ 9) by lia.
  apply Z.mod_add. lia.
Qed.

Lemma find_entry_loop_alias (ctx : xlat_ctx) (va va' : Z) (n : nat) :
  forall level table entries,
    (forall lvl, level <= lvl <= 3 ->
                 get_xlat_table_idx va' lvl = get_xlat_table_idx va lvl) ->
    level <= 3 ->
    find_entry_loop ctx va' n level table entries
    = find_entry_loop ctx va n level table entries.
Proof.
  induction n as [| n IH]; intros level table entries Hidx Hl;
    [reflexivity |].
  cbn [find_entry_loop]. cbv zeta. rewrite (Hidx level) by lia.
  destruct (_ >=? _); [reflexivity |].
  destruct (load _ _ _) as [desc |]; [| reflexivity].
  destruct (_ =? INVALID_DESC); [reflexivity |].
  destruct (_ =? BLOCK_DESC); [reflexivity |].
  destruct (negb _); [reflexivity |].
  destruct (Z.eqb_spec level XLAT_TABLE_LEVEL_MAX) as [| Hne];
    [reflexivity |].
  destruct (get_next_table_addr desc); [| reflexivity].
  unfold XLAT_TABLE_LEVEL_MAX in Hne.
  apply IH; [| lia]. intros lvl Hlvl. apply Hidx. lia.
Qed.

(** X15: the walk reads nine index bits per level and nothing above the index of
    the base level, and it does not compare the address with the size of the
    address space: two addresses that differ by a multiple of 512 entries of
    the base level give the same result. *)
Theorem find_xlat_table_entry_alias
    (ctx : xlat_ctx) (va k tb entries vsz : Z) :
  find_xlat_table_entry ctx
    (va + k * (XLAT_TABLE_ENTRIES
               * XLAT_BLOCK_SIZE (GET_XLAT_TABLE_LEVEL_BASE vsz)))
    tb entries vsz
  = find_xlat_table_entry ctx va tb entries vsz.
Proof.
  unfold find_xlat_table_entry.
  pose proof (GET_XLAT_TABLE_LEVEL_BASE_range vsz) as Hb.
  apply find_entry_loop_alias; [| lia].
  intros lvl Hl. apply get_xlat_table_idx_alias; lia.
Qed.

(** ** Attribute change *)

Lemma store_counts (c c' : xlat_ctx) (t i v : Z) :
  store c t i v = Some c' ->
  tables_mapped_regions c' = tables_mapped_regions c.
Proof.
  unfold store. intros H.
  repeat match type of H with
         | context [match ?x with _ => _ end] => destruct x; try discriminate H
         end; injection H as <-; reflexivity.
Qed.

Lemma change_pages_frame (attributes : Z) (n : nat) :
  forall ctx va c',
    change_pages ctx attributes n va = Some c' ->
    frame c' = frame ctx
    /\ tables_mapped_regions c' = tables_mapped_regions ctx.
Proof.
  induction n as [| n IH]; intros ctx va c' H; cbn [change_pages] in H.
  - injection H as <-. auto.
  - repeat case_step H.
    apply IH in H as [Hf Hc].
    match goal with
    | Es : store _ _ _ _ = Some _ |- _ =>
        pose proof (store_frame _ _ _ _ _ Es) as Hf';
        pose proof (store_counts _ _ _ _ _ Es) as Hc'
    end.
    split; congruence.
Qed.

(** X16: the attribute change answers 0 or -EINVAL; an error leaves the context
    exactly as it was, and a success changes nothing but descriptors: the
    region list, the configuration and every region count stay. *)
Theorem change_mem_attributes_effect
    (ctx c' : xlat_ctx) (va sz attributes ret : Z) :
  change_mem_attributes ctx va sz attributes = Some (c', ret) ->
  (ret = 0 \/ ret = - EINVAL)
  /\ (ret <> 0 -> c' = ctx)
  /\ frame c' = frame ctx
  /\ tables_mapped_regions c' = tables_mapped_regions ctx.
Proof.
  unfold change_mem_attributes. intros H.
  repeat (case_step H;
          try (injection H as <- <-;
               repeat split; auto; intros; reflexivity)).
  injection H as <- <-.
  match goal with
  | Ec : change_pages _ _ _ _ = Some _ |- _ =>
      apply change_pages_frame in Ec as [Hf Hc]
  end.
  repeat split; auto. intros Hc0. contradiction.
Qed.

Lemma change_mem_attributes_effect_witness :
  (- EINVAL = 0 \/ - EINVAL = - EINVAL)
  /\ (- EINVAL <> 0 -> sample_ctx 1 true = sample_ctx 1 true)
  /\ frame (sample_ctx 1 true) = frame (sample_ctx 1 true)
  /\ tables_mapped_regions (sample_ctx 1 true)
     = tables_mapped_regions (sample_ctx 1 true).
Proof.
  exact (change_mem_attributes_effect (sample_ctx 1 true) (sample_ctx 1 true)
           0 4096 MT_RO (- EINVAL) eq_refl).
Defined.

Lemma page_va_shift (va : Z) (k : nat) :
  page_va (wrap64 (va + PAGE_SIZE)) k = page_va va (S k).
Proof.
  induction k as [| k IH]; [reflexivity |].
  cbn [page_va] in *. rewrite IH. reflexivity.
Qed.

Lemma check_pages_true (ctx : xlat_ctx) (n : nat) :
  forall va,
    check_pages ctx n va = Some true ->
    forall k, (k < n)%nat ->
      exists t i e,
        find_xlat_table_entry ctx (page_va va k) (base_table_addr ctx)
          (base_table_entries ctx) (wrap64 (va_max_address ctx + 1))
        = Some (Found t i XLAT_TABLE_LEVEL_MAX)
        /\ load ctx t i = Some e
        /\ Z.land e DESC_MASK = PAGE_DESC.
Proof.
  induction n as [| n IH]; intros va H k Hk; [lia |].
  cbn [check_pages] in H.
  destruct (find_xlat_table_entry ctx va _ _ _) as [[| t i lvl] |] eqn:Ef;
    try discriminate H.
  destruct (load ctx t i) as [e |] eqn:El; [| discriminate H].
  destruct (Z.eqb_spec (Z.land e DESC_MASK) PAGE_DESC) as [He | He];
    [| discriminate H].
  destruct (Z.eqb_spec lvl XLAT_TABLE_LEVEL_MAX) as [-> | Hl];
    [| discriminate H].
  cbn [negb orb] in H.
  destruct k as [| k].
  - exists t, i, e. cbn [page_va]. auto.
  - rewrite <- page_va_shift. apply (IH _ H). lia.
Qed.

(** X17: when the attribute change answers 0, every page the page counter
    reached was mapped, before the call, by a page descriptor at level 3. *)
Theorem change_mem_attributes_success_pages
    (ctx c' : xlat_ctx) (va sz attributes : Z) :
  change_mem_attributes ctx va sz attributes = Some (c', 0) ->
  forall k, (k < Z.to_nat (to_int (sz / PAGE_SIZE)))%nat ->
    exists t i e,
      find_xlat_table_entry ctx (page_va va k) (base_table_addr ctx)
        (base_table_entries ctx) (wrap64 (va_max_address ctx + 1))
      = Some (Found t i XLAT_TABLE_LEVEL_MAX)
      /\ load ctx t i = Some e
      /\ Z.land e DESC_MASK = PAGE_DESC.
Proof.
  unfold change_mem_attributes. intros H.
  repeat (case_step H; try (injection H as _ Hc; discriminate Hc)).
  intros k Hk. eapply check_pages_true; eassumption.
Qed.

Lemma change_mem_attributes_success_pages_witness :
  exists t i e,
    find_xlat_table_entry sample_mapped_ctx (page_va 0 0)
      (base_table_addr sample_mapped_ctx)
      (base_table_entries sample_mapped_ctx)
      (wrap64 (va_max_address sample_mapped_ctx + 1))
    = Some (Found t i XLAT_TABLE_LEVEL_MAX)
    /\ load sample_mapped_ctx t i = Some e
    /\ Z.land e DESC_MASK = PAGE_DESC.
Proof.
  let r := eval vm_compute in
             (change_mem_attributes sample_mapped_ctx 0 4096
                (Z.lor MT_MEMORY (Z.lor MT_RO MT_EXECUTE_NEVER))) in
  match r with
  | Some (?c, _) =>
      refine (change_mem_attributes_success_pages sample_mapped_ctx c 0 4096
                (Z.lor MT_MEMORY (Z.lor MT_RO MT_EXECUTE_NEVER)) _ 0%nat _)
  end.
  - vm_compute. reflexivity.
  - vm_compute. lia.
Defined.

(** ** Adding an array of regions *)

Lemma frame_va_max (c c' : xlat_ctx) :
  frame c' = frame c -> va_max_address c' = va_max_address c.
Proof. unfold frame. intros H. congruence. Qed.

Lemma add_static_effect (ctx ctx' : xlat_ctx) (mm : mmap_region) :
  slots_zeroed ctx ->
  va_max_address ctx < 2 ^ 64 - 1 ->
  size mm <> 0 ->
  mmap_add_region_ctx ctx mm = Some ctx' ->
  (exists p s,
      active_regions (mmap ctx) = p ++ s
      /\ active_regions (mmap ctx') = p ++ mm :: s)
  /\ slots_zeroed ctx'
  /\ va_max_address ctx' = va_max_address ctx
  /\ (mmap_sorted ctx -> mmap_sorted ctx').
Proof.
  intros Hz Hmax Hsz H. unfold mmap_add_region_ctx in H.
  apply Z.eqb_neq in Hsz. rewrite Hsz in H. apply Z.eqb_neq in Hsz.
  repeat case_step H. injection H as <-.
  apply negb_false_iff, Z.eqb_eq in E1. subst z.
  destruct (check_success_has_room _ _ _ _ _ _ E0) as (lastr & Hl & Hl0).
  pose proof (check_success_end_va _ _ _ _ _ _ E0) as Hend.
  assert (forall x, x ∈ mmap ctx -> size x = 0 ->
                    region_end_va x <> region_end_va mm) as Hsent.
  { intros x Hx Hx0. unfold slots_zeroed in Hz.
    eapply Forall_forall in Hz; [| exact Hx].
    rewrite (zeroed_slot_end x Hx0 (Hz Hx0)). unfold region_end_va. lia. }
  destruct (insert_region_shape ctx mm lastr n l Hsz Hl Hl0 Hsent E2)
    as (H1 & H2).
  destruct (insert_region_list ctx mm lastr n l Hsz Hl Hl0 Hsent E2)
    as (Hlist & _).
  cbn [update_max set_max set_mmap mmap va_max_address].
  split; [eexists _, _; split; [exact H1 | exact H2] |].
  split; [| split; [reflexivity |]].
  - unfold slots_zeroed in *. cbn [mmap]. rewrite Hlist.
    apply Forall_app. split; [apply Forall_take; exact Hz |].
    constructor; [intros Hc; contradiction |].
    apply Forall_app. split.
    + apply Forall_take, Forall_drop. exact Hz.
    + apply Forall_drop. exact Hz.
  - unfold mmap_sorted. cbn [mmap]. intros Hs.
    eapply insert_region_sorted; eassumption.
Qed.

(** X18: adding an array of records adds exactly its records up to the first one
    of size zero: when the loop returns, the list holds those regions
    together with the ones it held before, and it is sorted if it was. *)
Theorem mmap_add_ctx_adds_all (l : list mmap_region) :
  forall ctx ctx',
    slots_zeroed ctx ->
    va_max_address ctx < 2 ^ 64 - 1 ->
    mmap_add_ctx ctx l = Some ctx' ->
    active_regions (mmap ctx')
      ≡ₚ active_regions l ++ active_regions (mmap ctx)
    /\ (mmap_sorted ctx -> mmap_sorted ctx').
Proof.
  induction l as [| r l IH]; intros ctx ctx' Hz Hmax H; [discriminate H |].
  cbn [mmap_add_ctx active_regions] in *.
  destruct (Z.eqb_spec (size r) 0) as [| Hsz].
  - injection H as <-. split; [reflexivity | auto].
  - case_step H.
    destruct (add_static_effect ctx x r Hz Hmax Hsz E)
      as ((p & s & Ha & Ha') & Hz' & Hm' & Hs').
    destruct (IH x ctx' Hz' ltac:(lia) H) as [Hperm Hsorted].
    split; [| auto].
    rewrite Hperm, Ha', Ha. cbn [app].
    rewrite !app_assoc. symmetry. apply Permutation_middle.
Qed.

Lemma mmap_add_ctx_adds_all_witness :
  active_regions
    (mmap (update_max
             (set_mmap (sample_ctx 1 false)
                (<[0%nat := MkRegion 0 0 4096 MT_RW_DATA 4096]>
                   (replicate 9 sentinel)))
             4095 4095))
  ≡ₚ active_regions [MkRegion 0 0 4096 MT_RW_DATA 4096; sentinel;
                     MkRegion 0x2000 0x2000 4096 MT_RW_DATA 4096]
     ++ active_regions (mmap (sample_ctx 1 false)).
Proof.
  refine (proj1 (mmap_add_ctx_adds_all
                   [MkRegion 0 0 4096 MT_RW_DATA 4096; sentinel;
                    MkRegion 0x2000 0x2000 4096 MT_RW_DATA 4096]
                   (sample_ctx 1 false) _ (sample_slots_zeroed 1 false) _ _));
    vm_compute; reflexivity.
Defined.

(** ** What the builder and the unmapper never touch *)

(** X19: whatever the builder and the unmapper return, they have changed nothing
    but descriptors and region counts: the region list, the tracked maxima,
    the address-space bounds, the pool layout, the base level, the
    execute-never mask and the initialised flag are as before. *)
Theorem builder_and_unmapper_frame
    (ctx c' : xlat_ctx) (mm : mmap_region) (tbv tb entries level r : Z) :
  (xlat_tables_map_region ctx mm tbv tb entries level = Some (c', r) ->
   frame c' = frame ctx)
  /\ (xlat_tables_unmap_region ctx mm tbv tb entries level = Some c' ->
      frame c' = frame ctx).
Proof.
  split; intros H.
  - eapply map_region_gen_frame. exact H.
  - eapply unmap_region_frame. exact H.
Qed.

Lemma builder_and_unmapper_frame_witness :
  frame (set_base_table (sample_ctx 0 true) [0; 0x40000040000701; 0; 0])
  = frame (sample_ctx 0 true).
Proof.
  refine (proj1 (builder_and_unmapper_frame (sample_ctx 0 true) _
                   (MkRegion (2 ^ 30) (2 ^ 30) (2 ^ 30) MT_RW_DATA (2 ^ 30))
                   0 0x10000 4 1 (2 ^ 31 - 1)) _).
  vm_compute. reflexivity.
Defined.

(** ** The deepest level *)

(** X20: on a table of level 3 the loop of the builder never calls the builder
    again: its result is the same whatever the call at the next level would
    do, so the entry assertion on the level cannot fail through a descent
    below level 3. *)
Theorem map_region_loop_level3_no_descent
    (r1 r2 : xlat_ctx -> Z -> Z -> option (xlat_ctx * Z))
    (mm : mmap_region) (tb : Z) (n : nat) :
  forall ctx idx va,
    map_region_loop xlat_tables_map_region_action r1 mm tb 3 n ctx idx va
    = map_region_loop xlat_tables_map_region_action r2 mm tb 3 n ctx idx va.
Proof.
  induction n as [| n IH]; intros ctx idx va; [reflexivity |].
  cbn [map_region_loop]. cbv zeta.
  destruct (load ctx tb idx) as [desc |]; [| reflexivity].
  destruct (map_region_action_level3_no_descent mm (Z.land desc DESC_MASK)
              (wrap64 (base_pa mm + va - base_va mm)) va) as [Hc Hr].
  destruct (xlat_tables_map_region_action mm (Z.land desc DESC_MASK)
              (wrap64 (base_pa mm + va - base_va mm)) va 3)
    as [[| | |] |]; try reflexivity; try congruence.
  - destruct (_ <=? _); [reflexivity | apply IH].
  - destruct (xlat_desc _ _ _ _); [| reflexivity].
    destruct (store _ _ _ _); [| reflexivity].
    destruct (_ <=? _); [reflexivity | apply IH].
Qed.

(** ** Initialisation *)

Lemma init_map_regions_frame (l : list mmap_region) :
  forall ctx c', init_map_regions l ctx = Some c' -> frame c' = frame ctx.
Proof.
  induction l as [| mm l IH]; intros ctx c' H; [discriminate H |].
  cbn [init_map_regions] in H.
  repeat case_step H.
  - injection H as <-. reflexivity.
  - apply IH in H. apply map_region_gen_frame in E0. congruence.
Qed.

(** X21: a successful initialisation marks the context initialised, keeps the
    region list, its capacity and the tracked maxima, sets the execute-never
    mask from the hook for an exception level between 1 and 3, has checked
    the tracked maxima against the configured address spaces, and closes
    the static phase: a second initialisation and every static add of a
    non-empty region fail their assertion afterwards. *)
Theorem init_closes_static_phase
    (el : Z) (xn : Z -> Z) (max_pa0 : Z) (ctx c : xlat_ctx) :
  init_xlat_tables_ctx el xn max_pa0 ctx = Some c ->
  initialized c = true
  /\ mmap c = mmap ctx /\ mmap_num c = mmap_num ctx
  /\ max_va c = max_va ctx /\ max_pa c = max_pa ctx
  /\ 1 <= exception_level c <= 3
  /\ execute_never_mask c = xn (exception_level c)
  /\ pa_max_address c <= max_pa0
  /\ max_va c <= va_max_address c /\ max_pa c <= pa_max_address c
  /\ (forall el' xn' max_pa',
         init_xlat_tables_ctx el' xn' max_pa' c = None)
  /\ (forall mm, size mm <> 0 -> mmap_add_region_ctx c mm = None).
Proof.
  unfold init_xlat_tables_ctx. intros H.
  case_step H. case_step H.
  apply negb_false_iff, andb_true_iff in E0 as [He1 He3].
  rewrite Z.geb_leb in He1. apply Z.leb_le in He1, He3.
  repeat case_step H. injection H as <-.
  match goal with
  | Eb : _ && _ && _ = true |- _ =>
      apply andb_true_iff in Eb as [Eb Eb3];
      apply andb_true_iff in Eb as [Eb1 Eb2];
      apply Z.leb_le in Eb1, Eb2, Eb3
  end.
  cbn [set_initialized pa_max_address va_max_address max_va max_pa]
    in Eb1, Eb2, Eb3.
  match goal with
  | Ei : init_map_regions _ _ = Some _ |- _ =>
      apply init_map_regions_frame in Ei; rename Ei into Hf
  end.
  unfold frame in Hf. cbn [set_init] in Hf.
  cbn [set_initialized initialized mmap mmap_num max_va max_pa
         pa_max_address va_max_address
         exception_level execute_never_mask].
  injection Hf as Hf1 Hf2 Hf3 Hf4 Hf5 Hf6 Hf7 Hf8 Hf9 Hf10 Hf11 Hf12 Hf13 Hf14.
  repeat split; try congruence; try lia.
  intros mm Hsz. unfold mmap_add_region_ctx.
  apply Z.eqb_neq in Hsz. rewrite Hsz. reflexivity.
Qed.

Lemma init_closes_static_phase_witness :
  mmap_add_region_ctx (set_initialized (sample_ctx 0 false))
    (MkRegion 0 0 4096 MT_RW_DATA 4096) = None.
Proof.
  refine (proj2 (proj2 (proj2 (proj2 (proj2 (proj2 (proj2 (proj2
            (proj2 (proj2 (proj2 (init_closes_static_phase 3 (fun _ => Z.shiftl 1 54)
               (2 ^ 48 - 1) (sample_ctx 0 false) _ _)))))))))))
            (MkRegion 0 0 4096 MT_RW_DATA 4096) _).
  - vm_compute. reflexivity.
  - vm_compute. discriminate.
Defined.

(** ** What the unmapper refuses *)

(** X22: for arguments that do not wrap around, the unmapper fails an assertion
    at every invalid entry it looks at, whether or not the entry shares an
    address with the region, and at every entry that is not fully inside the
    region unless the entry is a table above level 3: it neither skips an
    unmapped entry nor splits a block. *)
Theorem unmap_region_action_refuses
    (mm : mmap_region) (dt va level : Z) :
  0 <= level <= 3 ->
  0 <= base_va mm -> 0 < size mm -> base_va mm + size mm <= 2 ^ 64 ->
  0 <= va -> va + XLAT_BLOCK_SIZE level <= 2 ^ 64 ->
  unmap_region_action mm INVALID_DESC va level = None
  /\ (~ (base_va mm <= va
         /\ va + XLAT_BLOCK_SIZE level - 1 <= base_va mm + size mm - 1) ->
      level = 3 \/ dt <> TABLE_DESC ->
      unmap_region_action mm dt va level = None).
Proof.
  intros Hl Hb Hs He Hva Hve.
  pose proof (XLAT_BLOCK_SIZE_pos level ltac:(lia)) as Hbs.
  unfold unmap_region_action. rewrite !wrap64_small by lia.
  rewrite !Z.geb_leb.
  assert ((base_va mm <=? va + XLAT_BLOCK_SIZE level - 1)
          || (va <=? base_va mm + size mm - 1) = true) as Hor.
  { apply orb_true_iff.
    destruct (Z.leb_spec (base_va mm) (va + XLAT_BLOCK_SIZE level - 1));
      destruct (Z.leb_spec va (base_va mm + size mm - 1)); auto; lia. }
  rewrite Hor. split.
  - destruct ((base_va mm <=? va)
              && (va + XLAT_BLOCK_SIZE level - 1 <=? base_va mm + size mm - 1)).
    + destruct (level =? 3); reflexivity.
    + destruct (negb (level <? 3)); reflexivity.
  - intros Hnot Hdt.
    replace ((base_va mm <=? va)
             && (va + XLAT_BLOCK_SIZE level - 1 <=? base_va mm + size mm - 1))
      with false.
    2:{ symmetry. apply andb_false_iff.
        destruct (Z.leb_spec (base_va mm) va);
          destruct (Z.leb_spec (va + XLAT_BLOCK_SIZE level - 1)
                      (base_va mm + size mm - 1)); auto.
        exfalso. apply Hnot. lia. }
    destruct (Z.ltb_spec level 3) as [Hlt | Hge]; cbn [negb]; [| reflexivity].
    destruct Hdt as [-> | Hdt]; [lia |].
    destruct (Z.eqb_spec dt TABLE_DESC); [contradiction | reflexivity].
Qed.

Lemma unmap_region_action_refuses_witness :
  unmap_region_action (MkRegion 0 0 4096 MT_RW_DATA 4096) BLOCK_DESC 0 2
  = None.
Proof.
  refine (proj2 (unmap_region_action_refuses
                   (MkRegion 0 0 4096 MT_RW_DATA 4096) BLOCK_DESC 0 2
                   _ _ _ _ _ _) _ _); try closed_arith.
  - vm_compute. intros [_ H]. apply H. reflexivity.
  - right. vm_compute. discriminate.
Defined.
